(** * github-gitlab-ci-sync: a shallow embedding of [server.py]

    The server mirrors GitHub repositories to GitLab and relays GitLab CI
    job statuses back to GitHub as commit statuses.  Two background
    coroutines ([git_task], [gitlab_task]) drain two global queues that the
    two webhook handlers ([github], [gitlab]) fill.

    The embedding keeps the structure of the Python source:
    - JSON payloads are dynamically typed Python values ([pyval]) and every
      subscript or iteration on them can raise, as in Python;
    - the configuration is a record per repository, the [repos] dictionary
      an association list in insertion order (the order [.items()] yields);
    - every side effect (print, subprocess, HTTP request, queue put/get) is
      an [event]; a coroutine is a function from the outside world and the
      events so far to the events it adds and the way it ends;
    - the outside world decides how a subprocess exits, how a request is
      answered and which text the standard output can encode: [print] raises
      where it cannot;
    - exceptions are an explicit outcome, and so is a coroutine left
      suspended on [queue.get()]. *)

From stdpp Require Import base option list strings gmap.
From Stdlib Require Import ZArith Ascii String.

Open Scope string_scope.
Open Scope Z_scope.
Open Scope list_scope.
Set Warnings "-register-all".

(** ** Python values *)

(** The values [json.loads] produces.  A dictionary is kept as its items in
    insertion order.  Numbers are integers: the payload fields the server
    reads (pipeline and job ids) are integers. *)
Inductive pyval : Type :=
| PNone
| PBool (b : bool)
| PInt (z : Z)
| PStr (s : string)
| PList (l : list pyval)
| PDict (d : list (string * pyval)).

(** The exceptions the server meets, a constructor standing for a class
    with its subclasses: [OSError] for what starting a subprocess raises,
    [ClientError] for what the HTTP client raises while it sends a request
    and reads the text of the answer, [Exception msg] for the ones the
    server raises itself. *)
Inductive exn : Type :=
| KeyError (key : string)
| TypeError
| JSONDecodeError
| UnicodeEncodeError
| UnicodeDecodeError
| LookupError
| HTTPRequestEntityTooLarge
| OSError
| ClientError
| Exception (msg : string).

(** [v == s] for a string literal [s]: only a [str] equals a [str]. *)
Definition py_eq_str (v : pyval) (s : string) : bool :=
  match v with
  | PStr s' => bool_decide (s' = s)
  | _ => false
  end.

Fixpoint assoc {A : Type} (k : string) (d : list (string * A)) : option A :=
  match d with
  | [] => None
  | (k', v) :: d' => if bool_decide (k' = k) then Some v else assoc k d'
  end.

(** [v[k]] for a string literal [k]: [KeyError] on a dictionary without the
    key, [TypeError] on everything that is not a dictionary (lists and
    strings want integer indices, the rest is not subscriptable). *)
Definition py_getitem (v : pyval) (k : string) : exn + pyval :=
  match v with
  | PDict d => match assoc k d with
               | Some x => inr x
               | None => inl (KeyError k)
               end
  | _ => inl TypeError
  end.

Fixpoint chars (s : string) : list pyval :=
  match s with
  | EmptyString => []
  | String c s' => PStr (String c EmptyString) :: chars s'
  end.

(** What [for x in v] iterates over: the elements of a list, the keys of a
    dictionary, the characters of a string; anything else is not iterable. *)
Definition py_iter (v : pyval) : exn + list pyval :=
  match v with
  | PList l => inr l
  | PDict d => inr ((λ kv, PStr kv.1) <$> d)
  | PStr s => inr (chars s)
  | _ => inl TypeError
  end.

(** Library functions the server calls and that are not part of it.
    [request_text] is aiohttp's [request.text()] on the headers and the raw
    body of a request: it raises when the body is over the size limit
    ([HTTPRequestEntityTooLarge]), when the charset of the Content-Type is
    unknown ([LookupError]) and when the body does not decode in it
    ([UnicodeDecodeError]). *)
Record pylib : Type := {
  json_loads : string → option pyval;   (* None: JSONDecodeError *)
  json_dumps : pyval → string;
  py_str : pyval → string;              (* str(), as f-strings apply it *)
  quote : string → string;              (* urllib.parse.quote(_, safe='') *)
  request_text : list (string * string) → string → exn + string
}.

(** Text every encoding of the standard output can write: ASCII. *)
Fixpoint all_ascii (s : string) : bool :=
  match s with
  | EmptyString => true
  | String c s' => (N_of_ascii c <? 128)%N && all_ascii s'
  end.

(** Values whose [str()] is ASCII whatever they hold: [None], booleans,
    integers and ASCII strings.  For the others the standard output
    decides. *)
Definition plain (v : pyval) : bool :=
  match v with
  | PNone | PBool _ | PInt _ => true
  | PStr s => all_ascii s
  | PList _ | PDict _ => false
  end.

(** ** Configuration *)

Record github_cfg : Type := {
  gh_repo : string;
  gh_access_token : string
}.

Record gitlab_cfg : Type := {
  gl_host : string;
  gl_repo : string;
  gl_access_token : string;
  job_descriptions : option (gmap string string)
}.

Record repo_cfg : Type := {
  cfg_github : github_cfg;
  cfg_gitlab : gitlab_cfg;
  cfg_path : string
}.

Record config_t : Type := {
  repos : list (string * repo_cfg)
}.

Definition github_url (repo_config : repo_cfg) : string :=
  "https://github.com/" +:+ gh_repo (cfg_github repo_config).

Definition gitlab_url (repo_config : repo_cfg) : string :=
  let c := cfg_gitlab repo_config in
  "https://oauth2:" +:+ gl_access_token c +:+ "@" +:+ gl_host c +:+ "/" +:+ gl_repo c.

(** ** Events, the outside world, coroutines *)

Inductive queue_id : Type := GitQueue | GitlabQueue.

(** A queue item is the triple the handlers put: configuration, event kind,
    payload. *)
Definition item : Type := repo_cfg * string * pyval.

Inductive event : Type :=
| EvPrint (args : list pyval)
| EvExec (argv : list string) (cwd : option string)
| EvHttp (method url : string) (headers : list (string * string))
         (data : option string)
| EvPut (q : queue_id) (it : item)
| EvGet (q : queue_id) (it : item).

Inductive proc_result : Type :=
| Exit (returncode : Z)
| SpawnError.

(** A request is answered with a status and a text, or the client raises
    before the text of an answer is there. *)
Inductive http_result : Type :=
| Resp (status : Z) (text : string)
| NetError.

(** The outside world answers a subprocess or a request knowing the
    subprocesses and requests before it ([io] of the events so far); it sees
    neither the queues nor what was printed.  [writable v] tells whether the
    encoding of the standard output can write [str(v)]. *)
Definition is_io (ev : event) : bool :=
  match ev with
  | EvExec _ _ | EvHttp _ _ _ _ => true
  | _ => false
  end.

Definition io (t : list event) : list event := List.filter is_io t.

Record world : Type := {
  spawn : list event → list string → option string → proc_result;
  fetch : list event → string → string → list (string * string) →
          option string → http_result;
  writable : pyval → bool
}.

Definition can_print (w : world) (v : pyval) : bool := plain v || writable w v.

Inductive outcome (A : Type) : Type :=
| Done (a : A)
| Raised (e : exn)
| Waiting.
Arguments Done {A} a.
Arguments Raised {A} e.
Arguments Waiting {A}.

Definition M (A : Type) : Type :=
  world → list event → list event * outcome A.

Definition ret {A} (a : A) : M A := λ _ _, ([], Done a).

Definition bind {A B} (m : M A) (f : A → M B) : M B :=
  λ w h,
    match m w h with
    | (t1, Done a) => let '(t2, r) := f a w (h ++ t1) in (t1 ++ t2, r)
    | (t1, Raised e) => (t1, Raised e)
    | (t1, Waiting) => (t1, Waiting)
    end.

Definition raise {A} (e : exn) : M A := λ _ _, ([], Raised e).
Definition wait {A} : M A := λ _ _, ([], Waiting).
Definition emit (ev : event) : M unit := λ _ _, ([ev], Done tt).

Definition lift {A} (r : exn + A) : M A :=
  match r with
  | inl e => raise e
  | inr a => ret a
  end.

Declare Scope coro_scope.
Delimit Scope coro_scope with coro.
Notation "x <- m ;; k" := (bind m (λ x, k))
  (at level 100, m at next level, right associativity) : coro_scope.
Notation "m ;; k" := (bind m (λ _, k))
  (at level 100, right associativity) : coro_scope.
Open Scope coro_scope.

(** [print(...)]: [EvPrint args] records the call; the call raises when
    the standard output cannot encode one of the arguments. *)
Definition print (args : list pyval) : M unit :=
  λ w _, ([EvPrint args],
          if forallb (can_print w) args then Done tt
          else Raised UnicodeEncodeError).

Fixpoint for_each {A} (l : list A) (body : A → M unit) : M unit :=
  match l with
  | [] => ret tt
  | x :: l' => body x ;; for_each l' body
  end.

(** The events a coroutine adds and how it ends. *)
Definition trace {A} (m : M A) (w : world) (h : list event) : list event :=
  (m w h).1.
Definition result {A} (m : M A) (w : world) (h : list event) : outcome A :=
  (m w h).2.

(** ** The program *)

Section Server.

Variable L : pylib.
Variable config : config_t.

(** *** Dealing with the git repository *)

(** [run(parts, **kwargs)]: spawn, wait, raise on a non-zero return code. *)
Definition exec (argv : list string) (cwd : option string) : M Z :=
  λ w h, ([EvExec argv cwd],
          match spawn w (io h) argv cwd with
          | Exit c => Done c
          | SpawnError => Raised OSError
          end).

Definition run (parts : list string) (cwd : option string) : M unit :=
  returncode <- exec parts cwd ;;
  if bool_decide (returncode ≠ 0) then raise (Exception "command failed")
  else ret tt.

Definition git_run (cfg : repo_cfg) (parts : list string) : M unit :=
  run ("/usr/bin/git" :: parts) (Some (cfg_path cfg)).

(** pull all refs from github, push them to gitlab *)
Definition git_pull_push (cfg : repo_cfg) : M unit :=
  git_run cfg ["remote"; "update"; "-p"] ;;
  git_run cfg ["show-ref"] ;;
  git_run cfg ["push"; "--mirror"; gitlab_url cfg].

(** clone the repository from github and pull-push once *)
Definition init_git (cfg : repo_cfg) : M unit :=
  print [PStr "Initializing local git repo"] ;;
  run ["/usr/bin/git"; "clone"; "--bare"; "--mirror"; github_url cfg;
       cfg_path cfg] None ;;
  git_run cfg ["config"; "--add"; "remote.origin.fetch"; "+refs/*:refs/*"] ;;
  git_run cfg ["config"; "--add"; "remote.origin.fetch";
               "+refs/pull/*:refs/heads/pull/*"] ;;
  git_pull_push cfg.

(** The [while True] loop of [git_task], over the items [git_queue.get()]
    hands out; once they are used up the coroutine stays suspended. *)
Fixpoint git_loop (feed : list item) : M unit :=
  match feed with
  | [] => wait
  | it :: feed' =>
      emit (EvGet GitQueue it) ;;
      let '(cfg, _, op) := it in
      print [PStr "Git Task: initiating push-pull"] ;;
      git_pull_push cfg ;;
      git_loop feed'
  end.

Definition git_bootstrap : M unit :=
  for_each (repos config) (λ '(n, cfg), init_git cfg).

Definition git_task (feed : list item) : M unit :=
  git_bootstrap ;;
  git_loop feed.

(** *** Dealing with the github API *)

(** The loop that appends the query arguments to a URL. *)
Fixpoint add_args (url : string) (first : bool)
    (args : list (string * string)) : string :=
  match args with
  | [] => url
  | (k, v) :: args' =>
      add_args ((url +:+ (if negb first then "&" else "?")) +:+ (k +:+ "=" +:+ v))
               false args'
  end.

(** [http_client.get] and [http_client.post], then [resp.text()]. *)
Definition http_client (method url : string) (hs : list (string * string))
    (data : option string) : M (Z * string) :=
  λ w h, ([EvHttp method url hs data],
          match fetch w (io h) method url hs data with
          | Resp status text => Done (status, text)
          | NetError => Raised ClientError
          end).

Definition loads (text : string) : M pyval :=
  match json_loads L text with
  | Some v => ret v
  | None => raise JSONDecodeError
  end.

Definition github_post (cfg : repo_cfg) (ep : string) (data : pyval)
    (args : list (string * string)) : M pyval :=
  let url := "https://api.github.com/repos/" +:+ gh_repo (cfg_github cfg)
             +:+ "/" +:+ ep in
  let url := add_args url true args in
  print [PStr "Invoking github API:"; PStr url] ;;
  let hs := [("Accept", "application/vnd.github+json");
             ("Authorization", "Bearer " +:+ gh_access_token (cfg_github cfg));
             ("X-GitHub-Api-Version", "2022-11-28")] in
  resp <- http_client "post" url hs (Some (json_dumps L data)) ;;
  let '(status, text) := resp in
  if bool_decide (status ≠ 200) && bool_decide (status ≠ 201) then
    print [PStr text] ;;
    print [PInt status] ;;
    raise (Exception "github API call failed")
  else loads text.

(** The body of a commit status, in the order the dictionary is built. *)
Definition status_data (status : string) (url : pyval) (desc context : string)
    : pyval :=
  PDict [("state", PStr status); ("target_url", url);
         ("description", PStr desc); ("context", PStr context)].

(** ['statuses/' + commit] needs [commit] to be a string. *)
Definition github_commit_status_set (cfg : repo_cfg) (commit : pyval)
    (context status desc : string) (url : pyval) : M unit :=
  let data := status_data status url desc context in
  match commit with
  | PStr c => github_post cfg ("statuses/" +:+ c) data [] ;; ret tt
  | _ => raise TypeError
  end.

(** *** Dealing with the gitlab API *)

Definition gitlab_get (cfg : repo_cfg) (ep : string) (method : string)
    (args : list (string * string)) : M pyval :=
  let proj := quote L (gl_repo (cfg_gitlab cfg)) in
  let url := "https://" +:+ gl_host (cfg_gitlab cfg) +:+ "/api/v4/projects/"
             +:+ proj +:+ "/" +:+ ep in
  let url := add_args url true args in
  print [PStr "Invoking gitlab API:"; PStr url] ;;
  let hs := [("PRIVATE-TOKEN", gl_access_token (cfg_gitlab cfg))] in
  resp <- (if bool_decide (method = "get") then http_client "get" url hs None
           else if bool_decide (method = "post") then http_client "post" url hs None
           else raise (Exception "unsupported method")) ;;
  let '(status, text) := resp in
  if bool_decide (status ≠ 200) then
    print [PStr text] ;;
    raise (Exception "gitlab API call failed")
  else loads text.

(** The [if]/[elif] chain at the head of [commit_status_set]: the github
    state for a gitlab status, [None] on the [else] branch. *)
Definition gh_status_of (status : pyval) : option string :=
  if py_eq_str status "success" then Some "success"
  else if py_eq_str status "pending" || py_eq_str status "created"
          || py_eq_str status "running" then Some "pending"
  else if py_eq_str status "failed" then Some "failure"
  else None.

(** The description of a job: the default, replaced by the configured one
    where [job_descriptions] is present and has the job. *)
Definition description_of (cfg : repo_cfg) (test : string) : string :=
  let description := "Gitlab " +:+ test in
  match job_descriptions (cfg_gitlab cfg) with
  | Some descs => default description (descs !! test)
  | None => description
  end.

(** A [test] that is not a string makes ['gitlab/' + test] raise (and an
    unhashable one already the [.get]); nothing is printed or sent before. *)
Definition commit_status_set (cfg : repo_cfg) (commit test status url : pyval)
    : M unit :=
  match gh_status_of status with
  | None => print [PStr "Unknown status not updating:"; status]
  | Some gh_status =>
      match test with
      | PStr t =>
          github_commit_status_set cfg commit ("gitlab/" +:+ t) gh_status
            (description_of cfg t) url
      | _ => raise TypeError
      end
  end.

(** fetch the most recent pipelines *)
Definition init_statuses (cfg : repo_cfg) : M unit :=
  print [PStr "initializing commit statuses"] ;;
  pls <- gitlab_get cfg "pipelines" "get"
           [("pagination", "keyset"); ("order_by", "updated_at");
            ("sort", "desc"); ("per_page", "5")] ;;
  pls <- lift (py_iter pls) ;;
  for_each pls (λ pl,
    plid <- lift (py_getitem pl "id") ;;
    jobs <- gitlab_get cfg ("pipelines/" +:+ py_str L plid +:+ "/jobs") "get"
              [("per_page", "100")] ;;
    jobs <- lift (py_iter jobs) ;;
    for_each jobs (λ j,
      c <- lift (py_getitem j "commit") ;;
      commit <- lift (py_getitem c "id") ;;
      name <- lift (py_getitem j "name") ;;
      status <- lift (py_getitem j "status") ;;
      web_url <- lift (py_getitem j "web_url") ;;
      commit_status_set cfg commit name status web_url)) ;;
  print [PStr "Commit statuses initialized"].

Definition gitlab_update_pipeline (cfg : repo_cfg) (event : pyval) : M unit :=
  c <- lift (py_getitem event "commit") ;;
  cid <- lift (py_getitem c "id") ;;
  builds <- lift (py_getitem event "builds") ;;
  builds <- lift (py_iter builds) ;;
  for_each builds (λ j,
    jid <- lift (py_getitem j "id") ;;
    let url := PStr ("https://" +:+ gl_host (cfg_gitlab cfg) +:+ "/"
                     +:+ gl_repo (cfg_gitlab cfg) +:+ "/-/jobs/"
                     +:+ py_str L jid) in
    name <- lift (py_getitem j "name") ;;
    status <- lift (py_getitem j "status") ;;
    commit_status_set cfg cid name status url).

(** The [while True] loop of [gitlab_task], over the items
    [gitlab_queue.get()] hands out. *)
Fixpoint gitlab_loop (feed : list item) : M unit :=
  match feed with
  | [] => wait
  | it :: feed' =>
      emit (EvGet GitlabQueue it) ;;
      let '(cfg, t, ev) := it in
      print [PStr "GitLab Task: processing event"; PStr t] ;;
      (if bool_decide (t = "Pipeline Hook") then gitlab_update_pipeline cfg ev
       else raise (Exception "Unknown event type")) ;;
      gitlab_loop feed'
  end.

Definition gitlab_bootstrap : M unit :=
  for_each (repos config) (λ '(n, cfg), init_statuses cfg).

Definition gitlab_task (feed : list item) : M unit :=
  gitlab_bootstrap ;;
  gitlab_loop feed.

(** *** REST API *)

(** An inbound request: the [{repo}] part of the path, the headers, the
    raw body. *)
Record web_request : Type := {
  match_info_repo : string;
  headers : list (string * string);
  body : string
}.

Definition lower_ascii (c : ascii) : ascii :=
  let n := N_of_ascii c in
  if ((65 <=? n) && (n <=? 90))%N then ascii_of_N (n + 32) else c.

Fixpoint lower (s : string) : string :=
  match s with
  | EmptyString => EmptyString
  | String c s' => String (lower_ascii c) (lower s')
  end.

(** [request.headers[name]]: header names compare without case; the first
    header of that name is the one returned. *)
Fixpoint header (hs : list (string * string)) (name : string) : exn + string :=
  match hs with
  | [] => inl (KeyError name)
  | (k, v) :: hs' =>
      if bool_decide (lower k = lower name) then inr v else header hs' name
  end.

(** [config['repos'][name]] *)
Definition repo_lookup (name : string) : exn + repo_cfg :=
  match assoc name (repos config) with
  | Some cfg => inr cfg
  | None => inl (KeyError name)
  end.

(** [await request.json()]: the text of the body, then [json.loads]. *)
Definition request_json (request : web_request) : M pyval :=
  text <- lift (request_text L (headers request) (body request)) ;;
  loads text.

Definition github (request : web_request) : M string :=
  repo_cfg <- lift (repo_lookup (match_info_repo request)) ;;
  ev <- lift (header (headers request) "x-github-event") ;;
  x <- request_json request ;;
  (if bool_decide (ev = "push") then
     print [PStr "Handling github push event..."] ;;
     emit (EvPut GitQueue (repo_cfg, "push", x))
   else if bool_decide (ev = "pull_request") then
     print [PStr "Handling github pull request event..."] ;;
     emit (EvPut GitQueue (repo_cfg, "push", x))
   else
     print [PStr "Ignoring unknown github event"; PStr ev]) ;;
  ret "OK".

Definition gitlab (request : web_request) : M string :=
  repo_cfg <- lift (repo_lookup (match_info_repo request)) ;;
  ev <- lift (header (headers request) "x-gitlab-event") ;;
  x <- request_json request ;;
  (if bool_decide (ev = "Pipeline Hook") then
     print [PStr "Handling gitlab pipeline event..."] ;;
     emit (EvPut GitlabQueue (repo_cfg, ev, x))
   else
     print [PStr "Ignoring unknown gitlab event"; PStr ev]) ;;
  ret "OK".

End Server.

(** ** Observations on traces *)

Definition is_post (ev : event) : bool :=
  match ev with
  | EvHttp method _ _ _ => bool_decide (method = "post")
  | _ => false
  end.

Definition is_http (ev : event) : bool :=
  match ev with
  | EvHttp _ _ _ _ => true
  | _ => false
  end.

Definition is_exec (ev : event) : bool :=
  match ev with
  | EvExec _ _ => true
  | _ => false
  end.

Definition is_put (ev : event) : bool :=
  match ev with
  | EvPut _ _ => true
  | _ => false
  end.

Definition is_get (ev : event) : bool :=
  match ev with
  | EvGet _ _ => true
  | _ => false
  end.

(** The commit status updates sent: every POST of the server is one. *)
Definition updates (t : list event) : list event := List.filter is_post t.
Definition puts (t : list event) : list event := List.filter is_put t.
Definition gets (t : list event) : list event := List.filter is_get t.
Definition execs (t : list event) : list event := List.filter is_exec t.

(** The statuses [commit_status_set] maps, as the specification lists them. *)
Definition recognized : list string :=
  ["success"; "pending"; "created"; "running"; "failed"].

(** The URL and headers of a github API call without query arguments. *)
Definition github_api_url (cfg : repo_cfg) (ep : string) : string :=
  "https://api.github.com/repos/" +:+ gh_repo (cfg_github cfg) +:+ "/" +:+ ep.

Definition github_api_headers (cfg : repo_cfg) : list (string * string) :=
  [("Accept", "application/vnd.github+json");
   ("Authorization", "Bearer " +:+ gh_access_token (cfg_github cfg));
   ("X-GitHub-Api-Version", "2022-11-28")].

(** The one request a commit status update makes. *)
Definition update_request (L : pylib) (cfg : repo_cfg) (commit : string)
    (data : pyval) : event :=
  EvHttp "post" (github_api_url cfg ("statuses/" +:+ commit))
    (github_api_headers cfg) (Some (json_dumps L data)).

Definition unknown_status_log (status : pyval) : event :=
  EvPrint [PStr "Unknown status not updating:"; status].

(** A job of a pipeline event that has the fields the worker reads and a
    status outside the recognized ones. *)
Definition unrecognized_job (j : pyval) : Prop :=
  ∃ jid name status,
    py_getitem j "id" = inr jid ∧ py_getitem j "name" = inr name ∧
    py_getitem j "status" = inr status ∧ status ∉ PStr <$> recognized.

(** A pipeline event all of whose jobs are such jobs. *)
Definition unrecognized_event (ev : pyval) : Prop :=
  ∃ c cid builds js,
    py_getitem ev "commit" = inr c ∧ py_getitem c "id" = inr cid ∧
    py_getitem ev "builds" = inr builds ∧ py_iter builds = inr js ∧
    Forall unrecognized_job js.

(** The requests of the backfill, with the URL as [gitlab_get] builds it. *)
Definition gitlab_api_url (L : pylib) (cfg : repo_cfg) (ep : string) : string :=
  "https://" +:+ gl_host (cfg_gitlab cfg) +:+ "/api/v4/projects/"
  +:+ quote L (gl_repo (cfg_gitlab cfg)) +:+ "/" +:+ ep.

Definition gitlab_api_headers (cfg : repo_cfg) : list (string * string) :=
  [("PRIVATE-TOKEN", gl_access_token (cfg_gitlab cfg))].

Definition pipelines_url (L : pylib) (cfg : repo_cfg) : string :=
  add_args (gitlab_api_url L cfg "pipelines") true
    [("pagination", "keyset"); ("order_by", "updated_at"); ("sort", "desc");
     ("per_page", "5")].

Definition jobs_url (L : pylib) (cfg : repo_cfg) (plid : pyval) : string :=
  add_args (gitlab_api_url L cfg ("pipelines/" +:+ py_str L plid +:+ "/jobs"))
    true [("per_page", "100")].

(** The world can answer a GET of [url] with a document that lists [l]. *)
Definition listed (L : pylib) (w : world) (url : string)
    (hs : list (string * string)) (l : list pyval) : Prop :=
  ∃ h text v,
    fetch w h "get" url hs None = Resp 200 text ∧
    json_loads L text = Some v ∧ py_iter v = inr l.

(** ** Properties of coroutines *)

(** Every event a coroutine adds satisfies [P] and every exception it
    raises satisfies [Q], whatever the world and the events before. *)
Definition only {A} (P : event → Prop) (Q : exn → Prop) (m : M A) : Prop :=
  ∀ w h, Forall P (trace m w h) ∧ ∀ e, result m w h = Raised e → Q e.

(** A coroutine that looks at the events before it only through the world,
    hence only at the subprocesses and requests among them. *)
Definition respects {A} (m : M A) : Prop :=
  ∀ w h h', io h = io h' → m w h = m w h'.

Definition not_queue (ev : event) : Prop :=
  is_get ev = false ∧ is_put ev = false.

Definition not_unknown_event (e : exn) : Prop :=
  e ≠ Exception "Unknown event type".

(** The two webhook endpoints. *)
Inductive endpoint : Type := GithubHook | GitlabHook.

Definition handle (L : pylib) (config : config_t) (ep : endpoint)
    : web_request → M string :=
  match ep with
  | GithubHook => github L config
  | GitlabHook => gitlab L config
  end.

(** An item some call of an endpoint puts on queue [q]. *)
Definition enqueued_by_dispatch (L : pylib) (config : config_t)
    (q : queue_id) (it : item) : Prop :=
  ∃ ep request w h, EvPut q it ∈ trace (handle L config ep request) w h.

(** ** Requests on the dispatch interface *)

(** A request that names the repository [cfg] and carries the event kind
    [ev] in the header [name] and the payload [x]. *)
Definition carries (L : pylib) (config : config_t) (request : web_request)
    (name : string) (cfg : repo_cfg) (ev : string) (x : pyval) : Prop :=
  assoc (match_info_repo request) (repos config) = Some cfg ∧
  header (headers request) name = inr ev ∧
  ∃ text, request_text L (headers request) (body request) = inr text ∧
          json_loads L text = Some x.

(** The event kinds an endpoint routes to a queue. *)
Definition routed (ep : endpoint) (ev : string) : bool :=
  match ep with
  | GithubHook => bool_decide (ev = "push") || bool_decide (ev = "pull_request")
  | GitlabHook => bool_decide (ev = "Pipeline Hook")
  end.

Definition event_header (ep : endpoint) : string :=
  match ep with
  | GithubHook => "x-github-event"
  | GitlabHook => "x-gitlab-event"
  end.

(** ** Isolation between repositories, as the specification states it *)

(** The items the git worker took from its queue. *)
Definition dequeued (t : list event) : list item :=
  omap (λ ev, match ev with
              | EvGet GitQueue it => Some it
              | _ => None
              end) t.

(** The subprocesses that work on the mirror of [cfg]: the clone into its
    path and every git command run inside it. *)
Definition own_command (cfg : repo_cfg) (argv : list string)
    (cwd : option string) : Prop :=
  cwd = Some (cfg_path cfg) ∨
  (cwd = None ∧
   argv = ["/usr/bin/git"; "clone"; "--bare"; "--mirror"; github_url cfg;
           cfg_path cfg]).

Definition never_fails_for (w : world) (cfg : repo_cfg) : Prop :=
  ∀ h argv cwd, own_command cfg argv cwd → spawn w h argv cwd = Exit 0.

(** "A failure while processing repository A's work does not prevent
    repository B's work from being processed": a queued mirror task of a
    repository whose own git commands never fail is taken from the queue,
    whatever happens to the other repositories. *)
Definition mirror_isolation (config : config_t) : Prop :=
  ∀ w feed it,
    it ∈ feed → never_fails_for w it.1.1 →
    it ∈ dequeued (trace (git_task config feed) w []).

(** ** Sample inputs *)

Module Sample.

Definition job (n : Z) (name status : string) : pyval :=
  PDict [("id", PInt n); ("name", PStr name); ("status", PStr status);
         ("web_url", PStr "https://gitlab.example/job");
         ("commit", PDict [("id", PStr "c0ffee")])].

Definition three_jobs : pyval :=
  PList [job 1 "build" "success"; job 2 "lint" "skipped";
         job 3 "unit-tests" "running"].

Definition five_pipelines : pyval :=
  PList ((λ n, PDict [("id", PInt n)]) <$> [1; 2; 3; 4; 5]).

Definition pipeline_event : pyval :=
  PDict [("commit", PDict [("id", PStr "c0ffee")]);
         ("builds", three_jobs)].

(** An event whose jobs all have a status the server does not know. *)
Definition skipped_event : pyval :=
  PDict [("commit", PDict [("id", PStr "c0ffee")]);
         ("builds", PList [job 2 "lint" "skipped"; job 4 "docs" "manual"])].

(** A stand-in for the library: three texts and the empty object parse,
    integers up to 5 and strings print. *)
Definition lib : pylib := {|
  json_loads := λ s,
    if bool_decide (s = "PIPELINES") then Some five_pipelines
    else if bool_decide (s = "JOBS") then Some three_jobs
    else if bool_decide (s = "EVENT") then Some pipeline_event
    else if bool_decide (s = "{}") then Some (PDict [])
    else None;
  json_dumps := λ v,
    match v with
    | PDict (("state", PStr s) :: _ :: ("description", PStr d) :: _) =>
        s +:+ "|" +:+ d
    | _ => "?"
    end;
  py_str := λ v,
    match v with
    | PInt 1 => "1" | PInt 2 => "2" | PInt 3 => "3" | PInt 4 => "4"
    | PInt 5 => "5" | PStr s => s | _ => "?"
    end;
  quote := λ s, s;
  request_text := λ _ raw, inr raw
|}.

Definition cfg_a : repo_cfg := {|
  cfg_github := {| gh_repo := "org/a"; gh_access_token := "gh-token" |};
  cfg_gitlab := {| gl_host := "gitlab.example"; gl_repo := "a";
                   gl_access_token := "gl-token";
                   job_descriptions := Some {[ "unit-tests" := "Unit Tests" ]} |};
  cfg_path := "/srv/a"
|}.

Definition cfg_b : repo_cfg := {|
  cfg_github := {| gh_repo := "org/b"; gh_access_token := "gh-token" |};
  cfg_gitlab := {| gl_host := "gitlab.example"; gl_repo := "b";
                   gl_access_token := "gl-token";
                   job_descriptions := None |};
  cfg_path := "/srv/b"
|}.

Definition config : config_t := {| repos := [("a", cfg_a); ("b", cfg_b)] |}.

(** A world where everything succeeds: five pipelines of three jobs each. *)
Definition good : world := {|
  spawn := λ _ _ _, Exit 0;
  fetch := λ _ method url _ _,
    if bool_decide (method = "post") then Resp 201 "{}"
    else if bool_decide (url = pipelines_url lib cfg_a)
            || bool_decide (url = pipelines_url lib cfg_b)
    then Resp 200 "PIPELINES"
    else Resp 200 "JOBS";
  writable := λ _, true
|}.

(** A world where, once both repositories are cloned and pushed (twelve
    subprocesses), every git command in the mirror of repository a fails. *)
Definition a_broken : world := {|
  spawn := λ h _ cwd,
    if bool_decide (cwd = Some "/srv/a") && bool_decide (12 ≤ List.length h)%nat
    then Exit 1 else Exit 0;
  fetch := fetch good;
  writable := writable good
|}.

Definition push_a : item := (cfg_a, "push", PDict []).
Definition push_b : item := (cfg_b, "push", PDict []).

Definition hook_a : item := (cfg_a, "Pipeline Hook", pipeline_event).

Definition web (repo : string) (hs : list (string * string)) (text : string)
    : web_request :=
  {| match_info_repo := repo; headers := hs; body := text |}.

End Sample.

(** ** Further observations *)

(** The query string the argument loop of [github_post] and [gitlab_get]
    appends: '?' before the first argument, '&' before the others, key and
    value joined by '=' as they are. *)
Fixpoint query_string (first : bool) (args : list (string * string)) : string :=
  match args with
  | [] => ""
  | (k, v) :: args' =>
      (if first then "?" else "&") +:+ k +:+ "=" +:+ v
      +:+ query_string false args'
  end.

(** A subprocess as [run] starts it, and its event. *)
Definition command : Type := list string * option string.

Definition started (c : command) : event := EvExec c.1 c.2.

Definition git (cfg : repo_cfg) (parts : list string) : command :=
  ("/usr/bin/git" :: parts, Some (cfg_path cfg)).

Definition pull_push_commands (cfg : repo_cfg) : list command :=
  [git cfg ["remote"; "update"; "-p"];
   git cfg ["show-ref"];
   git cfg ["push"; "--mirror"; gitlab_url cfg]].

Definition clone_command (cfg : repo_cfg) : command :=
  (["/usr/bin/git"; "clone"; "--bare"; "--mirror"; github_url cfg;
    cfg_path cfg], None).

Definition init_git_commands (cfg : repo_cfg) : list command :=
  clone_command cfg
  :: git cfg ["config"; "--add"; "remote.origin.fetch"; "+refs/*:refs/*"]
  :: git cfg ["config"; "--add"; "remote.origin.fetch";
              "+refs/pull/*:refs/heads/pull/*"]
  :: pull_push_commands cfg.

(** Commands run one after the other, as the bodies of [git_pull_push] and
    [init_git] run them. *)
Definition run_all (cmds : list command) : M unit :=
  for_each cmds (λ c, run c.1 c.2).

Definition always_exits_zero (w : world) : Prop :=
  ∀ h argv cwd, spawn w h argv cwd = Exit 0.

Definition same_queue (q q' : queue_id) : bool :=
  match q, q' with
  | GitQueue, GitQueue | GitlabQueue, GitlabQueue => true
  | _, _ => false
  end.

(** The items taken from queue [q], in the order they were taken. *)
Definition taken (q : queue_id) (t : list event) : list item :=
  omap (λ ev, match ev with
              | EvGet q' it => if same_queue q q' then Some it else None
              | _ => None
              end) t.

(** What the git worker adds for one queue item when git succeeds. *)
Definition mirror_events (it : item) : list event :=
  EvGet GitQueue it
  :: EvPrint [PStr "Git Task: initiating push-pull"]
  :: (started <$> pull_push_commands it.1.1).

(** What the git worker adds for one repository at startup when git
    succeeds. *)
Definition init_git_events (cfg : repo_cfg) : list event :=
  EvPrint [PStr "Initializing local git repo"]
  :: (started <$> init_git_commands cfg).

(** A coroutine that is never left waiting on a queue. *)
Definition settles {A} (m : M A) : Prop := ∀ w h, result m w h ≠ Waiting.

(** The events and exceptions of the git worker. *)
Definition git_event (ev : event) : Prop :=
  match ev with
  | EvPrint _ => True
  | EvExec argv _ => ∃ parts, argv = "/usr/bin/git" :: parts
  | EvGet GitQueue _ => True
  | _ => False
  end.

Definition git_exn (e : exn) : Prop :=
  e = OSError ∨ e = Exception "command failed".

(** The events of the status relay for repository [cfg]: prints, GETs of
    the gitlab API of the repository with its gitlab token and no body,
    POSTs of commit statuses of the repository with its github token. *)
Definition addressed (L : pylib) (cfg : repo_cfg) (ev : event) : Prop :=
  match ev with
  | EvPrint _ => True
  | EvHttp method url hs data =>
      (method = "get" ∧ hs = gitlab_api_headers cfg ∧ data = None ∧
       ∃ ep args, url = add_args (gitlab_api_url L cfg ep) true args) ∨
      (method = "post" ∧ hs = github_api_headers cfg ∧
       ∃ commit data', url = github_api_url cfg ("statuses/" +:+ commit) ∧
                       data = Some (json_dumps L data'))
  | _ => False
  end.

Definition relay_exn (e : exn) : Prop :=
  (∃ k, e = KeyError k) ∨ e = TypeError ∨ e = JSONDecodeError ∨
  e = UnicodeEncodeError ∨ e = ClientError ∨
  e = Exception "github API call failed" ∨
  e = Exception "gitlab API call failed".

(** A standard output that writes every value printed. *)
Definition prints_all (w : world) : Prop := ∀ v, can_print w v = true.

(** How [run] ends on the exit of a subprocess: nothing raised on 0. *)
Definition failure (r : proc_result) : option exn :=
  match r with
  | Exit c => if bool_decide (c ≠ 0) then Some (Exception "command failed")
              else None
  | SpawnError => Some OSError
  end.

(** An answer on which the API call of the server raises: no answer, a
    status code other than 200 (or 201 for a POST), a text that does not
    parse. *)
Definition failed_answer (L : pylib) (method : string) (a : http_result)
    : Prop :=
  match a with
  | Resp code text =>
      (if bool_decide (method = "post") then code ≠ 200 ∧ code ≠ 201
       else code ≠ 200) ∨
      json_loads L text = None
  | NetError => True
  end.

(** An input or output that failed: a subprocess that did not exit with 0,
    a request with a failed answer, given the events before it. *)
Definition failed (L : pylib) (w : world) (before : list event) (ev : event)
    : Prop :=
  match ev with
  | EvExec argv cwd => spawn w (io before) argv cwd ≠ Exit 0
  | EvHttp method url hs data =>
      failed_answer L method (fetch w (io before) method url hs data)
  | _ => False
  end.

(** A coroutine that stops at the first failed input or output: it raises,
    and after the failed event it starts no subprocess, makes no request and
    takes nothing from a queue. *)
Definition fail_fast (L : pylib) {A} (m : M A) : Prop :=
  ∀ w h i ev,
    trace m w h !! i = Some ev →
    failed L w (h ++ take i (trace m w h)) ev →
    (∃ e, result m w h = Raised e) ∧
    ∀ j ev', (i < j)%nat → trace m w h !! j = Some ev' →
             is_io ev' = false ∧ is_get ev' = false.

(** A worker that stops at the first failed input or output, whatever is
    queued: it raises, after the failed event it starts no subprocess, makes
    no request and takes nothing from its queue, and what is queued behind
    the items it was given changes nothing. *)
Definition stops_at_failure (L : pylib) (task : list item → M unit) : Prop :=
  ∀ feed behind w h i ev,
    trace (task feed) w h !! i = Some ev →
    failed L w (h ++ take i (trace (task feed) w h)) ev →
    (∃ e, result (task feed) w h = Raised e) ∧
    (∀ j ev', (i < j)%nat → trace (task feed) w h !! j = Some ev' →
              is_io ev' = false ∧ is_get ev' = false) ∧
    task (feed ++ behind) w h = task feed w h.

(** A world where github accepts every status: each POST is answered 200
    or 201 with a text that parses. *)
Definition posts_accepted (L : pylib) (w : world) : Prop :=
  ∀ h url hs data,
    ∃ code text v,
      fetch w h "post" url hs data = Resp code text ∧
      (code = 200 ∨ code = 201) ∧ json_loads L text = Some v.

(** The page of a job, as [gitlab_update_pipeline] builds it. *)
Definition job_page (L : pylib) (cfg : repo_cfg) (jid : pyval) : string :=
  "https://" +:+ gl_host (cfg_gitlab cfg) +:+ "/" +:+ gl_repo (cfg_gitlab cfg)
  +:+ "/-/jobs/" +:+ py_str L jid.

(** A job of a pipeline event with the fields the worker reads and a name
    that is a string. *)
Definition well_formed_job (j : pyval) : Prop :=
  ∃ jid name status,
    py_getitem j "id" = inr jid ∧ py_getitem j "name" = inr (PStr name) ∧
    py_getitem j "status" = inr status.

(** The update expected for a job of a pipeline event on commit [cid]: one
    for a recognized status, none otherwise. *)
Definition job_update (L : pylib) (cfg : repo_cfg) (cid : string) (j : pyval)
    : list event :=
  match py_getitem j "id", py_getitem j "name", py_getitem j "status" with
  | inr jid, inr (PStr name), inr status =>
      match gh_status_of status with
      | Some g =>
          [update_request L cfg cid
             (status_data g (PStr (job_page L cfg jid)) (description_of cfg name)
                ("gitlab/" +:+ name))]
      | None => []
      end
  | _, _, _ => []
  end.

(** A pipeline event with a commit id that is a string and well-formed
    jobs. *)
Definition well_formed_event (ev : pyval) (cid : string) (js : list pyval)
    : Prop :=
  ∃ c builds,
    py_getitem ev "commit" = inr c ∧ py_getitem c "id" = inr (PStr cid) ∧
    py_getitem ev "builds" = inr builds ∧ py_iter builds = inr js ∧
    Forall well_formed_job js.

(** The updates expected for a queue item of the status worker. *)
Definition item_updates (L : pylib) (it : item) : list event :=
  match py_getitem it.2 "commit" with
  | inr c =>
      match py_getitem c "id", py_getitem it.2 "builds" with
      | inr (PStr cid), inr builds =>
          match py_iter builds with
          | inr js => List.concat (job_update L it.1.1 cid <$> js)
          | inl _ => []
          end
      | _, _ => []
      end
  | inl _ => []
  end.

(** ** What the backfill is expected to request *)

(** The world answers every GET of [url] with a document that lists [l]. *)
Definition answers (L : pylib) (w : world) (url : string)
    (hs : list (string * string)) (l : list pyval) : Prop :=
  ∀ h, ∃ text v,
    fetch w h "get" url hs None = Resp 200 text ∧
    json_loads L text = Some v ∧ py_iter v = inr l.

(** A job of a jobs list with the fields the backfill reads, a commit id
    and a name that are strings. *)
Definition backfill_job (j : pyval) : Prop :=
  ∃ c commit name status url,
    py_getitem j "commit" = inr c ∧ py_getitem c "id" = inr (PStr commit) ∧
    py_getitem j "name" = inr (PStr name) ∧
    py_getitem j "status" = inr status ∧ py_getitem j "web_url" = inr url.

(** The update expected for a job of the backfill: one for a recognized
    status, none otherwise. *)
Definition backfill_update (L : pylib) (cfg : repo_cfg) (j : pyval)
    : list event :=
  match py_getitem j "commit" with
  | inr c =>
      match py_getitem c "id", py_getitem j "name", py_getitem j "status",
            py_getitem j "web_url" with
      | inr (PStr commit), inr (PStr name), inr status, inr url =>
          match gh_status_of status with
          | Some g =>
              [update_request L cfg commit
                 (status_data g url (description_of cfg name)
                    ("gitlab/" +:+ name))]
          | None => []
          end
      | _, _, _, _ => []
      end
  | inl _ => []
  end.

Definition jobs_request (L : pylib) (cfg : repo_cfg) (plid : pyval) : event :=
  EvHttp "get" (jobs_url L cfg plid) (gitlab_api_headers cfg) None.

(** The requests expected for a pipeline whose jobs query lists [jobs]:
    the query, then the updates of the jobs in order. *)
Definition pipeline_requests (L : pylib) (cfg : repo_cfg) (pl : pyval)
    (jobs : list pyval) : list event :=
  match py_getitem pl "id" with
  | inr plid =>
      jobs_request L cfg plid :: List.concat (backfill_update L cfg <$> jobs)
  | inl _ => []
  end.

(** The requests and prints of the backfill of [cfg]: the pipelines query,
    a jobs query of some pipeline, a commit status update. *)
Definition backfill_event (L : pylib) (cfg : repo_cfg) (ev : event) : Prop :=
  match ev with
  | EvPrint _ => True
  | EvHttp _ _ _ _ =>
      ev = EvHttp "get" (pipelines_url L cfg) (gitlab_api_headers cfg) None ∨
      (∃ plid, ev = jobs_request L cfg plid) ∨
      (∃ commit data, ev = update_request L cfg commit data)
  | _ => False
  end.

(** A further page of the jobs of a pipeline, as the gitlab API numbers
    them. *)
Definition jobs_page_url (L : pylib) (cfg : repo_cfg) (plid : pyval)
    (page : string) : string :=
  add_args (gitlab_api_url L cfg ("pipelines/" +:+ py_str L plid +:+ "/jobs"))
    true [("per_page", "100"); ("page", page)].

(** Gitlab lists job [j] for the pipeline [plid], on the page the backfill
    asks for or on a further one. *)
Definition gitlab_lists (L : pylib) (w : world) (cfg : repo_cfg)
    (plid j : pyval) : Prop :=
  ∃ l, j ∈ l ∧
    (listed L w (jobs_url L cfg plid) (gitlab_api_headers cfg) l ∨
     ∃ page, listed L w (jobs_page_url L cfg plid page)
               (gitlab_api_headers cfg) l).

(** "For each pipeline, all of its jobs": every job gitlab lists for a
    pipeline of the answer has its update sent by the backfill. *)
Definition backfill_all_jobs (L : pylib) (cfg : repo_cfg) (w : world) : Prop :=
  ∀ pls pl plid j,
    listed L w (pipelines_url L cfg) (gitlab_api_headers cfg) pls →
    pl ∈ pls → py_getitem pl "id" = inr plid →
    gitlab_lists L w cfg plid j →
    backfill_update L cfg j ⊆ trace (init_statuses L cfg) w [].

(** The URL of a request. *)
Definition url_of (ev : event) : string :=
  match ev with
  | EvHttp _ url _ _ => url
  | _ => ""
  end.

(** ** Further sample inputs *)

Module Scenario.

(** A world where git is broken: every subprocess exits with 128. *)
Definition no_git : world := {|
  spawn := λ _ _ _, Exit 128;
  fetch := fetch Sample.good;
  writable := writable Sample.good
|}.

(** A world where gitlab refuses the push: 'git push' exits with 1, every
    other subprocess with 0. *)
Definition push_refused : world := {|
  spawn := λ _ argv _,
    if bool_decide (argv !! 1%nat = Some "push") then Exit 1 else Exit 0;
  fetch := fetch Sample.good;
  writable := writable Sample.good
|}.

(** A world where github rejects every status with 422. *)
Definition rejecting : world := {|
  spawn := spawn Sample.good;
  fetch := λ h method url hs data,
    if bool_decide (method = "post") then Resp 422 "Unprocessable"
    else fetch Sample.good h method url hs data;
  writable := writable Sample.good
|}.

(** A 'Pipeline Hook' request whose body is the empty object. *)
Definition empty_hook : web_request :=
  Sample.web "a" [("X-Gitlab-Event", "Pipeline Hook")] "{}".

Definition jobs : list pyval :=
  [Sample.job 1 "build" "success"; Sample.job 2 "lint" "skipped";
   Sample.job 3 "unit-tests" "running"].

(** A world where gitlab does not know the project: every GET is answered
    404. *)
Definition no_pipelines : world := {|
  spawn := spawn Sample.good;
  fetch := λ _ _ _ _ _, Resp 404 "{}";
  writable := writable Sample.good
|}.

(** Strings hold the bytes of UTF-8, a surrogate the three bytes of its
    code point: 237, then a byte from 160 to 191, then one more. *)
Fixpoint has_surrogate (s : string) : bool :=
  match s with
  | String a (String b _ as s') =>
      (bool_decide (a = ascii_of_N 237) && (159 <? N_of_ascii b)%N
       && (N_of_ascii b <? 192)%N)
      || has_surrogate s'
  | _ => false
  end.

(** Two strings the standard output cannot write: the lone surrogate
    U+D800, which [json.loads] returns for the escape of that code point,
    and U+DCFF, which stands in a header value for the byte 255 that is
    not UTF-8. *)
Definition surrogate : string :=
  String (ascii_of_N 237) (String (ascii_of_N 160) (String (ascii_of_N 128) "")).

Definition escaped_byte : string :=
  String (ascii_of_N 237) (String (ascii_of_N 179) (String (ascii_of_N 191) "")).

(** The good world with a standard output in UTF-8: everything is written
    but strings with a surrogate. *)
Definition utf8_stdout : world := {|
  spawn := spawn Sample.good;
  fetch := fetch Sample.good;
  writable := λ v,
    match v with
    | PStr s => negb (has_surrogate s)
    | _ => true
    end
|}.

(** One pipeline with 101 jobs: gitlab lists a hundred on the first page
    and the last one, of another commit, on the second. *)
Definition first_page : list pyval :=
  (λ n, Sample.job (Z.of_nat n) "build" "success") <$> seq 1 100.

Definition last_job : pyval :=
  PDict [("id", PInt 101); ("name", PStr "deploy"); ("status", PStr "success");
         ("web_url", PStr "https://gitlab.example/job");
         ("commit", PDict [("id", PStr "c101")])].

Definition paged_lib : pylib := {|
  json_loads := λ s,
    if bool_decide (s = "PIPELINE") then Some (PList [PDict [("id", PInt 1)]])
    else if bool_decide (s = "PAGE 1") then Some (PList first_page)
    else if bool_decide (s = "PAGE 2") then Some (PList [last_job])
    else if bool_decide (s = "{}") then Some (PDict [])
    else None;
  json_dumps := json_dumps Sample.lib;
  py_str := py_str Sample.lib;
  quote := quote Sample.lib;
  request_text := request_text Sample.lib
|}.

Definition paged : world := {|
  spawn := spawn Sample.good;
  fetch := λ _ method url _ _,
    if bool_decide (method = "post") then Resp 201 "{}"
    else if bool_decide (url = pipelines_url paged_lib Sample.cfg_a)
    then Resp 200 "PIPELINE"
    else if bool_decide (url = jobs_page_url paged_lib Sample.cfg_a (PInt 1) "2")
    then Resp 200 "PAGE 2"
    else Resp 200 "PAGE 1";
  writable := writable Sample.good
|}.

(** A pipeline event whose one job has the status U+D800. *)
Definition surrogate_event : pyval :=
  PDict [("commit", PDict [("id", PStr "c0ffee")]);
         ("builds", PList [Sample.job 2 "lint" surrogate])].

End Scenario.

(** ** Running coroutines *)

Lemma bind_run {A B} (m : M A) (f : A → M B) w h :
  bind m f w h =
    match result m w h with
    | Done a => (trace m w h ++ trace (f a) w (h ++ trace m w h),
                 result (f a) w (h ++ trace m w h))
    | Raised e => (trace m w h, Raised e)
    | Waiting => (trace m w h, Waiting)
    end.
Proof.
  unfold bind, trace, result.
  destruct (m w h) as [t1 [a|e|]]; simpl; try done.
  by destruct (f a w (h ++ t1)).
Qed.

Lemma trace_bind {A B} (m : M A) (f : A → M B) w h :
  trace (bind m f) w h =
    match result m w h with
    | Done a => trace m w h ++ trace (f a) w (h ++ trace m w h)
    | _ => trace m w h
    end.
Proof. unfold trace at 1. rewrite bind_run. by destruct (result m w h). Qed.

Lemma result_bind {A B} (m : M A) (f : A → M B) w h :
  result (bind m f) w h =
    match result m w h with
    | Done a => result (f a) w (h ++ trace m w h)
    | Raised e => Raised e
    | Waiting => Waiting
    end.
Proof. unfold result at 1. rewrite bind_run. by destruct (result m w h). Qed.

Lemma run_eq {A} (m : M A) w h : m w h = (trace m w h, result m w h).
Proof. unfold trace, result. by destruct (m w h). Qed.

Lemma bind_ret {A B} (a : A) (f : A → M B) w h :
  bind (ret a) f w h = f a w h.
Proof. unfold bind, ret. rewrite app_nil_r. by destruct (f a w h). Qed.

Lemma bind_emit {B} (ev : event) (f : unit → M B) w h :
  bind (emit ev) f w h =
    (ev :: trace (f tt) w (h ++ [ev]), result (f tt) w (h ++ [ev])).
Proof. unfold bind, emit, trace, result. by destruct (f tt w _). Qed.

Lemma trace_emit (ev : event) w h : trace (emit ev) w h = [ev].
Proof. reflexivity. Qed.

Lemma bind_done {A B} (m : M A) (f : A → M B) w h t a :
  m w h = (t, Done a) →
  bind m f w h = (t ++ trace (f a) w (h ++ t), result (f a) w (h ++ t)).
Proof. intros Hm. unfold bind, trace, result. rewrite Hm. by destruct (f a w _). Qed.

Lemma bind_raised {A B} (m : M A) (f : A → M B) w h t e :
  m w h = (t, Raised e) → bind m f w h = (t, Raised e).
Proof. intros Hm. unfold bind. by rewrite Hm. Qed.

Lemma bind_ext {A B} (m : M A) (f g : A → M B) w h :
  (∀ a h', f a w h' = g a w h') → bind m f w h = bind m g w h.
Proof.
  intros Hfg. unfold bind. destruct (m w h) as [t [a| |]]; try done.
  by rewrite Hfg.
Qed.

Lemma bind_ret_tt (m : M unit) w h : bind m (λ _, ret tt) w h = m w h.
Proof.
  unfold bind, ret. destruct (m w h) as [t [[]| |]]; try done.
  by rewrite app_nil_r.
Qed.

Lemma bind_raised_ext {A B} (m : M A) (k1 k2 : A → M B) w h e :
  (∀ a h', result (k1 a) w h' = Raised e → k2 a w h' = k1 a w h') →
  result (bind m k1) w h = Raised e →
  bind m k2 w h = bind m k1 w h.
Proof.
  intros Hk. rewrite result_bind, !bind_run.
  destruct (result m w h) as [a| |]; try done.
  intros Hr. pose proof (Hk _ _ Hr) as Heq. unfold trace, result in *. by rewrite Heq.
Qed.

(** *** Printing *)

Lemma print_run args w h :
  print args w h =
    ([EvPrint args],
     if forallb (can_print w) args then Done tt else Raised UnicodeEncodeError).
Proof. reflexivity. Qed.

Lemma trace_print args w h : trace (print args) w h = [EvPrint args].
Proof. reflexivity. Qed.

Lemma can_print_plain w v : plain v = true → can_print w v = true.
Proof. unfold can_print. by intros ->. Qed.

Lemma forallb_can_print_plain w args :
  forallb plain args = true → forallb (can_print w) args = true.
Proof.
  induction args as [|v args IH]; [done|]. cbn [forallb].
  intros [Hv Hargs]%andb_prop. by rewrite (can_print_plain w v Hv), IH.
Qed.

(** A print of values that are plain never raises. *)
Lemma print_plain args w h :
  forallb plain args = true → print args w h = ([EvPrint args], Done tt).
Proof. intros Hp. by rewrite print_run, (forallb_can_print_plain w args Hp). Qed.

Lemma bind_print_plain {B} args (f : unit → M B) w h :
  forallb plain args = true →
  bind (print args) f w h =
    (EvPrint args :: trace (f tt) w (h ++ [EvPrint args]),
     result (f tt) w (h ++ [EvPrint args])).
Proof. intros Hp. by rewrite (bind_done _ _ w h _ tt (print_plain args w h Hp)). Qed.

(** A print of a constant and of one value. *)
Lemma bind_print_value {B} (label : string) (v : pyval) (f : unit → M B) w h :
  all_ascii label = true →
  bind (print [PStr label; v]) f w h =
    if can_print w v then
      (EvPrint [PStr label; v] :: trace (f tt) w (h ++ [EvPrint [PStr label; v]]),
       result (f tt) w (h ++ [EvPrint [PStr label; v]]))
    else ([EvPrint [PStr label; v]], Raised UnicodeEncodeError).
Proof.
  intros Hl.
  assert (forallb (can_print w) [PStr label; v] = can_print w v) as Hall.
  { cbn [forallb]. rewrite (can_print_plain w (PStr label) Hl).
    by rewrite andb_true_r. }
  destruct (can_print w v) eqn:Hv.
  - apply (bind_done _ _ w h [EvPrint [PStr label; v]] tt).
    by rewrite print_run, Hall.
  - apply bind_raised. by rewrite print_run, Hall.
Qed.

Lemma print_prints_all args w h :
  prints_all w → print args w h = ([EvPrint args], Done tt).
Proof.
  intros Hw. rewrite print_run.
  assert (forallb (can_print w) args = true) as -> ; [|done].
  induction args as [|v args IH]; [done|]. cbn [forallb]. by rewrite Hw, IH.
Qed.

Lemma io_app (h t : list event) : io (h ++ t) = io h ++ io t.
Proof. apply List.filter_app. Qed.

Lemma io_print h args : io (h ++ [EvPrint args]) = io h.
Proof. rewrite io_app. apply app_nil_r. Qed.

(** ** What a coroutine can emit and raise *)

Section Only.

Context {A B : Type} (P : event → Prop) (Q : exn → Prop).

Lemma only_ret (a : A) : only P Q (ret a).
Proof. intros w h. split; [constructor|discriminate]. Qed.

Lemma only_raise (e : exn) : Q e → only P Q (@raise A e).
Proof. intros He w h. split; [constructor|]. by intros e' [= <-]. Qed.

Lemma only_emit (ev : event) : P ev → only P Q (emit ev).
Proof. intros Hev w h. split; [by repeat constructor|discriminate]. Qed.

Lemma only_print (args : list pyval) :
  P (EvPrint args) → Q UnicodeEncodeError → only P Q (print args).
Proof.
  intros Hev Hq w h. unfold trace, result. rewrite print_run. cbn [fst snd].
  split; [by repeat constructor|].
  destruct (forallb _ _); [discriminate|by intros e [= <-]].
Qed.

Lemma only_print_plain (args : list pyval) :
  forallb plain args = true → P (EvPrint args) → only P Q (print args).
Proof.
  intros Hp Hev w h. unfold trace, result. rewrite print_plain by done.
  split; [by repeat constructor|discriminate].
Qed.

Lemma only_bind (m : M A) (f : A → M B) :
  only P Q m → (∀ a, only P Q (f a)) → only P Q (bind m f).
Proof.
  intros Hm Hf w h. destruct (Hm w h) as [Ht Hr].
  rewrite trace_bind, result_bind.
  destruct (result m w h) as [a|e|]; [|by split; [|intros e' [= <-]; auto]|done].
  destruct (Hf a w (h ++ trace m w h)) as [Ht' Hr'].
  split; [by apply Forall_app|done].
Qed.

Lemma only_lift (r : exn + A) :
  (∀ e, r = inl e → Q e) → only P Q (lift r).
Proof.
  intros Hr. destruct r as [e|a]; [apply only_raise; auto|apply only_ret].
Qed.

End Only.

Lemma only_weaken {A} (P P' : event → Prop) (Q Q' : exn → Prop) (m : M A) :
  (∀ ev, P ev → P' ev) → (∀ e, Q e → Q' e) → only P Q m → only P' Q' m.
Proof.
  intros HP HQ Hm w h. destruct (Hm w h) as [Ht Hr].
  split; [by eapply Forall_impl|auto].
Qed.

Lemma only_for_each {A} P Q (l : list A) (body : A → M unit) :
  (∀ x, only P Q (body x)) → only P Q (for_each l body).
Proof.
  intros Hb. induction l as [|x l IH]; [apply only_ret|].
  apply only_bind; [apply Hb|by intros _].
Qed.

Lemma only_exec P Q argv cwd :
  P (EvExec argv cwd) → Q OSError → only P Q (exec argv cwd).
Proof.
  intros HP HQ w h. unfold trace, result, exec; simpl.
  split; [by repeat constructor|].
  destruct (spawn w _ argv cwd); [discriminate|by intros e [= <-]].
Qed.

Lemma only_http_client P Q method url hs data :
  P (EvHttp method url hs data) → Q ClientError →
  only P Q (http_client method url hs data).
Proof.
  intros HP HQ w h. unfold trace, result, http_client; simpl.
  split; [by repeat constructor|].
  destruct (fetch w _ _ _ _ _); [discriminate|by intros e [= <-]].
Qed.

Lemma only_loads P Q L text : Q JSONDecodeError → only P Q (loads L text).
Proof.
  intros HQ. unfold loads.
  destruct (json_loads L text); [apply only_ret|by apply only_raise].
Qed.

(** Subscripts and iteration raise [KeyError] or [TypeError] only. *)
Lemma py_getitem_raises v k e :
  py_getitem v k = inl e → e = KeyError k ∨ e = TypeError.
Proof.
  destruct v; simpl; try (intros [= <-]; by right).
  destruct (assoc k d); [discriminate|]. intros [= <-]. by left.
Qed.

Lemma py_iter_raises v e : py_iter v = inl e → e = TypeError.
Proof. destruct v; simpl; congruence. Qed.

(** One step of the syntax-directed proof that a coroutine is [only P Q]. *)
Ltac only_step :=
  lazymatch goal with
  | |- only _ _ (bind _ _) => apply only_bind; [|intros ?]
  | |- only _ _ (ret _) => apply only_ret
  | |- only _ _ (raise _) => apply only_raise
  | |- only _ _ (emit _) => apply only_emit
  | |- only _ _ (print _) =>
      first [apply only_print_plain; [reflexivity|] | apply only_print]
  | |- only _ _ (for_each _ _) => apply only_for_each; intros ?
  | |- only _ _ (exec _ _) => apply only_exec
  | |- only _ _ (http_client _ _ _ _) => apply only_http_client
  | |- only _ _ (loads _ _) => apply only_loads
  | |- only _ _ (lift (py_getitem _ _)) =>
      apply only_lift; intros ? [->| ->]%py_getitem_raises
  | |- only _ _ (lift (py_iter _)) =>
      apply only_lift; intros ? ->%py_iter_raises
  | |- only _ _ (if ?b then _ else _) => destruct b
  | |- only _ _ (match ?x with _ => _ end) => destruct x
  end.

Ltac only_solve := repeat only_step; try done.

(** ** Coroutines that do not wait *)

Lemma settles_bind {A B} (m : M A) (f : A → M B) :
  settles m → (∀ a, settles (f a)) → settles (bind m f).
Proof.
  intros Hm Hf w h. rewrite result_bind. specialize (Hm w h).
  destruct (result m w h); [apply Hf|done..].
Qed.

Lemma settles_for_each {A} (l : list A) (body : A → M unit) :
  (∀ x, settles (body x)) → settles (for_each l body).
Proof.
  intros Hb. induction l as [|x l IH]; [done|].
  apply settles_bind; [apply Hb|by intros _].
Qed.

Lemma settles_print args : settles (print args).
Proof. intros w h. unfold result. rewrite print_run. by destruct (forallb _ _). Qed.

Lemma settles_exec argv cwd : settles (exec argv cwd).
Proof. intros w h. unfold result, exec. cbn. by destruct (spawn _ _ _ _). Qed.

Lemma settles_http_client method url hs data :
  settles (http_client method url hs data).
Proof.
  intros w h. unfold result, http_client. cbn.
  by destruct (fetch _ _ _ _ _ _).
Qed.

Lemma settles_lift {A} (r : exn + A) : settles (lift r).
Proof. by destruct r. Qed.

Lemma settles_loads L text : settles (loads L text).
Proof. unfold loads. by destruct (json_loads L text). Qed.

Ltac settles_step :=
  lazymatch goal with
  | |- settles (bind _ _) => apply settles_bind; [|intros ?]
  | |- settles (for_each _ _) => apply settles_for_each; intros ?
  | |- settles (print _) => apply settles_print
  | |- settles (exec _ _) => apply settles_exec
  | |- settles (http_client _ _ _ _) => apply settles_http_client
  | |- settles (lift _) => apply settles_lift
  | |- settles (loads _ _) => apply settles_loads
  | |- settles (if ?b then _ else _) => destruct b
  | |- settles (match ?x with _ => _ end) => destruct x
  end.

Ltac settles_solve := repeat settles_step; try done.

(** ** Coroutines that stop at the first failure *)

Section FailFast.

Variable L : pylib.

(** A coroutine without subprocess or request has nothing that fails. *)
Lemma fail_fast_quiet {A} (m : M A) :
  (∀ w h, Forall (λ ev, is_io ev = false) (trace m w h)) → fail_fast L m.
Proof.
  intros Hq w h i ev Hi Hfail.
  pose proof (Forall_lookup_1 _ _ _ _ (Hq w h) Hi) as Hio.
  by destruct ev.
Qed.

Lemma fail_fast_ret {A} (a : A) : fail_fast L (ret a).
Proof. apply fail_fast_quiet. intros w h. constructor. Qed.

Lemma fail_fast_raise {A} (e : exn) : fail_fast L (@raise A e).
Proof. apply fail_fast_quiet. intros w h. constructor. Qed.

Lemma fail_fast_lift {A} (r : exn + A) : fail_fast L (lift r).
Proof. destruct r; [apply fail_fast_raise|apply fail_fast_ret]. Qed.

Lemma fail_fast_print args : fail_fast L (print args).
Proof. apply fail_fast_quiet. intros w h. by repeat constructor. Qed.

Lemma fail_fast_bind {A B} (m : M A) (f : A → M B) :
  fail_fast L m → (∀ a, fail_fast L (f a)) → fail_fast L (bind m f).
Proof.
  intros Hm Hf w h i ev. rewrite trace_bind, result_bind.
  destruct (result m w h) as [a|e|] eqn:Hr.
  - intros Hi Hfail.
    destruct (decide (i < List.length (trace m w h))%nat) as [Hlt|Hge].
    + rewrite lookup_app_l in Hi by done.
      rewrite take_app_le in Hfail by lia.
      destruct (Hm w h i ev Hi Hfail) as [[e He] _]. congruence.
    + rewrite lookup_app_r in Hi by lia.
      rewrite take_app_ge, (assoc_L (++)) in Hfail by lia.
      destruct (Hf a w (h ++ trace m w h) _ ev Hi Hfail) as [Hraised Hlater].
      split; [done|]. intros j ev' Hj Hlook.
      rewrite lookup_app_r in Hlook by lia.
      apply (Hlater (j - List.length (trace m w h))%nat); [lia|done].
  - intros Hi Hfail. destruct (Hm w h i ev Hi Hfail) as [_ Hlater].
    split; [by eexists|done].
  - intros Hi Hfail. destruct (Hm w h i ev Hi Hfail) as [[e He] _]. congruence.
Qed.

Lemma fail_fast_for_each {A} (l : list A) (body : A → M unit) :
  (∀ x, fail_fast L (body x)) → fail_fast L (for_each l body).
Proof.
  intros Hb. induction l as [|x l IH]; [apply fail_fast_ret|].
  apply fail_fast_bind; [apply Hb|by intros _].
Qed.

End FailFast.

(** ** How each call runs *)

Lemma bind_print {B} args (f : unit → M B) w h :
  bind (print args) f w h =
    if forallb (can_print w) args then
      (EvPrint args :: trace (f tt) w (h ++ [EvPrint args]),
       result (f tt) w (h ++ [EvPrint args]))
    else ([EvPrint args], Raised UnicodeEncodeError).
Proof.
  destruct (forallb (can_print w) args) eqn:Hall.
  - apply (bind_done _ _ w h [EvPrint args] tt). by rewrite print_run, Hall.
  - apply bind_raised. by rewrite print_run, Hall.
Qed.

Lemma can_print_one w v : forallb (can_print w) [v] = can_print w v.
Proof. cbn. apply andb_true_r. Qed.

Lemma run_run parts cwd w h :
  run parts cwd w h =
    ([EvExec parts cwd],
     match failure (spawn w (io h) parts cwd) with
     | Some e => Raised e
     | None => Done tt
     end).
Proof.
  unfold run, bind, exec, failure.
  destruct (spawn w (io h) parts cwd) as [c|]; [|done].
  by case_bool_decide.
Qed.

Lemma http_client_run method url hs data w h :
  http_client method url hs data w h =
    ([EvHttp method url hs data],
     match fetch w (io h) method url hs data with
     | Resp code text => Done (code, text)
     | NetError => Raised ClientError
     end).
Proof. reflexivity. Qed.

Lemma failure_None r : failure r = None ↔ r = Exit 0.
Proof.
  destruct r as [c|]; cbn; [|done]. case_bool_decide as Hc; split.
  - done.
  - intros [= ->]. done.
  - intros _. f_equal. destruct (decide (c = 0)) as [|Hn]; [done|by destruct Hc].
  - done.
Qed.

Lemma io_started h c : io (h ++ [started c]) = io h ++ [started c].
Proof. by rewrite io_app. Qed.

Section Calls.

Variable L : pylib.
Variable config : config_t.

Lemma github_post_run cfg ep data w h :
  let url := github_api_url cfg ep in
  let said := EvPrint [PStr "Invoking github API:"; PStr url] in
  let req := EvHttp "post" url (github_api_headers cfg)
               (Some (json_dumps L data)) in
  github_post L cfg ep data [] w h =
    if can_print w (PStr url) then
      match fetch w (io h) "post" url (github_api_headers cfg)
              (Some (json_dumps L data)) with
      | Resp code text =>
          if bool_decide (code ≠ 200) && bool_decide (code ≠ 201) then
            if can_print w (PStr text) then
              ([said; req; EvPrint [PStr text]; EvPrint [PInt code]],
               Raised (Exception "github API call failed"))
            else ([said; req; EvPrint [PStr text]], Raised UnicodeEncodeError)
          else
            ([said; req], match json_loads L text with
                          | Some v => Done v
                          | None => Raised JSONDecodeError
                          end)
      | NetError => ([said; req], Raised ClientError)
      end
    else ([said], Raised UnicodeEncodeError).
Proof.
  intros url said req. unfold github_post. cbn [add_args].
  fold (github_api_url cfg ep). fold url. fold (github_api_headers cfg).
  rewrite bind_print_value by reflexivity.
  destruct (can_print w (PStr url)); [|done].
  unfold trace, result. rewrite bind_run. unfold trace, result.
  rewrite http_client_run, io_print. cbn [fst snd].
  destruct (fetch w _ _ _ _ _) as [code text|]; [|done]. cbn [fst snd app].
  destruct (bool_decide (code ≠ 200) && bool_decide (code ≠ 201)).
  - rewrite bind_print, can_print_one.
    destruct (can_print w (PStr text)); [|done].
    unfold trace, result. rewrite bind_print_plain by reflexivity. done.
  - unfold loads. by destruct (json_loads L text).
Qed.

Lemma github_commit_status_set_run cfg commit context status desc url w h :
  let target := github_api_url cfg ("statuses/" +:+ commit) in
  let said := EvPrint [PStr "Invoking github API:"; PStr target] in
  let req := update_request L cfg commit (status_data status url desc context) in
  github_commit_status_set L cfg (PStr commit) context status desc url w h =
    if can_print w (PStr target) then
      match fetch w (io h) "post" target (github_api_headers cfg)
              (Some (json_dumps L (status_data status url desc context))) with
      | Resp code text =>
          if bool_decide (code ≠ 200) && bool_decide (code ≠ 201) then
            if can_print w (PStr text) then
              ([said; req; EvPrint [PStr text]; EvPrint [PInt code]],
               Raised (Exception "github API call failed"))
            else ([said; req; EvPrint [PStr text]], Raised UnicodeEncodeError)
          else
            ([said; req], match json_loads L text with
                          | Some v => Done tt
                          | None => Raised JSONDecodeError
                          end)
      | NetError => ([said; req], Raised ClientError)
      end
    else ([said], Raised UnicodeEncodeError).
Proof.
  intros target said req. unfold github_commit_status_set.
  rewrite bind_run. unfold trace, result. rewrite github_post_run. cbn zeta.
  fold target.
  destruct (can_print w (PStr target)); [|done].
  destruct (fetch w _ _ _ _ _) as [code text|]; [|done].
  destruct (bool_decide (code ≠ 200) && bool_decide (code ≠ 201)).
  - by destruct (can_print w (PStr text)).
  - cbn [fst snd]. by destruct (json_loads L text).
Qed.

Lemma gitlab_get_run cfg ep args w h :
  let url := add_args (gitlab_api_url L cfg ep) true args in
  let said := EvPrint [PStr "Invoking gitlab API:"; PStr url] in
  let req := EvHttp "get" url (gitlab_api_headers cfg) None in
  gitlab_get L cfg ep "get" args w h =
    if can_print w (PStr url) then
      match fetch w (io h) "get" url (gitlab_api_headers cfg) None with
      | Resp code text =>
          if bool_decide (code ≠ 200) then
            ([said; req; EvPrint [PStr text]],
             if can_print w (PStr text)
             then Raised (Exception "gitlab API call failed")
             else Raised UnicodeEncodeError)
          else
            ([said; req], match json_loads L text with
                          | Some v => Done v
                          | None => Raised JSONDecodeError
                          end)
      | NetError => ([said; req], Raised ClientError)
      end
    else ([said], Raised UnicodeEncodeError).
Proof.
  intros url said req. unfold gitlab_get.
  fold (gitlab_api_url L cfg ep). fold url. fold (gitlab_api_headers cfg).
  rewrite bind_print_value by reflexivity.
  destruct (can_print w (PStr url)); [|done].
  rewrite bool_decide_eq_true_2 by done.
  unfold trace, result. rewrite bind_run. unfold trace, result.
  rewrite http_client_run, io_print. cbn [fst snd].
  destruct (fetch w _ _ _ _ _) as [code text|]; [|done]. cbn [fst snd app].
  case_bool_decide.
  - rewrite bind_print, can_print_one.
    by destruct (can_print w (PStr text)).
  - unfold loads. by destruct (json_loads L text).
Qed.

Lemma commit_status_set_unknown cfg commit test status url w h :
  gh_status_of status = None →
  commit_status_set L cfg commit test status url w h =
    ([unknown_status_log status],
     if can_print w status then Done tt else Raised UnicodeEncodeError).
Proof.
  intros Hs. unfold commit_status_set. rewrite Hs, print_run.
  cbn [forallb]. rewrite (can_print_plain w (PStr _)) by reflexivity.
  by rewrite andb_true_r.
Qed.

Lemma commit_status_set_known cfg commit test status url g w h :
  gh_status_of status = Some g →
  commit_status_set L cfg (PStr commit) (PStr test) status url w h =
    github_commit_status_set L cfg (PStr commit) ("gitlab/" +:+ test) g
      (description_of cfg test) url w h.
Proof. intros Hs. unfold commit_status_set. by rewrite Hs. Qed.

(** The endpoints. *)
Lemma request_json_run request w h :
  request_json L request w h =
    match request_text L (headers request) (body request) with
    | inl e => ([], Raised e)
    | inr text =>
        match json_loads L text with
        | Some x => ([], Done x)
        | None => ([], Raised JSONDecodeError)
        end
    end.
Proof.
  unfold request_json.
  destruct (request_text L _ _) as [e|text]; [done|].
  cbn [lift]. rewrite bind_ret. unfold loads.
  by destruct (json_loads L text).
Qed.

Lemma github_run request w h :
  github L config request w h =
    match assoc (match_info_repo request) (repos config) with
    | None => ([], Raised (KeyError (match_info_repo request)))
    | Some cfg =>
        match header (headers request) "x-github-event" with
        | inl e => ([], Raised e)
        | inr ev =>
            match request_text L (headers request) (body request) with
            | inl e => ([], Raised e)
            | inr text =>
                match json_loads L text with
                | None => ([], Raised JSONDecodeError)
                | Some x =>
                    if bool_decide (ev = "push") then
                      ([EvPrint [PStr "Handling github push event..."];
                        EvPut GitQueue (cfg, "push", x)], Done "OK")
                    else if bool_decide (ev = "pull_request") then
                      ([EvPrint [PStr "Handling github pull request event..."];
                        EvPut GitQueue (cfg, "push", x)], Done "OK")
                    else
                      ([EvPrint [PStr "Ignoring unknown github event";
                                 PStr ev]],
                       if can_print w (PStr ev) then Done "OK"
                       else Raised UnicodeEncodeError)
                end
            end
        end
    end.
Proof.
  unfold github, repo_lookup.
  destruct (assoc _ _) as [cfg|]; [|done]. cbn [lift]. rewrite bind_ret.
  destruct (header _ _) as [e|ev]; [done|]. cbn [lift]. rewrite bind_ret.
  rewrite bind_run. unfold trace, result. rewrite request_json_run.
  destruct (request_text L _ _) as [e|text]; [done|].
  destruct (json_loads L text) as [x|]; [|done]. cbn [fst snd app].
  repeat case_bool_decide.
  - rewrite bind_run. unfold trace, result.
    rewrite bind_print_plain by reflexivity. done.
  - rewrite bind_run. unfold trace, result.
    rewrite bind_print_plain by reflexivity. done.
  - rewrite bind_run. unfold trace, result.
    rewrite print_run. cbn [forallb fst snd].
    rewrite (can_print_plain w (PStr "Ignoring unknown github event"))
      by reflexivity.
    rewrite andb_true_r.
    by destruct (can_print w (PStr ev)).
Qed.

Lemma gitlab_run request w h :
  gitlab L config request w h =
    match assoc (match_info_repo request) (repos config) with
    | None => ([], Raised (KeyError (match_info_repo request)))
    | Some cfg =>
        match header (headers request) "x-gitlab-event" with
        | inl e => ([], Raised e)
        | inr ev =>
            match request_text L (headers request) (body request) with
            | inl e => ([], Raised e)
            | inr text =>
                match json_loads L text with
                | None => ([], Raised JSONDecodeError)
                | Some x =>
                    if bool_decide (ev = "Pipeline Hook") then
                      ([EvPrint [PStr "Handling gitlab pipeline event..."];
                        EvPut GitlabQueue (cfg, ev, x)], Done "OK")
                    else
                      ([EvPrint [PStr "Ignoring unknown gitlab event";
                                 PStr ev]],
                       if can_print w (PStr ev) then Done "OK"
                       else Raised UnicodeEncodeError)
                end
            end
        end
    end.
Proof.
  unfold gitlab, repo_lookup.
  destruct (assoc _ _) as [cfg|]; [|done]. cbn [lift]. rewrite bind_ret.
  destruct (header _ _) as [e|ev]; [done|]. cbn [lift]. rewrite bind_ret.
  rewrite bind_run. unfold trace, result. rewrite request_json_run.
  destruct (request_text L _ _) as [e|text]; [done|].
  destruct (json_loads L text) as [x|]; [|done]. cbn [fst snd app].
  case_bool_decide.
  - rewrite bind_run. unfold trace, result.
    rewrite bind_print_plain by reflexivity. done.
  - rewrite bind_run. unfold trace, result.
    rewrite print_run. cbn [forallb fst snd].
    rewrite (can_print_plain w (PStr "Ignoring unknown gitlab event"))
      by reflexivity.
    rewrite andb_true_r.
    by destruct (can_print w (PStr ev)).
Qed.

Lemma carries_request_json request name cfg ev x w h :
  carries L config request name cfg ev x →
  request_json L request w h = ([], Done x).
Proof.
  intros (_ & _ & text & Htext & Hx). by rewrite request_json_run, Htext, Hx.
Qed.

(** The loops. *)
Lemma git_loop_cons cfg t op feed w h :
  let pre := [EvGet GitQueue (cfg, t, op);
              EvPrint [PStr "Git Task: initiating push-pull"]] in
  git_loop ((cfg, t, op) :: feed) w h =
    (pre ++ trace (git_pull_push cfg ;; git_loop feed) w (h ++ pre),
     result (git_pull_push cfg ;; git_loop feed) w (h ++ pre)).
Proof.
  intros pre. subst pre. cbn [git_loop].
  rewrite bind_emit. unfold trace, result. cbn beta iota.
  rewrite bind_print_plain by reflexivity. unfold trace, result.
  by rewrite <- !(assoc_L (++)).
Qed.

Lemma gitlab_loop_cons cfg t ev feed w h :
  let pre := [EvGet GitlabQueue (cfg, t, ev);
              EvPrint [PStr "GitLab Task: processing event"; PStr t]] in
  let body := if bool_decide (t = "Pipeline Hook")
              then gitlab_update_pipeline L cfg ev
              else raise (Exception "Unknown event type") in
  gitlab_loop L ((cfg, t, ev) :: feed) w h =
    if can_print w (PStr t) then
      (pre ++ trace (body ;; gitlab_loop L feed) w (h ++ pre),
       result (body ;; gitlab_loop L feed) w (h ++ pre))
    else (pre, Raised UnicodeEncodeError).
Proof.
  intros pre body. subst pre body. cbn [gitlab_loop].
  rewrite bind_emit. unfold trace, result. cbn beta iota.
  rewrite bind_print_value by reflexivity.
  destruct (can_print w (PStr t)); [|done].
  unfold trace, result. by rewrite <- !(assoc_L (++)).
Qed.

Lemma gitlab_loop_hook cfg ev feed w h :
  let pre := [EvGet GitlabQueue (cfg, "Pipeline Hook", ev);
              EvPrint [PStr "GitLab Task: processing event";
                       PStr "Pipeline Hook"]] in
  gitlab_loop L ((cfg, "Pipeline Hook", ev) :: feed) w h =
    (pre ++ trace (gitlab_update_pipeline L cfg ev ;; gitlab_loop L feed)
              w (h ++ pre),
     result (gitlab_update_pipeline L cfg ev ;; gitlab_loop L feed)
       w (h ++ pre)).
Proof.
  intros pre. rewrite gitlab_loop_cons. cbn zeta.
  by rewrite (can_print_plain w (PStr "Pipeline Hook")) by reflexivity.
Qed.

End Calls.

(** ** The status mapping and the description *)

Section StatusFacts.

Variable L : pylib.

Lemma gh_status_of_str (s : string) :
  gh_status_of (PStr s) =
    if bool_decide (s = "success") then Some "success"
    else if bool_decide (s = "pending") || bool_decide (s = "created")
            || bool_decide (s = "running") then Some "pending"
    else if bool_decide (s = "failed") then Some "failure"
    else None.
Proof. reflexivity. Qed.

Lemma gh_status_of_unrecognized (status : pyval) :
  status ∉ PStr <$> recognized → gh_status_of status = None.
Proof.
  intros Hn. destruct status as [| | |s| |]; try reflexivity.
  rewrite gh_status_of_str.
  repeat case_bool_decide; simpl; try reflexivity; subst;
    exfalso; apply Hn; unfold recognized; simpl; set_solver.
Qed.

Lemma gh_status_of_Some (status : pyval) (g : string) :
  gh_status_of status = Some g →
  ∃ s, status = PStr s ∧ s ∈ recognized ∧ g ∈ ["success"; "pending"; "failure"].
Proof.
  destruct status as [| | |s| |]; try discriminate.
  rewrite gh_status_of_str. intros H. exists s. split; [done|].
  unfold recognized.
  repeat case_bool_decide; simpl in H; simplify_eq; set_solver.
Qed.

Lemma github_commit_status_set_http cfg commit context status desc url w h :
  List.filter is_http
    (trace (github_commit_status_set L cfg (PStr commit) context status desc url)
       w h) =
    if can_print w (PStr (github_api_url cfg ("statuses/" +:+ commit)))
    then [update_request L cfg commit (status_data status url desc context)]
    else [].
Proof.
  unfold trace. rewrite github_commit_status_set_run. cbn zeta.
  destruct (can_print w _); [|done].
  destruct (fetch w _ _ _ _ _) as [code text|]; [|done].
  destruct (bool_decide (code ≠ 200) && bool_decide (code ≠ 201)); [|done].
  by destruct (can_print w (PStr text)).
Qed.

Lemma commit_status_set_http cfg commit test status url w h :
  List.filter is_http
    (trace (commit_status_set L cfg (PStr commit) (PStr test) status url) w h) =
    match gh_status_of status with
    | Some g =>
        if can_print w (PStr (github_api_url cfg ("statuses/" +:+ commit)))
        then [update_request L cfg commit
                (status_data g url (description_of cfg test)
                   ("gitlab/" +:+ test))]
        else []
    | None => []
    end.
Proof.
  destruct (gh_status_of status) as [g|] eqn:Hg.
  - unfold trace. rewrite (commit_status_set_known L cfg commit test status url g)
      by done.
    apply github_commit_status_set_http.
  - unfold trace. by rewrite commit_status_set_unknown.
Qed.

(** C1.  The status mapping of [commit_status_set] sends "success" to
    "success", each of "pending", "created" and "running" to "pending",
    "failed" to "failure" and every other string to nothing; the match is
    exact and case-sensitive.  The update [commit_status_set] sends carries
    the mapped status: it is the one request made, made once the line
    announcing it is printed, and no request is made where there is no
    mapped status. *)
Theorem status_mapping :
  gh_status_of (PStr "success") = Some "success" ∧
  gh_status_of (PStr "pending") = Some "pending" ∧
  gh_status_of (PStr "created") = Some "pending" ∧
  gh_status_of (PStr "running") = Some "pending" ∧
  gh_status_of (PStr "failed") = Some "failure" ∧
  gh_status_of (PStr "Success") = None ∧
  (∀ s : string, s ∉ recognized → gh_status_of (PStr s) = None) ∧
  (∀ cfg commit test (s : string) url w h,
     List.filter is_http
       (trace (commit_status_set L cfg (PStr commit) (PStr test) (PStr s) url)
          w h) =
       match gh_status_of (PStr s) with
       | Some g =>
           if can_print w (PStr (github_api_url cfg ("statuses/" +:+ commit)))
           then [update_request L cfg commit
                   (status_data g url (description_of cfg test)
                      ("gitlab/" +:+ test))]
           else []
       | None => []
       end).
Proof.
  split_and!; try reflexivity.
  - intros s Hs. apply gh_status_of_unrecognized.
    intros [s' [[= <-] Hin]]%list_elem_of_fmap. done.
  - intros. apply commit_status_set_http.
Qed.


Lemma gitlab_update_pipeline_unrecognized cfg ev w h :
  unrecognized_event ev → prints_all w →
  ∃ log, gitlab_update_pipeline L cfg ev w h = (log, Done tt) ∧
         Forall (λ e, ∃ st, e = unknown_status_log st) log.
Proof.
  intros (c & cid & builds & js & Hc & Hcid & Hb & Hit & Hjs) Hw.
  unfold gitlab_update_pipeline.
  rewrite Hc; cbn [lift]; rewrite bind_ret.
  rewrite Hcid; cbn [lift]; rewrite bind_ret.
  rewrite Hb; cbn [lift]; rewrite bind_ret.
  rewrite Hit; cbn [lift]; rewrite bind_ret.
  clear Hit. revert h. induction Hjs as [|j js Hj Hjs IH]; intros h.
  - exists []. by split.
  - destruct Hj as (jid & name & status & Hid & Hname & Hstatus & Hn).
    destruct (IH (h ++ [unknown_status_log status])) as (log & Hrun & Hlog).
    exists (unknown_status_log status :: log). split.
    + cbn [for_each]. erewrite bind_done.
      * unfold trace, result. by rewrite Hrun.
      * rewrite Hid; cbn [lift]; rewrite bind_ret.
        rewrite Hname; cbn [lift]; rewrite bind_ret.
        rewrite Hstatus; cbn [lift]; rewrite bind_ret.
        rewrite commit_status_set_unknown
          by by apply gh_status_of_unrecognized.
        by rewrite Hw.
    + constructor; [by exists status|done].
Qed.

(** C2.  For a status outside the recognized ones [commit_status_set]
    sends no update: all it does is print the status.  It returns normally
    when the standard output can write the status, and raises
    UnicodeEncodeError out of the print when it cannot.  On a standard
    output that writes everything, a pipeline event whose jobs all have
    such a status adds only these prints and the loop of [gitlab_task] goes
    on with the rest of the queue.  On a standard output in UTF-8, the
    pipeline event whose job has the status U+D800 ends the loop with
    UnicodeEncodeError and nothing behind it is taken from the queue. *)
Theorem unrecognized_status_dropped :
  (∀ cfg commit test status url w h,
     status ∉ PStr <$> recognized →
     commit_status_set L cfg commit test status url w h =
       ([unknown_status_log status],
        if can_print w status then Done tt else Raised UnicodeEncodeError)) ∧
  (∀ cfg ev feed w h,
     unrecognized_event ev → prints_all w →
     ∃ log,
       Forall (λ e, ∃ st, e = unknown_status_log st) log ∧
       let pre := EvGet GitlabQueue (cfg, "Pipeline Hook", ev)
                  :: EvPrint [PStr "GitLab Task: processing event";
                              PStr "Pipeline Hook"]
                  :: log in
       gitlab_loop L ((cfg, "Pipeline Hook", ev) :: feed) w h =
         (pre ++ trace (gitlab_loop L feed) w (h ++ pre),
          result (gitlab_loop L feed) w (h ++ pre))) ∧
  (unrecognized_event Scenario.surrogate_event ∧
   ∀ cfg feed h,
     gitlab_loop L ((cfg, "Pipeline Hook", Scenario.surrogate_event) :: feed)
       Scenario.utf8_stdout h =
       ([EvGet GitlabQueue (cfg, "Pipeline Hook", Scenario.surrogate_event);
         EvPrint [PStr "GitLab Task: processing event"; PStr "Pipeline Hook"];
         unknown_status_log (PStr Scenario.surrogate)],
        Raised UnicodeEncodeError)).
Proof.
  split_and!.
  - intros. by apply commit_status_set_unknown, gh_status_of_unrecognized.
  - intros cfg ev feed w h Hev Hw.
    destruct (gitlab_update_pipeline_unrecognized cfg ev w
                (h ++ [EvGet GitlabQueue (cfg, "Pipeline Hook", ev);
                       EvPrint [PStr "GitLab Task: processing event";
                                PStr "Pipeline Hook"]]) Hev Hw)
      as (log & Hrun & Hlog).
    exists log. split; [done|]. intros pre.
    subst pre. rewrite gitlab_loop_hook. cbn zeta. unfold trace, result.
    rewrite (bind_done _ _ _ _ _ _ Hrun).
    unfold trace, result. cbn [app]. by rewrite <- !(assoc_L (++)).
  - exists (PDict [("id", PStr "c0ffee")]), (PStr "c0ffee"),
      (PList [Sample.job 2 "lint" Scenario.surrogate]),
      [Sample.job 2 "lint" Scenario.surrogate].
    split_and!; try reflexivity.
    constructor; [|constructor].
    exists (PInt 2), (PStr "lint"), (PStr Scenario.surrogate).
    split_and!; try reflexivity.
    intros [s' [[= <-] Hin]]%list_elem_of_fmap.
    revert Hin. apply (bool_decide_unpack _). vm_compute. exact I.
  - intros cfg feed h. rewrite gitlab_loop_hook. cbn zeta.
    unfold trace, result.
    rewrite (bind_raised _ _ _ _
               [unknown_status_log (PStr Scenario.surrogate)]
               UnicodeEncodeError); [done|].
    unfold gitlab_update_pipeline, Scenario.surrogate_event.
    cbn [py_getitem assoc lift]. 
    reflexivity.
Qed.

End StatusFacts.

(** ** What the parts of the workers can emit and raise *)

Section WorkerFacts.

Variable L : pylib.
Variable config : config_t.

Lemma only_run P Q parts cwd :
  P (EvExec parts cwd) → Q OSError → Q (Exception "command failed") →
  only P Q (run parts cwd).
Proof. intros. unfold run. only_solve. Qed.

Lemma only_init_git cfg : only not_queue not_unknown_event (init_git cfg).
Proof.
  unfold init_git, git_pull_push, git_run.
  repeat only_step; try apply only_run; done.
Qed.

Lemma only_github_post cfg ep data :
  only not_queue not_unknown_event (github_post L cfg ep data []).
Proof. unfold github_post. only_solve. Qed.

Lemma only_gitlab_get cfg ep args :
  only not_queue not_unknown_event (gitlab_get L cfg ep "get" args).
Proof. unfold gitlab_get. only_solve. Qed.

Lemma only_commit_status_set cfg commit test status url :
  only not_queue not_unknown_event
    (commit_status_set L cfg commit test status url).
Proof.
  unfold commit_status_set, github_commit_status_set.
  repeat only_step; try apply only_github_post; done.
Qed.

Lemma only_init_statuses cfg :
  only not_queue not_unknown_event (init_statuses L cfg).
Proof.
  unfold init_statuses.
  repeat only_step;
    try apply only_gitlab_get; try apply only_commit_status_set; done.
Qed.

Lemma only_gitlab_update_pipeline cfg ev :
  only not_queue not_unknown_event (gitlab_update_pipeline L cfg ev).
Proof.
  unfold gitlab_update_pipeline.
  repeat only_step; try apply only_commit_status_set; done.
Qed.

Lemma only_git_bootstrap :
  only not_queue not_unknown_event (git_bootstrap config).
Proof.
  unfold git_bootstrap. apply only_for_each. intros [n cfg].
  apply only_init_git.
Qed.

Lemma only_gitlab_bootstrap :
  only not_queue not_unknown_event (gitlab_bootstrap L config).
Proof.
  unfold gitlab_bootstrap. apply only_for_each. intros [n cfg].
  apply only_init_statuses.
Qed.

End WorkerFacts.

(** ** Bootstrap before drain *)

Lemma for_each_done_elem {A} (l : list A) (body : A → M unit) w h x :
  result (for_each l body) w h = Done tt → x ∈ l →
  ∃ t1 t2, trace (for_each l body) w h = t1 ++ trace (body x) w (h ++ t1) ++ t2 ∧
           result (body x) w (h ++ t1) = Done tt.
Proof.
  revert h. induction l as [|y l IH]; intros h Hr Hx; [by inversion Hx|].
  cbn [for_each] in *. rewrite result_bind in Hr. rewrite trace_bind.
  destruct (result (body y) w h) as [[]| |] eqn:Hy; try discriminate.
  apply elem_of_cons in Hx as [->|Hx].
  - exists [], (trace (for_each l body) w (h ++ trace (body y) w h)).
    by rewrite app_nil_r.
  - destruct (IH _ Hr Hx) as (t1 & t2 & Ht & Hd).
    exists (trace (body y) w h ++ t1), t2.
    rewrite Ht, !(assoc_L (++)). by rewrite <- !(assoc_L (++)) in *.
Qed.

Lemma not_queue_lookup t i q it :
  Forall not_queue t → t !! i = Some (EvGet q it) → False.
Proof.
  intros Ht Hi. eapply Forall_lookup_1 in Ht as [Hg _]; [|done]. done.
Qed.

Lemma drain_after_bootstrap Q (boot loop : M unit) w h i q it :
  only not_queue Q boot →
  trace (boot ;; loop) w h !! i = Some (EvGet q it) →
  result boot w h = Done tt ∧
  (List.length (trace boot w h) ≤ i)%nat ∧
  take (List.length (trace boot w h)) (trace (boot ;; loop) w h) = trace boot w h.
Proof.
  intros Hb. destruct (Hb w h) as [Ht _]. rewrite trace_bind.
  destruct (result boot w h) as [[]| |];
    try (intros Hi; by destruct (not_queue_lookup _ _ _ _ Ht Hi)).
  intros Hi. split; [done|]. split; [|by rewrite take_app_length].
  destruct (decide (i < List.length (trace boot w h))%nat) as [Hlt|]; [|lia].
  rewrite lookup_app_l in Hi by done.
  by destruct (not_queue_lookup _ _ _ _ Ht Hi).
Qed.

Section Bootstrap.

Variable L : pylib.
Variable config : config_t.

(** C3.  Wherever the trace of [git_task] has an item taken from the queue,
    the bootstrap has returned, its events are the first of the trace and
    come before that item, and [init_git] has run to its end for every
    configured repository; the same holds of [gitlab_task] and
    [init_statuses]. *)
Theorem bootstrap_before_drain :
  (∀ feed w h i q it,
     trace (git_task config feed) w h !! i = Some (EvGet q it) →
     let boot := trace (git_bootstrap config) w h in
     result (git_bootstrap config) w h = Done tt ∧
     (List.length boot ≤ i)%nat ∧
     take (List.length boot) (trace (git_task config feed) w h) = boot ∧
     ∀ n cfg, (n, cfg) ∈ repos config →
       ∃ t1 t2, boot = t1 ++ trace (init_git cfg) w (h ++ t1) ++ t2 ∧
                result (init_git cfg) w (h ++ t1) = Done tt) ∧
  (∀ feed w h i q it,
     trace (gitlab_task L config feed) w h !! i = Some (EvGet q it) →
     let boot := trace (gitlab_bootstrap L config) w h in
     result (gitlab_bootstrap L config) w h = Done tt ∧
     (List.length boot ≤ i)%nat ∧
     take (List.length boot) (trace (gitlab_task L config feed) w h) = boot ∧
     ∀ n cfg, (n, cfg) ∈ repos config →
       ∃ t1 t2, boot = t1 ++ trace (init_statuses L cfg) w (h ++ t1) ++ t2 ∧
                result (init_statuses L cfg) w (h ++ t1) = Done tt).
Proof.
  split; intros feed w h i q it Hi boot.
  - destruct (drain_after_bootstrap _ _ _ w h i q it
                (only_git_bootstrap config) Hi) as (Hd & Hle & Htake).
    repeat split; try done. intros n cfg Hin.
    apply (for_each_done_elem _ _ w h (n, cfg) Hd Hin).
  - destruct (drain_after_bootstrap _ _ _ w h i q it
                (only_gitlab_bootstrap L config) Hi) as (Hd & Hle & Htake).
    repeat split; try done. intros n cfg Hin.
    apply (for_each_done_elem _ _ w h (n, cfg) Hd Hin).
Qed.

End Bootstrap.

(** ** The endpoints *)

Section Dispatch.

Variable L : pylib.
Variable config : config_t.

(** What the endpoints put, for any request at all. *)
Lemma github_puts request w h q it :
  EvPut q it ∈ trace (github L config request) w h →
  q = GitQueue ∧ it.1.2 = "push".
Proof.
  unfold trace. rewrite github_run.
  destruct (assoc _ _) as [cfg|]; [|by intros ?%elem_of_nil].
  destruct (header _ _) as [e|ev]; [by intros ?%elem_of_nil|].
  destruct (request_text L _ _) as [e|text]; [by intros ?%elem_of_nil|].
  destruct (json_loads L _) as [x|]; [|by intros ?%elem_of_nil].
  repeat case_bool_decide; simpl; intros Hin;
    apply elem_of_cons in Hin as [Hin|Hin]; try discriminate;
    try (by apply elem_of_nil in Hin);
    apply list_elem_of_singleton in Hin; by injection Hin as -> ->.
Qed.

Lemma gitlab_puts request w h q it :
  EvPut q it ∈ trace (gitlab L config request) w h →
  q = GitlabQueue ∧ it.1.2 = "Pipeline Hook".
Proof.
  unfold trace. rewrite gitlab_run.
  destruct (assoc _ _) as [cfg|]; [|by intros ?%elem_of_nil].
  destruct (header _ _) as [e|ev]; [by intros ?%elem_of_nil|].
  destruct (request_text L _ _) as [e|text]; [by intros ?%elem_of_nil|].
  destruct (json_loads L _) as [x|]; [|by intros ?%elem_of_nil].
  case_bool_decide as Hev; simpl; intros Hin;
    apply elem_of_cons in Hin as [Hin|Hin]; try discriminate.
  - apply list_elem_of_singleton in Hin. by injection Hin as -> ->.
  - by apply elem_of_nil in Hin.
Qed.

Lemma header_raises hs name e : header hs name = inl e → e = KeyError name.
Proof.
  induction hs as [|[k v] hs IH]; simpl; [congruence|].
  by case_bool_decide.
Qed.

(** How an endpoint ends, for any request at all. *)
Lemma handle_result ep request w h :
  result (handle L config ep request) w h =
    match assoc (match_info_repo request) (repos config) with
    | None => Raised (KeyError (match_info_repo request))
    | Some cfg =>
        match header (headers request) (event_header ep) with
        | inl e => Raised e
        | inr ev =>
            match request_text L (headers request) (body request) with
            | inl e => Raised e
            | inr text =>
                match json_loads L text with
                | None => Raised JSONDecodeError
                | Some x =>
                    if routed ep ev || can_print w (PStr ev) then Done "OK"
                    else Raised UnicodeEncodeError
                end
            end
        end
    end.
Proof.
  destruct ep; unfold result; cbn [handle event_header routed];
    rewrite ?github_run, ?gitlab_run;
    destruct (assoc _ _) as [cfg|]; [|done| |done];
    (destruct (header _ _) as [e|ev]; [done|]);
    (destruct (request_text L _ _) as [e|text]; [done|]);
    (destruct (json_loads L _) as [x|]; [|done]);
    repeat case_bool_decide; try done.
Qed.

(** C5.  A pull_request event is dispatched as a push event is: each puts
    the triple (configuration, 'push', payload) on the git queue and nothing
    on the gitlab queue, and is answered OK.  A 'Pipeline Hook' event puts
    its triple on the gitlab queue and is answered OK.  Any other kind, on
    either endpoint, is printed and nothing is put on a queue; the answer
    is OK when the standard output can write the kind. *)
Theorem dispatch_routing :
  (∀ request cfg ev x w h,
     carries L config request "x-github-event" cfg ev x →
     github L config request w h =
       if bool_decide (ev = "push") then
         ([EvPrint [PStr "Handling github push event..."];
           EvPut GitQueue (cfg, "push", x)], Done "OK")
       else if bool_decide (ev = "pull_request") then
         ([EvPrint [PStr "Handling github pull request event..."];
           EvPut GitQueue (cfg, "push", x)], Done "OK")
       else
         ([EvPrint [PStr "Ignoring unknown github event"; PStr ev]],
          if can_print w (PStr ev) then Done "OK"
          else Raised UnicodeEncodeError)) ∧
  (∀ request request' cfg x w h,
     carries L config request "x-github-event" cfg "push" x →
     carries L config request' "x-github-event" cfg "pull_request" x →
     puts (trace (github L config request) w h) =
       [EvPut GitQueue (cfg, "push", x)] ∧
     puts (trace (github L config request') w h) =
       [EvPut GitQueue (cfg, "push", x)] ∧
     result (github L config request') w h =
       result (github L config request) w h) ∧
  (∀ request cfg ev x w h,
     carries L config request "x-gitlab-event" cfg ev x →
     gitlab L config request w h =
       if bool_decide (ev = "Pipeline Hook") then
         ([EvPrint [PStr "Handling gitlab pipeline event..."];
           EvPut GitlabQueue (cfg, "Pipeline Hook", x)], Done "OK")
       else
         ([EvPrint [PStr "Ignoring unknown gitlab event"; PStr ev]],
          if can_print w (PStr ev) then Done "OK"
          else Raised UnicodeEncodeError)).
Proof.
  split; [|split].
  - intros request cfg ev x w h (Hrepo & Hev & text & Htext & Hx).
    by rewrite github_run, Hrepo, Hev, Htext, Hx.
  - intros request request' cfg x w h (Hrepo & Hev & text & Htext & Hx)
      (Hrepo' & Hev' & text' & Htext' & Hx').
    unfold trace, result.
    by rewrite !github_run, Hrepo, Hev, Htext, Hx, Hrepo', Hev', Htext', Hx'.
  - intros request cfg ev x w h (Hrepo & Hev & text & Htext & Hx).
    rewrite gitlab_run, Hrepo, Hev, Htext, Hx.
    by case_bool_decide; subst.
Qed.

(** C6.  A request for a repository that is not configured makes the
    endpoint raise KeyError.  A request that names a configured repository
    and carries an event kind and a payload is answered OK when the kind is
    routed to a queue; when it is not, the kind is printed, and the
    endpoint answers OK if the standard output can write the kind and
    raises UnicodeEncodeError if it cannot.  So it does at the event kind
    U+DCFF on a standard output in UTF-8, for a configured repository. *)
Theorem dispatch_failure :
  (∀ ep request w h,
     assoc (match_info_repo request) (repos config) = None →
     handle L config ep request w h =
       ([], Raised (KeyError (match_info_repo request)))) ∧
  (∀ ep request cfg ev x w h,
     carries L config request (event_header ep) cfg ev x →
     result (handle L config ep request) w h =
       if routed ep ev || can_print w (PStr ev) then Done "OK"
       else Raised UnicodeEncodeError) ∧
  (∀ ep request cfg ev x w h,
     carries L config request (event_header ep) cfg ev x →
     routed ep ev = false →
     puts (trace (handle L config ep request) w h) = []) ∧
  (carries Sample.lib Sample.config
     (Sample.web "a" [("X-GitHub-Event", Scenario.escaped_byte)] "{}")
     "x-github-event" Sample.cfg_a Scenario.escaped_byte (PDict []) ∧
   github Sample.lib Sample.config
     (Sample.web "a" [("X-GitHub-Event", Scenario.escaped_byte)] "{}")
     Scenario.utf8_stdout [] =
     ([EvPrint [PStr "Ignoring unknown github event";
                PStr Scenario.escaped_byte]],
      Raised UnicodeEncodeError)).
Proof.
  split_and!.
  - intros [] request w h Hrepo; simpl;
      by rewrite ?github_run, ?gitlab_run, Hrepo.
  - intros ep request cfg ev x w h (Hrepo & Hev & text & Htext & Hx).
    by rewrite handle_result, Hrepo, Hev, Htext, Hx.
  - intros ep request cfg ev x w h (Hrepo & Hev & text & Htext & Hx) Hr.
    destruct ep; unfold trace; cbn [handle event_header routed] in *;
      rewrite ?github_run, ?gitlab_run, Hrepo, Hev, Htext, Hx.
    + apply orb_false_elim in Hr as [H1 H2]. by rewrite H1, H2.
    + by rewrite Hr.
  - split_and!; [vm_compute; reflexivity..|].
    by exists "{}".
  - vm_compute. reflexivity.
Qed.

End Dispatch.

(** ** One worker for all repositories *)

Lemma git_loop_raised feed feed' w h e :
  result (git_loop feed) w h = Raised e →
  git_loop (feed ++ feed') w h = git_loop feed w h.
Proof.
  revert h. induction feed as [|[[cfg t] op] feed IH]; intros h; [done|].
  cbn [app git_loop]. apply bind_raised_ext. intros _ h1.
  apply bind_raised_ext. intros _ h2.
  apply bind_raised_ext. intros _ h3. apply IH.
Qed.

Lemma gitlab_loop_raised L feed feed' w h e :
  result (gitlab_loop L feed) w h = Raised e →
  gitlab_loop L (feed ++ feed') w h = gitlab_loop L feed w h.
Proof.
  revert h. induction feed as [|[[cfg t] ev] feed IH]; intros h; [done|].
  cbn [app gitlab_loop]. apply bind_raised_ext. intros _ h1.
  apply bind_raised_ext. intros _ h2.
  apply bind_raised_ext. intros _ h3. apply IH.
Qed.

(** A coroutine with one event. *)
Lemma lookup_singleton_Some {A} (x y : A) i :
  [x] !! i = Some y → i = 0%nat ∧ y = x.
Proof. destruct i as [|i]; [by intros [= ->]|by destruct i]. Qed.

Section Stops.

Variable L : pylib.
Variable config : config_t.

Lemma fail_fast_emit ev : is_io ev = false → fail_fast L (emit ev).
Proof. intros Hev. apply fail_fast_quiet. intros w h. by repeat constructor. Qed.

Lemma fail_fast_wait {A} : fail_fast L (@wait A).
Proof. apply fail_fast_quiet. intros w h. constructor. Qed.

Lemma fail_fast_run parts cwd : fail_fast L (run parts cwd).
Proof.
  intros w h i ev. unfold trace, result. rewrite run_run. cbn [fst snd].
  intros [-> ->]%lookup_singleton_Some Hf. cbn [take failed] in Hf.
  rewrite app_nil_r in Hf. split.
  - destruct (failure _) as [e|] eqn:Hfl; [by eexists|].
    by apply failure_None in Hfl.
  - intros j ev' Hj Hl. destruct j; [lia|done].
Qed.

Lemma failed_print w before args : ¬ failed L w before (EvPrint args).
Proof. by intros []. Qed.

(** The four shapes of the trace of an API call: the line announcing it,
    the request, the text of a refused answer, its code. *)
Lemma fail_fast_call {A} (m : M A) method :
  (∀ w h, ∃ said url hs data,
     (m w h = ([EvPrint said], Raised UnicodeEncodeError)) ∨
     ∃ rest r,
       m w h = (EvPrint said :: EvHttp method url hs data :: rest, r) ∧
       Forall (λ ev, is_io ev = false ∧ is_get ev = false) rest ∧
       (failed_answer L method (fetch w (io h) method url hs data) →
        ∃ e, r = Raised e)) →
  fail_fast L m.
Proof.
  intros Hm w h i ev Hi Hf. unfold trace, result in *.
  destruct (Hm w h) as (said & url & hs & data & [Hrun|(rest & r & Hrun & Hrest & Hr)]);
    rewrite Hrun in *; cbn [fst snd] in *.
  - apply lookup_singleton_Some in Hi as [-> ->]. by destruct Hf.
  - destruct i as [|[|i]].
    + injection Hi as <-. by destruct Hf.
    + injection Hi as <-. cbn [take failed] in Hf. rewrite io_print in Hf.
      split; [by apply Hr|].
      intros j ev' Hj Hl. destruct j as [|[|j]]; [lia..|].
      cbn in Hl. apply (Forall_lookup_1 _ _ _ _ Hrest Hl).
    + cbn in Hi. pose proof (Forall_lookup_1 _ _ _ _ Hrest Hi) as [Hio _].
      by destruct ev.
Qed.

Lemma fail_fast_github_post cfg ep data :
  fail_fast L (github_post L cfg ep data []).
Proof.
  apply (fail_fast_call _ "post"). intros w h.
  eexists _, _, _, _. rewrite github_post_run. cbn zeta.
  destruct (can_print w (PStr (github_api_url cfg ep))); [right|by left].
  destruct (fetch w _ _ _ _ _) as [code text|] eqn:Hfetch.
  - destruct (bool_decide (code ≠ 200) && bool_decide (code ≠ 201)) eqn:Hcode.
    + destruct (can_print w (PStr text)); eexists _, _;
        (split; [reflexivity|]); (split; [by repeat constructor|]);
        intros _; by eexists.
    + eexists _, _. split; [reflexivity|]. split; [constructor|].
      rewrite Hfetch. cbn [failed_answer].
      rewrite bool_decide_eq_true_2 by done.
      intros [[H1 H2]| ->]; [|by eexists].
      rewrite !bool_decide_eq_true_2 in Hcode by done. done.
  - eexists _, _. split; [reflexivity|]. split; [constructor|].
    intros _. by eexists.
Qed.

Lemma fail_fast_gitlab_get cfg ep args :
  fail_fast L (gitlab_get L cfg ep "get" args).
Proof.
  apply (fail_fast_call _ "get"). intros w h.
  eexists _, _, _, _. rewrite gitlab_get_run. cbn zeta.
  destruct (can_print w (PStr (add_args _ _ _))); [right|by left].
  destruct (fetch w _ _ _ _ _) as [code text|] eqn:Hfetch.
  - case_bool_decide as Hcode.
    + eexists _, _. split; [reflexivity|]. split; [by repeat constructor|].
      intros _. destruct (can_print w (PStr text)); by eexists.
    + eexists _, _. split; [reflexivity|]. split; [constructor|].
      rewrite Hfetch. cbn [failed_answer].
      rewrite bool_decide_eq_false_2 by done.
      intros [H1| ->]; [|by eexists].
      by destruct Hcode.
  - eexists _, _. split; [reflexivity|]. split; [constructor|].
    intros _. by eexists.
Qed.

End Stops.

(** One step of the syntax-directed proof that a coroutine is [fail_fast]. *)
Ltac fail_fast_step :=
  lazymatch goal with
  | |- fail_fast _ (bind _ _) => apply fail_fast_bind; [|intros ?]
  | |- fail_fast _ (ret _) => apply fail_fast_ret
  | |- fail_fast _ (raise _) => apply fail_fast_raise
  | |- fail_fast _ (lift _) => apply fail_fast_lift
  | |- fail_fast _ (print _) => apply fail_fast_print
  | |- fail_fast _ (emit _) => apply fail_fast_emit; reflexivity
  | |- fail_fast _ wait => apply fail_fast_wait
  | |- fail_fast _ (for_each _ _) => apply fail_fast_for_each; intros ?
  | |- fail_fast _ (run _ _) => apply fail_fast_run
  | |- fail_fast _ (github_post _ _ _ _ _) => apply fail_fast_github_post
  | |- fail_fast _ (gitlab_get _ _ _ _ _) => apply fail_fast_gitlab_get
  | |- fail_fast _ (if ?b then _ else _) => destruct b
  | |- fail_fast _ (match ?x with _ => _ end) => destruct x
  end.

Section SharedQueues.

Variable L : pylib.
Variable config : config_t.

Lemma fail_fast_git_pull_push cfg : fail_fast L (git_pull_push cfg).
Proof. unfold git_pull_push, git_run. repeat fail_fast_step. Qed.

Lemma fail_fast_init_git cfg : fail_fast L (init_git cfg).
Proof.
  unfold init_git, git_run. repeat fail_fast_step.
  apply fail_fast_git_pull_push.
Qed.

Lemma fail_fast_commit_status_set cfg commit test status url :
  fail_fast L (commit_status_set L cfg commit test status url).
Proof.
  unfold commit_status_set, github_commit_status_set. repeat fail_fast_step.
Qed.

Lemma fail_fast_init_statuses cfg : fail_fast L (init_statuses L cfg).
Proof.
  unfold init_statuses.
  repeat first [apply fail_fast_commit_status_set | fail_fast_step].
Qed.

Lemma fail_fast_gitlab_update_pipeline cfg ev :
  fail_fast L (gitlab_update_pipeline L cfg ev).
Proof.
  unfold gitlab_update_pipeline.
  repeat first [apply fail_fast_commit_status_set | fail_fast_step].
Qed.

Lemma fail_fast_git_task feed : fail_fast L (git_task config feed).
Proof.
  unfold git_task, git_bootstrap. apply fail_fast_bind.
  - apply fail_fast_for_each. intros [n cfg]. apply fail_fast_init_git.
  - intros _. induction feed as [|[[cfg t] op] feed IH];
      [apply fail_fast_wait|].
    cbn [git_loop].
    repeat first [apply fail_fast_git_pull_push | apply IH | fail_fast_step].
Qed.

Lemma fail_fast_gitlab_task feed : fail_fast L (gitlab_task L config feed).
Proof.
  unfold gitlab_task, gitlab_bootstrap. apply fail_fast_bind.
  - apply fail_fast_for_each. intros [n cfg]. apply fail_fast_init_statuses.
  - intros _. induction feed as [|[[cfg t] ev] feed IH];
      [apply fail_fast_wait|].
    cbn [gitlab_loop].
    repeat first [apply fail_fast_gitlab_update_pipeline | apply IH
                 | fail_fast_step].
Qed.

Lemma git_task_raised feed behind w h e :
  result (git_task config feed) w h = Raised e →
  git_task config (feed ++ behind) w h = git_task config feed w h.
Proof.
  unfold git_task. apply bind_raised_ext. intros _ h'. apply git_loop_raised.
Qed.

Lemma gitlab_task_raised feed behind w h e :
  result (gitlab_task L config feed) w h = Raised e →
  gitlab_task L config (feed ++ behind) w h = gitlab_task L config feed w h.
Proof.
  unfold gitlab_task. apply bind_raised_ext. intros _ h'.
  apply gitlab_loop_raised.
Qed.

(** C4, as amended.  The repositories share the one git queue and the one
    gitlab queue: an endpoint puts on the same queue whatever repository the
    request names.  Each queue has one worker, and the worker stops at the
    first failed input or output: when a subprocess of the git worker does
    not exit with 0, or a request of the status worker has no answer, a
    refused answer or an answer that does not parse, the worker raises,
    starts no subprocess and makes no request after it, and takes nothing
    more from its queue, for any repository: what is queued behind changes
    nothing. *)
Theorem failure_stops_worker :
  (∀ ep request w h q it,
     EvPut q it ∈ trace (handle L config ep request) w h →
     q = match ep with
         | GithubHook => GitQueue
         | GitlabHook => GitlabQueue
         end) ∧
  stops_at_failure L (git_task config) ∧
  stops_at_failure L (gitlab_task L config).
Proof.
  split; [|split].
  - intros [] request w h q it Hin; simpl in *.
    + by apply github_puts in Hin as [-> _].
    + by apply gitlab_puts in Hin as [-> _].
  - intros feed behind w h i ev Hi Hf.
    destruct (fail_fast_git_task feed w h i ev Hi Hf) as [[e He] Hlater].
    split_and!; [by eexists|done|by eapply git_task_raised].
  - intros feed behind w h i ev Hi Hf.
    destruct (fail_fast_gitlab_task feed w h i ev Hi Hf) as [[e He] Hlater].
    split_and!; [by eexists|done|by eapply gitlab_task_raised].
Qed.

End SharedQueues.

(** ** The payload of a mirror task *)

Lemma respects_bind {A B} (m : M A) (f : A → M B) :
  respects m → (∀ a, respects (f a)) → respects (bind m f).
Proof.
  intros Hm Hf w h h' Hio. unfold bind. rewrite (Hm w h h' Hio).
  destruct (m w h') as [t1 [a| |]]; try done.
  by rewrite (Hf a w (h ++ t1) (h' ++ t1)) by (rewrite !io_app; congruence).
Qed.

Lemma respects_run parts cwd : respects (run parts cwd).
Proof.
  apply respects_bind.
  - intros w h h' Hio. unfold exec. by rewrite Hio.
  - intros c. by case_bool_decide.
Qed.

Lemma respects_git_pull_push cfg : respects (git_pull_push cfg).
Proof.
  unfold git_pull_push, git_run.
  repeat (apply respects_bind; [apply respects_run|intros _]).
  apply respects_run.
Qed.

Lemma git_loop_payload (p : event → bool) feed feed' w :
  (∀ q it, p (EvGet q it) = false) →
  Forall2 (λ a b : item, a.1.1 = b.1.1) feed feed' →
  ∀ h h', io h = io h' →
    List.filter p (trace (git_loop feed) w h) =
      List.filter p (trace (git_loop feed') w h') ∧
    result (git_loop feed) w h = result (git_loop feed') w h'.
Proof.
  intros Hp HF.
  induction HF as [|[[cfg t] op] [[cfg' t'] op'] feed feed' Hc HF IH];
    intros h h' Hio; [done|].
  simpl in Hc. subst cfg'.
  unfold trace at 1 2, result at 1 2. rewrite !git_loop_cons. cbn zeta.
  cbn [fst snd]. rewrite !trace_bind, !result_bind.
  set (h1 := h ++ _). set (h1' := h' ++ _).
  assert (io h1 = io h1') as Hio1.
  { subst h1 h1'. rewrite !io_app. by rewrite Hio. }
  pose proof (respects_git_pull_push cfg w h1 h1' Hio1) as Hpp.
  destruct (git_pull_push cfg w h1') as [tp r] eqn:Hrun.
  assert (trace (git_pull_push cfg) w h1 = tp) as Ht1
    by (unfold trace; by rewrite Hpp).
  assert (result (git_pull_push cfg) w h1 = r) as Hr1
    by (unfold result; by rewrite Hpp).
  assert (trace (git_pull_push cfg) w h1' = tp) as Ht1'
    by (unfold trace; by rewrite Hrun).
  assert (result (git_pull_push cfg) w h1' = r) as Hr1'
    by (unfold result; by rewrite Hrun).
  rewrite Ht1, Hr1, Ht1', Hr1'.
  destruct r as [[]| |].
  - destruct (IH (h1 ++ tp) (h1' ++ tp)) as [IHt IHr].
    { rewrite !io_app. by rewrite Hio1. }
    split; [|done].
    rewrite !(List.filter_app _ (_ :: _)), !(List.filter_app _ tp).
    cbn [List.filter]. rewrite !Hp. by rewrite IHt.
  - rewrite !(List.filter_app _ (_ :: _)). cbn [List.filter]. by rewrite !Hp.
  - rewrite !(List.filter_app _ (_ :: _)). cbn [List.filter]. by rewrite !Hp.
Qed.

Section Payload.

Variable config : config_t.

(** C10.  Two runs of the git worker over queues whose items carry the same
    configurations, in the same order, but any event kinds and payloads,
    run the same sequence of git commands, add the same events apart from
    the items taken, and end the same way. *)
Theorem mirror_payload_noninterference :
  ∀ feed feed' w h,
    Forall2 (λ a b : item, a.1.1 = b.1.1) feed feed' →
    execs (trace (git_task config feed) w h) =
      execs (trace (git_task config feed') w h) ∧
    List.filter (λ ev, negb (is_get ev)) (trace (git_task config feed) w h) =
      List.filter (λ ev, negb (is_get ev)) (trace (git_task config feed') w h) ∧
    result (git_task config feed) w h = result (git_task config feed') w h.
Proof.
  intros feed feed' w h HF. unfold git_task, execs.
  rewrite !trace_bind, !result_bind.
  destruct (result (git_bootstrap config) w h) as [[]| |]; try done.
  destruct (git_loop_payload is_exec feed feed' w (λ _ _, eq_refl) HF
              (h ++ trace (git_bootstrap config) w h)
              (h ++ trace (git_bootstrap config) w h) eq_refl) as [He Hr].
  destruct (git_loop_payload (λ ev, negb (is_get ev)) feed feed' w
              (λ _ _, eq_refl) HF
              (h ++ trace (git_bootstrap config) w h)
              (h ++ trace (git_bootstrap config) w h) eq_refl) as [Hg _].
  rewrite !List.filter_app. by rewrite He, Hg, Hr.
Qed.

End Payload.

(** ** The event kind the status worker expects *)

Section EventKind.

Variable L : pylib.
Variable config : config_t.

Lemma gitlab_loop_unknown cfg t ev feed w h :
  t ≠ "Pipeline Hook" →
  gitlab_loop L ((cfg, t, ev) :: feed) w h =
    ([EvGet GitlabQueue (cfg, t, ev);
      EvPrint [PStr "GitLab Task: processing event"; PStr t]],
     Raised (if can_print w (PStr t) then Exception "Unknown event type"
             else UnicodeEncodeError)).
Proof.
  intros Ht. rewrite gitlab_loop_cons. cbn zeta.
  destruct (can_print w (PStr t)); [|done].
  by rewrite bool_decide_eq_false_2.
Qed.

Lemma only_gitlab_loop feed :
  Forall (λ it : item, it.1.2 = "Pipeline Hook") feed →
  only (λ _, True) not_unknown_event (gitlab_loop L feed).
Proof.
  induction 1 as [|[[cfg t] ev] feed Ht HF IH].
  - intros w h. split; [constructor|discriminate].
  - simpl in Ht. subst t. cbn [gitlab_loop].
    rewrite bool_decide_eq_true_2 by done.
    repeat only_step; try done.
    eapply only_weaken, only_gitlab_update_pipeline; done.
Qed.

(** C9.  The loop of [gitlab_task] raises when the item it takes has
    another kind than 'Pipeline Hook': it prints the kind and raises
    'Unknown event type' (UnicodeEncodeError out of the print when the
    standard output cannot write the kind), and nothing more is taken from
    the queue.  When every item of the queue was put there by an endpoint,
    [gitlab_task] never raises 'Unknown event type'. *)
Theorem unknown_event_kind :
  (∀ cfg t ev feed w h,
     t ≠ "Pipeline Hook" →
     gitlab_loop L ((cfg, t, ev) :: feed) w h =
       ([EvGet GitlabQueue (cfg, t, ev);
         EvPrint [PStr "GitLab Task: processing event"; PStr t]],
        Raised (if can_print w (PStr t) then Exception "Unknown event type"
                else UnicodeEncodeError))) ∧
  (∀ cfg t ev feed w h,
     t ≠ "Pipeline Hook" →
     result (gitlab_bootstrap L config) w h = Done tt →
     result (gitlab_task L config ((cfg, t, ev) :: feed)) w h =
       Raised (if can_print w (PStr t) then Exception "Unknown event type"
               else UnicodeEncodeError)) ∧
  (∀ feed w h,
     Forall (enqueued_by_dispatch L config GitlabQueue) feed →
     result (gitlab_task L config feed) w h ≠
       Raised (Exception "Unknown event type")).
Proof.
  split; [|split].
  - apply gitlab_loop_unknown.
  - intros cfg t ev feed w h Ht Hb. unfold gitlab_task.
    rewrite result_bind, Hb. unfold result.
    by rewrite gitlab_loop_unknown.
  - intros feed w h Hfeed Hr.
    assert (Forall (λ it : item, it.1.2 = "Pipeline Hook") feed) as Hk.
    { eapply Forall_impl; [exact Hfeed|].
      intros it (ep & request & w' & h' & Hin). destruct ep; simpl in Hin.
      - by apply github_puts in Hin as [[=] _].
      - by apply gitlab_puts in Hin as [_ ?]. }
    assert (only (λ _, True) not_unknown_event (gitlab_task L config feed))
      as Ho.
    { unfold gitlab_task. apply only_bind.
      - eapply only_weaken, only_gitlab_bootstrap; done.
      - intros _. by apply only_gitlab_loop. }
    destruct (Ho w h) as [_ Hq]. by apply Hq in Hr.
Qed.

End EventKind.

(** ** The backfill *)

Lemma append_assoc (s1 s2 s3 : string) : (s1 +:+ s2) +:+ s3 = s1 +:+ s2 +:+ s3.
Proof.
  induction s1 as [|c s1 IH]; [done|].
  change (String c ((s1 +:+ s2) +:+ s3) = String c (s1 +:+ s2 +:+ s3)).
  by rewrite IH.
Qed.

Lemma updates_app t1 t2 : updates (t1 ++ t2) = updates t1 ++ updates t2.
Proof. apply List.filter_app. Qed.

Lemma updates_http t : updates (List.filter is_http t) = updates t.
Proof.
  induction t as [|ev t IH]; [done|].
  destruct ev; simpl; try done. unfold updates in *. simpl.
  by rewrite IH.
Qed.

Lemma updates_bind {A B} (m : M A) (f : A → M B) w h :
  updates (trace (bind m f) w h) =
    match result m w h with
    | Done a => updates (trace m w h) ++ updates (trace (f a) w (h ++ trace m w h))
    | _ => updates (trace m w h)
    end.
Proof. rewrite trace_bind. destruct (result m w h); by rewrite ?updates_app. Qed.

Lemma updates_bind_lift {A B} (r : exn + A) (f : A → M B) w h :
  updates (trace (bind (lift r) f) w h) =
    match r with
    | inr a => updates (trace (f a) w h)
    | inl _ => []
    end.
Proof. destruct r; [done|]. cbn [lift]. unfold trace. by rewrite bind_ret. Qed.

Lemma for_each_updates {A} (l : list A) (body : A → M unit) w k :
  (∀ x h, x ∈ l → (List.length (updates (trace (body x) w h)) ≤ k)%nat) →
  ∀ h, (List.length (updates (trace (for_each l body) w h)) ≤ List.length l * k)%nat.
Proof.
  induction l as [|x l IH]; intros Hb h; [simpl; lia|].
  cbn [for_each]. rewrite updates_bind.
  pose proof (Hb x h (list_elem_of_here _ _)) as Hx.
  destruct (result (body x) w h); simpl; [|lia..].
  rewrite length_app.
  specialize (IH (λ y h' Hy, Hb y h' (list_elem_of_further _ _ _ Hy))
                (h ++ trace (body x) w h)).
  lia.
Qed.

Section Accepted.

Variable L : pylib.

(** A status update in a world that prints everything and where github
    accepts every status. *)
Lemma commit_status_set_accepted cfg c t status url w h :
  prints_all w → posts_accepted L w →
  commit_status_set L cfg (PStr c) (PStr t) status url w h =
    (match gh_status_of status with
     | Some g =>
         [EvPrint [PStr "Invoking github API:";
                   PStr (github_api_url cfg ("statuses/" +:+ c))];
          update_request L cfg c
            (status_data g url (description_of cfg t) ("gitlab/" +:+ t))]
     | None => [unknown_status_log status]
     end, Done tt).
Proof.
  intros Hw Hacc.
  destruct (gh_status_of status) as [g|] eqn:Hg.
  - rewrite (commit_status_set_known L cfg c t status url g w h Hg).
    rewrite github_commit_status_set_run. cbn zeta. rewrite Hw.
    destruct (Hacc (io h) (github_api_url cfg ("statuses/" +:+ c))
                (github_api_headers cfg)
                (Some (json_dumps L (status_data g url (description_of cfg t)
                                       ("gitlab/" +:+ t)))))
      as (code & text & v & -> & Hcode & ->).
    by destruct Hcode as [-> | ->].
  - by rewrite commit_status_set_unknown, Hw.
Qed.

Lemma gitlab_get_answers cfg ep args l w h :
  prints_all w →
  answers L w (add_args (gitlab_api_url L cfg ep) true args)
    (gitlab_api_headers cfg) l →
  ∃ v,
    gitlab_get L cfg ep "get" args w h =
      ([EvPrint [PStr "Invoking gitlab API:";
                 PStr (add_args (gitlab_api_url L cfg ep) true args)];
        EvHttp "get" (add_args (gitlab_api_url L cfg ep) true args)
          (gitlab_api_headers cfg) None], Done v) ∧
    py_iter v = inr l.
Proof.
  intros Hw Hans. destruct (Hans (io h)) as (text & v & Hfetch & Hv & Hl).
  exists v. split; [|done].
  rewrite gitlab_get_run. cbn zeta. rewrite Hw, Hfetch.
  rewrite bool_decide_eq_false_2 by (intros Hne; by apply Hne).
  by rewrite Hv.
Qed.

End Accepted.

Section Backfill.

Variable L : pylib.
Variable config : config_t.

Lemma pipelines_url_eq cfg :
  pipelines_url L cfg =
    gitlab_api_url L cfg "pipelines"
    +:+ "?pagination=keyset&order_by=updated_at&sort=desc&per_page=5".
Proof.
  unfold pipelines_url. cbn [add_args negb].
  generalize (gitlab_api_url L cfg "pipelines"). intros u.
  rewrite !append_assoc. reflexivity.
Qed.

Lemma jobs_url_eq cfg plid :
  jobs_url L cfg plid =
    gitlab_api_url L cfg ("pipelines/" +:+ py_str L plid +:+ "/jobs")
    +:+ "?per_page=100".
Proof.
  unfold jobs_url. cbn [add_args negb].
  generalize (gitlab_api_url L cfg ("pipelines/" +:+ py_str L plid +:+ "/jobs")).
  intros u. rewrite !append_assoc. reflexivity.
Qed.

Lemma gitlab_get_updates cfg ep args w h :
  updates (trace (gitlab_get L cfg ep "get" args) w h) = [].
Proof.
  unfold trace. rewrite gitlab_get_run. cbn zeta.
  destruct (can_print w _); [|done].
  destruct (fetch w _ _ _ _ _) as [status text|]; [|done].
  by case_bool_decide.
Qed.

Lemma gitlab_get_done cfg ep args w h v :
  result (gitlab_get L cfg ep "get" args) w h = Done v →
  ∃ text, fetch w (io h) "get" (add_args (gitlab_api_url L cfg ep) true args)
            (gitlab_api_headers cfg) None = Resp 200 text ∧
          json_loads L text = Some v.
Proof.
  unfold result. rewrite gitlab_get_run. cbn zeta.
  destruct (can_print w _); [|done].
  destruct (fetch w _ _ _ _ _) as [status text|]; [|done].
  case_bool_decide as Hs; simpl; [by destruct (can_print w _)|].
  destruct (json_loads L text) eqn:Hv; [|done]. intros [= ->].
  exists text. split; [|done].
  by destruct (decide (status = 200)) as [->|].
Qed.

Lemma commit_status_set_updates cfg commit test status url w h :
  (List.length (updates (trace (commit_status_set L cfg commit test status url)
                           w h)) ≤ 1)%nat.
Proof.
  destruct (gh_status_of status) as [g|] eqn:Hg.
  - unfold commit_status_set. rewrite Hg.
    destruct test; try (simpl; lia).
    destruct commit; try (simpl; lia).
    rewrite <- updates_http, github_commit_status_set_http.
    destruct (can_print w _); simpl; lia.
  - unfold trace. rewrite commit_status_set_unknown by done. simpl. lia.
Qed.

Lemma init_statuses_first cfg w h :
  head (List.filter is_http (trace (init_statuses L cfg) w h)) =
    if can_print w (PStr (pipelines_url L cfg))
    then Some (EvHttp "get" (pipelines_url L cfg) (gitlab_api_headers cfg) None)
    else None.
Proof.
  unfold init_statuses. unfold trace. rewrite bind_print_plain by reflexivity.
  cbn [fst List.filter is_http]. rewrite trace_bind.
  set (m := gitlab_get _ _ _ _ _).
  set (h1 := h ++ _).
  destruct (can_print w (PStr (pipelines_url L cfg))) eqn:Hp.
  - assert (∃ t, trace m w h1 =
               EvPrint [PStr "Invoking gitlab API:"; PStr (pipelines_url L cfg)]
               :: EvHttp "get" (pipelines_url L cfg) (gitlab_api_headers cfg) None
               :: t) as [t Ht].
    { subst m. unfold trace. rewrite gitlab_get_run. cbn zeta.
      fold (pipelines_url L cfg). rewrite Hp.
      destruct (fetch w _ _ _ _ _) as [status text|]; [|by eexists].
      case_bool_decide; by eexists. }
    rewrite Ht. by destruct (result m w _).
  - assert (m w h1 =
              ([EvPrint [PStr "Invoking gitlab API:";
                         PStr (pipelines_url L cfg)]],
               Raised UnicodeEncodeError)) as Hrun.
    { subst m. rewrite gitlab_get_run. cbn zeta.
      fold (pipelines_url L cfg). by rewrite Hp. }
    unfold trace, result. by rewrite Hrun.
Qed.

Lemma init_statuses_updates cfg w h p k :
  (∀ l, listed L w (pipelines_url L cfg) (gitlab_api_headers cfg) l →
        (List.length l ≤ p)%nat) →
  (∀ plid l, listed L w (jobs_url L cfg plid) (gitlab_api_headers cfg) l →
             (List.length l ≤ k)%nat) →
  (List.length (updates (trace (init_statuses L cfg) w h)) ≤ p * k)%nat.
Proof.
  intros Hp Hj. unfold init_statuses.
  unfold trace. rewrite bind_print_plain by reflexivity.
  cbn [fst]. fold (updates [] : list event).
  change (updates (?e :: ?t)) with (updates ([e] ++ t)).
  rewrite updates_app. cbn [updates List.filter is_post app].
  fold (updates : list event → list event).
  rewrite updates_bind, gitlab_get_updates. cbn [app].
  destruct (result (gitlab_get _ _ _ _ _) w _) as [v| |] eqn:Hget;
    [|simpl; lia..].
  apply gitlab_get_done in Hget as (text & Hfetch & Hv).
  rewrite updates_bind_lift.
  destruct (py_iter v) as [e|pls] eqn:Hpls; [simpl; lia|].
  assert (List.length pls ≤ p)%nat as Hlen.
  { apply Hp. eexists. exists text, v. split; [exact Hfetch|done]. }
  rewrite updates_bind.
  set (body := λ pl : pyval, _).
  assert (∀ h', List.length (updates (trace (for_each pls body) w h'))
                ≤ List.length pls * k)%nat as Hloop.
  { apply for_each_updates. intros pl h' _. subst body. cbn beta.
    rewrite updates_bind_lift.
    destruct (py_getitem pl "id") as [e|plid]; [simpl; lia|].
    rewrite updates_bind, gitlab_get_updates. cbn [app].
    destruct (result (gitlab_get _ _ _ _ _) w _) as [v'| |] eqn:Hget';
      [|simpl; lia..].
    apply gitlab_get_done in Hget' as (text' & Hfetch' & Hv').
    rewrite updates_bind_lift.
    destruct (py_iter v') as [e|jobs] eqn:Hjobs; [simpl; lia|].
    assert (List.length jobs ≤ k)%nat as Hlen'.
    { apply (Hj plid). eexists. exists text', v'. split; [exact Hfetch'|done]. }
    etrans; [apply for_each_updates with (k := 1%nat)|lia].
    intros j h'' _.
    repeat (rewrite updates_bind_lift;
            destruct (py_getitem _ _) as [?|?]; [simpl; lia|]).
    apply commit_status_set_updates. }
  set (h1 := h ++ [EvPrint [PStr "initializing commit statuses"]]) in *.
  set (tg := trace (gitlab_get L cfg "pipelines" "get" _) w h1) in *.
  specialize (Hloop (h1 ++ tg)).
  assert (List.length pls * k ≤ p * k)%nat by nia.
  destruct (result (for_each pls body) w _); [|lia..].
  rewrite length_app.
  assert (updates (trace (print [PStr "Commit statuses initialized"]) w
                     ((h1 ++ tg) ++ trace (for_each pls body) w (h1 ++ tg))) = [])
    as -> by (by rewrite trace_print).
  cbn [List.length]. lia.
Qed.

(** The jobs of one pipeline in a world that prints everything and where
    github accepts every status. *)
Lemma backfill_jobs_accepted cfg jobs w :
  prints_all w → posts_accepted L w → Forall backfill_job jobs →
  ∀ h,
    let body := λ j,
      c <- lift (py_getitem j "commit") ;;
      commit <- lift (py_getitem c "id") ;;
      name <- lift (py_getitem j "name") ;;
      status <- lift (py_getitem j "status") ;;
      web_url <- lift (py_getitem j "web_url") ;;
      commit_status_set L cfg commit name status web_url in
    result (for_each jobs body) w h = Done tt ∧
    List.filter is_http (trace (for_each jobs body) w h) =
      List.concat (backfill_update L cfg <$> jobs).
Proof.
  intros Hw Hacc Hjs. induction Hjs as [|j js Hj Hjs IH]; intros h body; [done|].
  destruct Hj as (c & commit & name & status & url & Hc & Hcommit & Hname
                  & Hstatus & Hurl).
  assert (∃ tj, body j w h = (tj, Done tt) ∧
                List.filter is_http tj = backfill_update L cfg j)
    as (tj & Hbody & Hupd).
  { eexists. split.
    - subst body. cbn beta.
      rewrite Hc; cbn [lift]; rewrite bind_ret.
      rewrite Hcommit; cbn [lift]; rewrite bind_ret.
      rewrite Hname; cbn [lift]; rewrite bind_ret.
      rewrite Hstatus; cbn [lift]; rewrite bind_ret.
      rewrite Hurl; cbn [lift]; rewrite bind_ret.
      by apply commit_status_set_accepted.
    - unfold backfill_update. rewrite Hc, Hcommit, Hname, Hstatus, Hurl.
      by destruct (gh_status_of status). }
  cbn [for_each]. unfold trace, result.
  rewrite (bind_done _ _ w h tj tt Hbody). cbn [fst snd].
  destruct (IH (h ++ tj)) as [IHr IHt].
  split; [exact IHr|].
  rewrite List.filter_app, Hupd. cbn [fmap list_fmap List.concat].
  f_equal. exact IHt.
Qed.

Lemma backfill_pipelines_accepted cfg pls pages w :
  prints_all w → posts_accepted L w →
  Forall2 (λ pl jobs,
             ∃ plid, py_getitem pl "id" = inr plid ∧
                     answers L w (jobs_url L cfg plid) (gitlab_api_headers cfg)
                       jobs ∧
                     Forall backfill_job jobs) pls pages →
  ∀ h,
    let body := λ pl,
      plid <- lift (py_getitem pl "id") ;;
      jobs <- gitlab_get L cfg ("pipelines/" +:+ py_str L plid +:+ "/jobs") "get"
                [("per_page", "100")] ;;
      jobs <- lift (py_iter jobs) ;;
      for_each jobs (λ j,
        c <- lift (py_getitem j "commit") ;;
        commit <- lift (py_getitem c "id") ;;
        name <- lift (py_getitem j "name") ;;
        status <- lift (py_getitem j "status") ;;
        web_url <- lift (py_getitem j "web_url") ;;
        commit_status_set L cfg commit name status web_url) in
    result (for_each pls body) w h = Done tt ∧
    List.filter is_http (trace (for_each pls body) w h) =
      List.concat (zip_with (pipeline_requests L cfg) pls pages).
Proof.
  intros Hw Hacc HF.
  induction HF as [|pl jobs pls pages (plid & Hid & Hans & Hjobs) HF IH];
    intros h body; [done|].
  assert (∃ tp, body pl w h = (tp, Done tt) ∧
                List.filter is_http tp = pipeline_requests L cfg pl jobs)
    as (tp & Hbody & Hreq).
  { subst body. cbn beta.
    rewrite Hid; cbn [lift]; rewrite bind_ret.
    destruct (gitlab_get_answers L cfg _ _ jobs w h Hw Hans) as (v & Hget & Hv).
    rewrite (bind_done _ _ w h _ v Hget).
    unfold trace, result. rewrite Hv; cbn [lift]; rewrite bind_ret.
    eexists. split.
    - apply injective_projections; cbn [fst snd]; [reflexivity|].
      apply (backfill_jobs_accepted cfg jobs w Hw Hacc Hjobs).
    - rewrite List.filter_app. cbn [List.filter is_http app].
      unfold pipeline_requests. rewrite Hid. unfold jobs_request, jobs_url.
      f_equal.
      apply (backfill_jobs_accepted cfg jobs w Hw Hacc Hjobs). }
  cbn [for_each]. unfold trace, result.
  rewrite (bind_done _ _ w h tp tt Hbody). cbn [fst snd].
  destruct (IH (h ++ tp)) as [IHr IHt].
  split; [exact IHr|].
  rewrite List.filter_app, Hreq. cbn [zip_with List.concat].
  f_equal. exact IHt.
Qed.

Lemma init_statuses_accepted cfg pls pages w h :
  prints_all w → posts_accepted L w →
  answers L w (pipelines_url L cfg) (gitlab_api_headers cfg) pls →
  Forall2 (λ pl jobs,
             ∃ plid, py_getitem pl "id" = inr plid ∧
                     answers L w (jobs_url L cfg plid) (gitlab_api_headers cfg)
                       jobs ∧
                     Forall backfill_job jobs) pls pages →
  result (init_statuses L cfg) w h = Done tt ∧
  List.filter is_http (trace (init_statuses L cfg) w h) =
    EvHttp "get" (pipelines_url L cfg) (gitlab_api_headers cfg) None
    :: List.concat (zip_with (pipeline_requests L cfg) pls pages).
Proof.
  intros Hw Hacc Hans HF. unfold init_statuses, trace, result.
  rewrite bind_print_plain by reflexivity. cbn [fst snd].
  set (h1 := h ++ _).
  destruct (gitlab_get_answers L cfg _ _ pls w h1 Hw Hans) as (v & Hget & Hv).
  unfold trace, result. rewrite (bind_done _ _ w h1 _ v Hget).
  unfold trace, result. rewrite Hv; cbn [lift]; rewrite bind_ret.
  set (h2 := h1 ++ _).
  destruct (backfill_pipelines_accepted cfg pls pages w Hw Hacc HF h2)
    as [Hr Ht].
  cbn zeta in Hr, Ht.
  rewrite bind_run. unfold trace, result in *. rewrite Hr.
  rewrite print_plain by reflexivity.
  cbn [fst snd]. split; [done|].
  cbn [app List.filter is_http]. unfold pipelines_url. f_equal.
  rewrite List.filter_app, Ht. cbn [List.filter is_http]. by rewrite app_nil_r.
Qed.

Lemma backfill_update_request cfg commit data :
  backfill_event L cfg (update_request L cfg commit data).
Proof. right. right. by exists commit, data. Qed.

Lemma only_backfill_commit_status_set cfg commit test status url :
  only (backfill_event L cfg) (λ _, True)
    (commit_status_set L cfg commit test status url).
Proof.
  unfold commit_status_set, github_commit_status_set, github_post.
  cbn [add_args].
  repeat only_step; try done.
  apply backfill_update_request.
Qed.

Lemma only_backfill cfg :
  only (backfill_event L cfg) (λ _, True) (init_statuses L cfg).
Proof.
  unfold init_statuses, gitlab_get.
  rewrite !bool_decide_eq_true_2 by done.
  repeat first [apply only_backfill_commit_status_set | only_step]; try done.
  - by left.
  - right. left. eexists. reflexivity.
Qed.

(** C7, as amended.  The backfill asks for the five pipelines updated last
    and, for each pipeline of the answer, for the first hundred of its
    jobs: one query with per_page=100 and no further page.  Each job gives
    at most one commit status update and none when its status is not
    recognized, so that answers of at most p pipelines with at most k jobs
    each give at most p * k updates (15 for 5 and 3).  Where everything is
    printed, gitlab answers and github accepts every status, the requests
    of the backfill are the pipelines query and then, pipeline after
    pipeline, its jobs query and one update for each listed job with a
    recognized status, in order; and the backfill returns.  It makes no
    other request in any world, and it stops at the first request that
    failed.  In [gitlab_task] every event of the backfill comes before the
    first item taken from the queue. *)
Theorem backfill_bound :
  (∀ cfg plid,
     pipelines_url L cfg =
       gitlab_api_url L cfg "pipelines"
       +:+ "?pagination=keyset&order_by=updated_at&sort=desc&per_page=5" ∧
     jobs_url L cfg plid =
       gitlab_api_url L cfg ("pipelines/" +:+ py_str L plid +:+ "/jobs")
       +:+ "?per_page=100") ∧
  (∀ cfg w h,
     head (List.filter is_http (trace (init_statuses L cfg) w h)) =
       if can_print w (PStr (pipelines_url L cfg))
       then Some (EvHttp "get" (pipelines_url L cfg) (gitlab_api_headers cfg)
                    None)
       else None) ∧
  (∀ cfg, only (backfill_event L cfg) (λ _, True) (init_statuses L cfg)) ∧
  (∀ cfg, fail_fast L (init_statuses L cfg)) ∧
  (∀ cfg commit test status url w h,
     (List.length (updates (trace (commit_status_set L cfg commit test status url)
                              w h)) ≤ 1)%nat ∧
     (status ∉ PStr <$> recognized →
      updates (trace (commit_status_set L cfg commit test status url) w h) = [])) ∧
  (∀ cfg w h p k,
     (∀ l, listed L w (pipelines_url L cfg) (gitlab_api_headers cfg) l →
           (List.length l ≤ p)%nat) →
     (∀ plid l, listed L w (jobs_url L cfg plid) (gitlab_api_headers cfg) l →
                (List.length l ≤ k)%nat) →
     (List.length (updates (trace (init_statuses L cfg) w h)) ≤ p * k)%nat) ∧
  (∀ cfg pls pages w h,
     prints_all w → posts_accepted L w →
     answers L w (pipelines_url L cfg) (gitlab_api_headers cfg) pls →
     Forall2 (λ pl jobs,
                ∃ plid, py_getitem pl "id" = inr plid ∧
                        answers L w (jobs_url L cfg plid)
                          (gitlab_api_headers cfg) jobs ∧
                        Forall backfill_job jobs) pls pages →
     result (init_statuses L cfg) w h = Done tt ∧
     List.filter is_http (trace (init_statuses L cfg) w h) =
       EvHttp "get" (pipelines_url L cfg) (gitlab_api_headers cfg) None
       :: List.concat (zip_with (pipeline_requests L cfg) pls pages)) ∧
  (∀ feed w h i q it,
     trace (gitlab_task L config feed) w h !! i = Some (EvGet q it) →
     ∀ j ev, trace (gitlab_bootstrap L config) w h !! j = Some ev →
       trace (gitlab_task L config feed) w h !! j = Some ev ∧ (j < i)%nat).
Proof.
  split_and!.
  - intros cfg plid. split; [apply pipelines_url_eq|apply jobs_url_eq].
  - apply init_statuses_first.
  - apply only_backfill.
  - apply fail_fast_init_statuses.
  - intros cfg commit test status url w h.
    split; [apply commit_status_set_updates|].
    intros Hs. unfold trace.
    by rewrite commit_status_set_unknown by by apply gh_status_of_unrecognized.
  - apply init_statuses_updates.
  - apply init_statuses_accepted.
  - intros feed w h i q it Hi j ev Hj.
    destruct (drain_after_bootstrap _ _ _ w h i q it
                (only_gitlab_bootstrap L config) Hi) as (Hd & Hle & Htake).
    apply lookup_lt_Some in Hj as Hlt. split; [|lia].
    fold (gitlab_task L config feed) in Htake.
    rewrite <- Htake in Hj. by rewrite lookup_take_lt in Hj.
Qed.

End Backfill.

(** ** The theorems at the sample inputs *)

(** Decide a closed proposition by evaluation. *)
Ltac by_compute := apply (bool_decide_unpack _); vm_compute; exact I.

Lemma unrecognized_str (s : string) :
  s ∉ recognized → PStr s ∉ PStr <$> recognized.
Proof. intros Hs [s' [[= <-] Hin]]%list_elem_of_fmap. done. Qed.

Lemma good_prints_all : prints_all Sample.good.
Proof. intros v. unfold can_print. apply orb_true_r. Qed.

Lemma good_posts_accepted : posts_accepted Sample.lib Sample.good.
Proof.
  intros h url hs data. exists 201, "{}", (PDict []).
  split_and!; [reflexivity|by right|reflexivity].
Qed.

Lemma status_mapping_witness : gh_status_of (PStr "bogus") = None.
Proof.
  destruct (status_mapping Sample.lib) as (_ & _ & _ & _ & _ & _ & H & _).
  apply H. by_compute.
Defined.


Lemma skipped_event_unrecognized : unrecognized_event Sample.skipped_event.
Proof.
  eexists _, _, _, _. repeat split; try reflexivity.
  repeat constructor; eexists _, _, _;
    (repeat split; [reflexivity..|]);
    apply unrecognized_str; by_compute.
Qed.

Lemma unrecognized_status_dropped_witness :
  commit_status_set Sample.lib Sample.cfg_a (PStr "c0ffee") (PStr "lint")
    (PStr "skipped") PNone Sample.good [] =
    ([unknown_status_log (PStr "skipped")], Done tt) ∧
  commit_status_set Sample.lib Sample.cfg_a (PStr "c0ffee") (PStr "lint")
    (PStr Scenario.surrogate) PNone Scenario.utf8_stdout [] =
    ([unknown_status_log (PStr Scenario.surrogate)],
     Raised UnicodeEncodeError) ∧
  ∃ log,
    updates log = [] ∧
    trace (gitlab_loop Sample.lib
             [(Sample.cfg_a, "Pipeline Hook", Sample.skipped_event);
              Sample.hook_a]) Sample.good [] =
      EvGet GitlabQueue (Sample.cfg_a, "Pipeline Hook", Sample.skipped_event)
      :: EvPrint [PStr "GitLab Task: processing event"; PStr "Pipeline Hook"]
      :: log ++
         trace (gitlab_loop Sample.lib [Sample.hook_a]) Sample.good
           ([] ++ EvGet GitlabQueue
                    (Sample.cfg_a, "Pipeline Hook", Sample.skipped_event)
               :: EvPrint [PStr "GitLab Task: processing event";
                           PStr "Pipeline Hook"]
               :: log).
Proof.
  destruct (unrecognized_status_dropped Sample.lib) as (Hset & Hloop & _).
  split_and!.
  - etrans; [apply Hset; apply unrecognized_str; by_compute|reflexivity].
  - etrans; [apply Hset; apply unrecognized_str; by_compute|reflexivity].
  - destruct (Hloop Sample.cfg_a Sample.skipped_event [Sample.hook_a]
                Sample.good [] skipped_event_unrecognized good_prints_all)
      as (log & Hlog & Hrun).
    exists log. split.
    + clear Hrun. induction Hlog as [|ev log [st ->] _ IH]; [done|exact IH].
    + unfold trace at 1. by rewrite Hrun.
Defined.

Lemma bootstrap_before_drain_witness :
  result (git_bootstrap Sample.config) Sample.good [] = Done tt ∧
  result (gitlab_bootstrap Sample.lib Sample.config) Sample.good [] = Done tt.
Proof.
  destruct (bootstrap_before_drain Sample.lib Sample.config) as [Hgit Hgitlab].
  split.
  - apply (Hgit [Sample.push_a] Sample.good [] 14%nat GitQueue Sample.push_a).
    vm_compute. reflexivity.
  - apply (Hgitlab [Sample.hook_a] Sample.good [] 78%nat GitlabQueue
             Sample.hook_a).
    vm_compute. reflexivity.
Defined.

Lemma never_fails_for_b : never_fails_for Sample.a_broken Sample.cfg_b.
Proof. intros h argv cwd [->|[-> _]]; vm_compute; reflexivity. Qed.

Lemma mirror_isolation_counterexample : ¬ mirror_isolation Sample.config.
Proof.
  intros Hiso.
  specialize (Hiso Sample.a_broken [Sample.push_a; Sample.push_b] Sample.push_b).
  assert (dequeued (trace (git_task Sample.config [Sample.push_a; Sample.push_b])
                      Sample.a_broken []) = [Sample.push_a]) as Hrun
    by (vm_compute; reflexivity).
  rewrite Hrun in Hiso.
  assert (Sample.push_b ∈ [Sample.push_a]) as Hin.
  { apply Hiso; [|apply never_fails_for_b].
    apply list_elem_of_further, list_elem_of_here. }
  apply list_elem_of_singleton in Hin.
  apply (f_equal (λ it : item, cfg_path it.1.1)) in Hin. discriminate Hin.
Qed.

Lemma failure_stops_worker_witness :
  (∃ e, result (git_task Sample.config [Sample.push_a]) Sample.a_broken [] =
          Raised e) ∧
  git_task Sample.config ([Sample.push_a] ++ [Sample.push_b; Sample.push_a])
    Sample.a_broken [] =
    git_task Sample.config [Sample.push_a] Sample.a_broken [].
Proof.
  destruct (failure_stops_worker Sample.lib Sample.config) as (_ & Hgit & _).
  destruct (Hgit [Sample.push_a] [Sample.push_b; Sample.push_a]
              Sample.a_broken [] 16%nat
              (started (git Sample.cfg_a ["remote"; "update"; "-p"])))
    as (Hraised & _ & Hsame).
  - vm_compute. reflexivity.
  - vm_compute. discriminate.
  - by split.
Defined.

Lemma dispatch_routing_witness :
  github Sample.lib Sample.config
    (Sample.web "a" [("X-GitHub-Event", "pull_request")] "{}") Sample.good [] =
    ([EvPrint [PStr "Handling github pull request event..."];
      EvPut GitQueue (Sample.cfg_a, "push", PDict [])], Done "OK") ∧
  gitlab Sample.lib Sample.config
    (Sample.web "a" [("X-Gitlab-Event", "Pipeline Hook")] "EVENT") Sample.good [] =
    ([EvPrint [PStr "Handling gitlab pipeline event..."];
      EvPut GitlabQueue Sample.hook_a], Done "OK") ∧
  gitlab Sample.lib Sample.config
    (Sample.web "b" [("X-Gitlab-Event", "Job Hook")] "{}") Sample.good [] =
    ([EvPrint [PStr "Ignoring unknown gitlab event"; PStr "Job Hook"]],
     Done "OK").
Proof.
  destruct (dispatch_routing Sample.lib Sample.config) as (Hgh & _ & Hgl).
  split; [|split].
  - etrans; [apply (Hgh _ Sample.cfg_a "pull_request" (PDict []))|reflexivity].
    split_and!; [reflexivity..|]. by exists "{}".
  - etrans; [apply (Hgl _ Sample.cfg_a "Pipeline Hook" Sample.pipeline_event)
            |reflexivity].
    split_and!; [reflexivity..|]. by exists "EVENT".
  - etrans; [apply (Hgl _ Sample.cfg_b "Job Hook" (PDict []))|reflexivity].
    split_and!; [reflexivity..|]. by exists "{}".
Defined.

Lemma dispatch_failure_witness :
  handle Sample.lib Sample.config GithubHook
    (Sample.web "c" [("X-GitHub-Event", "push")] "{}") Sample.good [] =
    ([], Raised (KeyError "c")) ∧
  result (github Sample.lib Sample.config
            (Sample.web "a" [("X-GitHub-Event", "fork")] "{}")) Sample.good [] =
    Done "OK" ∧
  result (github Sample.lib Sample.config
            (Sample.web "a" [("X-GitHub-Event", Scenario.escaped_byte)] "{}"))
    Scenario.utf8_stdout [] = Raised UnicodeEncodeError.
Proof.
  destruct (dispatch_failure Sample.lib Sample.config)
    as (Hunknown & Hcarries & _).
  split; [|split].
  - apply Hunknown. vm_compute. reflexivity.
  - etrans; [apply (Hcarries GithubHook _ Sample.cfg_a "fork" (PDict []))
            |reflexivity].
    split_and!; [reflexivity..|]. by exists "{}".
  - etrans; [apply (Hcarries GithubHook _ Sample.cfg_a Scenario.escaped_byte
                      (PDict []))|reflexivity].
    split_and!; [reflexivity..|]. by exists "{}".
Defined.

Lemma good_pipelines l :
  listed Sample.lib Sample.good (pipelines_url Sample.lib Sample.cfg_a)
    (gitlab_api_headers Sample.cfg_a) l →
  (List.length l ≤ 5)%nat.
Proof.
  intros (h & text & v & Hfetch & Hv & Hl).
  vm_compute in Hfetch. injection Hfetch as <-.
  vm_compute in Hv. injection Hv as <-.
  vm_compute in Hl. injection Hl as <-. simpl. lia.
Qed.

Lemma good_jobs_text plid h :
  fetch Sample.good h "get" (jobs_url Sample.lib Sample.cfg_a plid)
    (gitlab_api_headers Sample.cfg_a) None = Resp 200 "JOBS".
Proof.
  unfold Sample.good, fetch.
  rewrite bool_decide_eq_false_2 by done.
  rewrite !bool_decide_eq_false_2
    by (unfold jobs_url, gitlab_api_url; simpl; discriminate).
  reflexivity.
Qed.

Lemma good_jobs plid l :
  listed Sample.lib Sample.good (jobs_url Sample.lib Sample.cfg_a plid)
    (gitlab_api_headers Sample.cfg_a) l →
  (List.length l ≤ 3)%nat.
Proof.
  intros (h & text & v & Hfetch & Hv & Hl).
  rewrite good_jobs_text in Hfetch. injection Hfetch as <-.
  vm_compute in Hv. injection Hv as <-.
  vm_compute in Hl. injection Hl as <-. simpl. lia.
Qed.

Lemma good_answers_pipelines :
  answers Sample.lib Sample.good (pipelines_url Sample.lib Sample.cfg_a)
    (gitlab_api_headers Sample.cfg_a)
    ((λ n, PDict [("id", PInt n)]) <$> [1; 2; 3; 4; 5]).
Proof. intros h. by exists "PIPELINES", Sample.five_pipelines. Qed.

Lemma good_answers_jobs plid :
  answers Sample.lib Sample.good (jobs_url Sample.lib Sample.cfg_a plid)
    (gitlab_api_headers Sample.cfg_a) Scenario.jobs.
Proof.
  intros h. exists "JOBS", Sample.three_jobs.
  split; [apply good_jobs_text|done].
Qed.

Lemma jobs_backfill : Forall backfill_job Scenario.jobs.
Proof. repeat constructor; by eexists _, _, _, _, _. Qed.

Lemma paged_answers_pipelines :
  answers Scenario.paged_lib Scenario.paged
    (pipelines_url Scenario.paged_lib Sample.cfg_a)
    (gitlab_api_headers Sample.cfg_a) [PDict [("id", PInt 1)]].
Proof. intros h. by exists "PIPELINE", (PList [PDict [("id", PInt 1)]]). Qed.

Lemma paged_answers_jobs :
  answers Scenario.paged_lib Scenario.paged
    (jobs_url Scenario.paged_lib Sample.cfg_a (PInt 1))
    (gitlab_api_headers Sample.cfg_a) Scenario.first_page.
Proof. intros h. by exists "PAGE 1", (PList Scenario.first_page). Qed.

Lemma paged_prints_all : prints_all Scenario.paged.
Proof. intros v. unfold can_print. apply orb_true_r. Qed.

Lemma paged_posts_accepted : posts_accepted Scenario.paged_lib Scenario.paged.
Proof.
  intros h url hs data. exists 201, "{}", (PDict []).
  split_and!; [reflexivity|by right|reflexivity].
Qed.

Lemma first_page_backfill : Forall backfill_job Scenario.first_page.
Proof.
  apply Forall_fmap, Forall_forall. intros n _. by eexists _, _, _, _, _.
Qed.

Lemma backfill_bound_witness :
  (List.length
     (updates (trace (init_statuses Sample.lib Sample.cfg_a) Sample.good []))
   ≤ 15)%nat ∧
  updates (trace (commit_status_set Sample.lib Sample.cfg_a (PStr "c0ffee")
                    (PStr "lint") (PStr "skipped") PNone) Sample.good []) = [] ∧
  (result (init_statuses Sample.lib Sample.cfg_a) Sample.good [] = Done tt ∧
   List.filter is_http
     (trace (init_statuses Sample.lib Sample.cfg_a) Sample.good []) =
     EvHttp "get" (pipelines_url Sample.lib Sample.cfg_a)
       (gitlab_api_headers Sample.cfg_a) None
     :: List.concat
          (zip_with (pipeline_requests Sample.lib Sample.cfg_a)
             ((λ n, PDict [("id", PInt n)]) <$> [1; 2; 3; 4; 5])
             (replicate 5 Scenario.jobs))) ∧
  (result (init_statuses Scenario.paged_lib Sample.cfg_a) Scenario.paged []
   = Done tt ∧
   List.filter is_http
     (trace (init_statuses Scenario.paged_lib Sample.cfg_a) Scenario.paged []) =
     EvHttp "get" (pipelines_url Scenario.paged_lib Sample.cfg_a)
       (gitlab_api_headers Sample.cfg_a) None
     :: List.concat
          (zip_with (pipeline_requests Scenario.paged_lib Sample.cfg_a)
             [PDict [("id", PInt 1)]] [Scenario.first_page])).
Proof.
  destruct (backfill_bound Sample.lib Sample.config)
    as (_ & _ & _ & _ & Hjob & Hbound & Hexact & _).
  destruct (backfill_bound Scenario.paged_lib Sample.config)
    as (_ & _ & _ & _ & _ & _ & Hpaged & _).
  split; [|split; [|split]].
  - apply (Hbound Sample.cfg_a Sample.good [] 5%nat 3%nat);
      [apply good_pipelines|apply good_jobs].
  - apply Hjob. apply unrecognized_str. by_compute.
  - apply (Hexact Sample.cfg_a ((λ n, PDict [("id", PInt n)]) <$> [1; 2; 3; 4; 5])
             (replicate 5 Scenario.jobs) Sample.good []);
      [apply good_prints_all|apply good_posts_accepted
      |apply good_answers_pipelines|].
    repeat constructor; eexists;
      (split_and!; [reflexivity|apply good_answers_jobs|apply jobs_backfill]).
  - apply (Hpaged Sample.cfg_a [PDict [("id", PInt 1)]] [Scenario.first_page]
             Scenario.paged []);
      [apply paged_prints_all|apply paged_posts_accepted
      |apply paged_answers_pipelines|].
    repeat constructor. exists (PInt 1).
    split_and!; [reflexivity|apply paged_answers_jobs|apply first_page_backfill].
Defined.

(** The job on the second page is listed by gitlab and never updated: the
    backfill asks for the first page of the jobs only. *)
Lemma backfill_all_jobs_counterexample :
  ¬ backfill_all_jobs Scenario.paged_lib Sample.cfg_a Scenario.paged.
Proof.
  intros Hall.
  specialize (Hall [PDict [("id", PInt 1)]] (PDict [("id", PInt 1)]) (PInt 1)
                Scenario.last_job).
  assert (update_request Scenario.paged_lib Sample.cfg_a "c101"
            (status_data "success" (PStr "https://gitlab.example/job")
               "Gitlab deploy" "gitlab/deploy")
          ∈ trace (init_statuses Scenario.paged_lib Sample.cfg_a)
              Scenario.paged []) as Hin.
  { apply Hall.
    - exists [], "PIPELINE", (PList [PDict [("id", PInt 1)]]).
      split_and!; vm_compute; reflexivity.
    - apply list_elem_of_here.
    - reflexivity.
    - exists [Scenario.last_job]. split; [apply list_elem_of_here|].
      right. exists "2", [], "PAGE 2", (PList [Scenario.last_job]).
      split_and!; vm_compute; reflexivity.
    - apply list_elem_of_here. }
  apply (list_elem_of_fmap_2 url_of) in Hin.
  revert Hin. apply (bool_decide_unpack _). vm_compute. exact I.
Qed.

Lemma hook_a_enqueued :
  enqueued_by_dispatch Sample.lib Sample.config GitlabQueue Sample.hook_a.
Proof.
  exists GitlabHook,
    (Sample.web "a" [("X-Gitlab-Event", "Pipeline Hook")] "EVENT"),
    Sample.good, [].
  apply list_elem_of_further, list_elem_of_here.
Qed.

Lemma unknown_event_kind_witness :
  gitlab_loop Sample.lib [(Sample.cfg_a, "Job Hook", PDict []); Sample.hook_a]
    Sample.good [] =
    ([EvGet GitlabQueue (Sample.cfg_a, "Job Hook", PDict []);
      EvPrint [PStr "GitLab Task: processing event"; PStr "Job Hook"]],
     Raised (Exception "Unknown event type")) ∧
  result (gitlab_task Sample.lib Sample.config [Sample.hook_a; Sample.hook_a])
    Sample.good [] ≠ Raised (Exception "Unknown event type").
Proof.
  destruct (unknown_event_kind Sample.lib Sample.config) as (Hloop & _ & Hsafe).
  split.
  - etrans; [apply Hloop; discriminate|reflexivity].
  - apply Hsafe. repeat constructor; apply hook_a_enqueued.
Defined.

Lemma mirror_payload_noninterference_witness :
  execs (trace (git_task Sample.config [Sample.push_a; Sample.push_b])
           Sample.a_broken []) =
    execs (trace (git_task Sample.config
                    [(Sample.cfg_a, "pull_request", PList [PInt 7]);
                     (Sample.cfg_b, "push", PNone)])
             Sample.a_broken []).
Proof.
  apply (mirror_payload_noninterference Sample.config).
  repeat constructor.
Defined.

(** ** The query string *)

Lemma append_nil_r (s : string) : s +:+ "" = s.
Proof.
  induction s as [|c s IH]; [done|].
  change (String c (s +:+ "") = String c s). by rewrite IH.
Qed.

(** X1.  The argument loop appends to the URL '?' and the first key=value,
    then '&' and key=value for each further argument, in order and
    unescaped; without arguments the URL is unchanged. *)
Theorem add_args_query_string url first args :
  add_args url first args = url +:+ query_string first args.
Proof.
  revert url first. induction args as [|[k v] args IH]; intros url first.
  - simpl. by rewrite append_nil_r.
  - cbn [add_args query_string]. rewrite IH.
    destruct first; cbn [negb]; by rewrite !append_assoc.
Qed.

(** ** Sequences of git commands *)

Lemma git_pull_push_run_all cfg w h :
  git_pull_push cfg w h = run_all (pull_push_commands cfg) w h.
Proof.
  unfold git_pull_push, run_all, git_run. cbn [for_each pull_push_commands].
  apply bind_ext. intros _ h1. apply bind_ext. intros _ h2.
  by rewrite bind_ret_tt.
Qed.

Lemma init_git_run_all cfg w h :
  init_git cfg w h =
    (print [PStr "Initializing local git repo"] ;;
     run_all (init_git_commands cfg)) w h.
Proof.
  unfold init_git, run_all, git_run.
  cbn [for_each init_git_commands pull_push_commands].
  apply bind_ext. intros _ h0. apply bind_ext. intros _ h1.
  apply bind_ext. intros _ h2. apply bind_ext. intros _ h3.
  apply (git_pull_push_run_all cfg).
Qed.

Lemma run_all_cons c cmds w h :
  run_all (c :: cmds) w h =
    match failure (spawn w (io h) c.1 c.2) with
    | Some e => ([started c], Raised e)
    | None => (started c :: trace (run_all cmds) w (h ++ [started c]),
               result (run_all cmds) w (h ++ [started c]))
    end.
Proof.
  unfold run_all. cbn [for_each].
  destruct (failure (spawn w (io h) c.1 c.2)) as [e|] eqn:Hf.
  - apply bind_raised. by rewrite run_run, Hf.
  - rewrite (bind_done _ _ w h [started c] tt); [done|].
    by rewrite run_run, Hf.
Qed.

(** What a sequence of commands does, in any world. *)
Lemma run_all_spec cmds w h :
  let t := trace (run_all cmds) w h in
  t `prefix_of` (started <$> cmds) ∧
  (cmds ≠ [] → t ≠ []) ∧
  (result (run_all cmds) w h = Done tt → t = started <$> cmds) ∧
  result (run_all cmds) w h ≠ Waiting ∧
  (∀ e, result (run_all cmds) w h = Raised e →
        e = OSError ∨ e = Exception "command failed") ∧
  (∀ i ev, t !! S i = Some ev →
     ∃ c, cmds !! i = Some c ∧
          spawn w (io h ++ (started <$> take i cmds)) c.1 c.2 = Exit 0).
Proof.
  revert h. induction cmds as [|c cmds IH]; intros h.
  - cbn. split_and!; done.
  - cbn zeta. unfold trace, result. rewrite run_all_cons.
    destruct (failure (spawn w (io h) c.1 c.2)) as [e|] eqn:Hf.
    + cbn [fst snd]. split_and!; try done.
      * apply prefix_cons, prefix_nil.
      * intros e' [= <-]. unfold failure in Hf.
        destruct (spawn w (io h) c.1 c.2); [|left; congruence].
        case_bool_decide; [right; congruence|done].
    + apply failure_None in Hf. cbn [fst snd].
      destruct (IH (h ++ [started c])) as (Hp & _ & Hd & Hw & He & Hi).
      split_and!; try done.
      * by apply prefix_cons.
      * intros Hres. cbn. f_equal. by apply Hd.
      * intros [|i] ev Hlook.
        -- exists c. split; [done|]. cbn. by rewrite app_nil_r.
        -- cbn in Hlook. destruct (Hi i ev Hlook) as (c' & Hc' & Hs').
           exists c'. split; [done|].
           rewrite io_started in Hs'. cbn [take fmap list_fmap].
           by rewrite <- (assoc_L (++)) in Hs'.
Qed.

(** A started command that does not exit with 0 ends the sequence: its
    exception is raised and nothing is started after it. *)
Lemma run_all_fails cmds w h i c e :
  cmds !! i = Some c →
  trace (run_all cmds) w h !! i = Some (started c) →
  failure (spawn w (io h ++ (started <$> take i cmds)) c.1 c.2) = Some e →
  run_all cmds w h = (started <$> take (S i) cmds, Raised e).
Proof.
  revert h i. induction cmds as [|c0 cmds IH]; intros h i Hc Ht Hf; [done|].
  unfold trace in Ht. rewrite run_all_cons in *.
  destruct i as [|i].
  - injection Hc as ->. cbn [take fmap list_fmap] in Hf.
    rewrite app_nil_r in Hf. by rewrite Hf.
  - cbn [lookup] in Hc.
    destruct (failure (spawn w (io h) c0.1 c0.2)) as [e0|] eqn:Hf0; [done|].
    change (trace (run_all cmds) w (h ++ [started c0]) !! i
            = Some (started c)) in Ht.
    pose proof (IH (h ++ [started c0]) i Hc Ht) as Hrun.
    rewrite io_started, <- (assoc_L (++)) in Hrun.
    cbn [take fmap list_fmap] in Hf.
    unfold trace, result. by rewrite (Hrun Hf).
Qed.

(** The sequence returns exactly when every command exits with 0 at its
    turn. *)
Lemma run_all_done cmds w h :
  result (run_all cmds) w h = Done tt ↔
  ∀ i c, cmds !! i = Some c →
         spawn w (io h ++ (started <$> take i cmds)) c.1 c.2 = Exit 0.
Proof.
  revert h. induction cmds as [|c0 cmds IH]; intros h; [done|].
  unfold result. rewrite run_all_cons.
  destruct (failure (spawn w (io h) c0.1 c0.2)) as [e0|] eqn:Hf0.
  - split; [done|]. intros Hall.
    specialize (Hall 0%nat c0 eq_refl). cbn in Hall.
    rewrite app_nil_r in Hall. apply failure_None in Hall. congruence.
  - cbn [snd]. rewrite IH. apply failure_None in Hf0. split.
    + intros Hall [|i] c Hc.
      * injection Hc as <-. cbn. by rewrite app_nil_r.
      * cbn [take fmap list_fmap]. specialize (Hall i c Hc).
        rewrite io_started in Hall. by rewrite <- (assoc_L (++)) in Hall.
    + intros Hall i c Hc. specialize (Hall (S i) c Hc).
      cbn [take fmap list_fmap] in Hall. rewrite io_started.
      by rewrite <- (assoc_L (++)).
Qed.

Lemma run_all_zero cmds w h :
  always_exits_zero w → run_all cmds w h = (started <$> cmds, Done tt).
Proof.
  intros Hw. revert h. induction cmds as [|c cmds IH]; intros h; [done|].
  rewrite run_all_cons, Hw. cbn [failure].
  rewrite bool_decide_eq_false_2 by (intros Hne; by apply Hne).
  unfold trace, result. by rewrite IH.
Qed.

(** X2.  [git_pull_push] runs 'remote update -p', 'show-ref' and
    'push --mirror <gitlab url>' in the mirror directory, in this order, and
    stops at the first command that does not exit with 0: the push is only
    started after the other two exited with 0.  A command that was started
    and does not exit with 0, the push as well as the other two, makes
    [git_pull_push] raise 'command failed' (the error of the spawn when
    there was no exit) with nothing started after it.  It returns exactly
    when all three exited with 0, each at its turn. *)
Theorem git_pull_push_sequence cfg w h :
  let t := trace (git_pull_push cfg) w h in
  t `prefix_of` (started <$> pull_push_commands cfg) ∧
  t ≠ [] ∧
  (result (git_pull_push cfg) w h = Done tt →
   t = started <$> pull_push_commands cfg) ∧
  result (git_pull_push cfg) w h ≠ Waiting ∧
  (∀ e, result (git_pull_push cfg) w h = Raised e →
        e = OSError ∨ e = Exception "command failed") ∧
  (t !! 2%nat = Some (started (git cfg ["push"; "--mirror"; gitlab_url cfg])) →
   spawn w (io h) ("/usr/bin/git" :: ["remote"; "update"; "-p"])
     (Some (cfg_path cfg)) = Exit 0 ∧
   spawn w (io h ++ [started (git cfg ["remote"; "update"; "-p"])])
     ("/usr/bin/git" :: ["show-ref"]) (Some (cfg_path cfg)) = Exit 0) ∧
  (∀ i c e,
     pull_push_commands cfg !! i = Some c →
     t !! i = Some (started c) →
     failure (spawn w (io h ++ (started <$> take i (pull_push_commands cfg)))
                c.1 c.2) = Some e →
     git_pull_push cfg w h =
       (started <$> take (S i) (pull_push_commands cfg), Raised e)) ∧
  (result (git_pull_push cfg) w h = Done tt ↔
   ∀ i c, pull_push_commands cfg !! i = Some c →
          spawn w (io h ++ (started <$> take i (pull_push_commands cfg)))
            c.1 c.2 = Exit 0) ∧
  (always_exits_zero w →
   git_pull_push cfg w h = (started <$> pull_push_commands cfg, Done tt)).
Proof.
  intros t. subst t. unfold trace, result. rewrite git_pull_push_run_all.
  destruct (run_all_spec (pull_push_commands cfg) w h)
    as (Hp & Hne & Hd & Hw & He & Hi).
  unfold trace, result in *.
  split_and!; try done.
  - by apply Hne.
  - intros Hpush.
    destruct (Hi 1%nat _ Hpush) as (c2 & Hc2 & Hs2). injection Hc2 as <-.
    assert (is_Some ((run_all (pull_push_commands cfg) w h).1 !! 1%nat))
      as [ev1 Hev1].
    { apply lookup_lt_is_Some. apply lookup_lt_Some in Hpush. lia. }
    destruct (Hi 0%nat _ Hev1) as (c1 & Hc1 & Hs1). injection Hc1 as <-.
    split; [by rewrite app_nil_r in Hs1|exact Hs2].
  - intros i c e. apply run_all_fails.
  - apply run_all_done.
  - intros Hz. by rewrite run_all_zero.
Qed.

Lemma init_git_run cfg w h :
  init_git cfg w h =
    (EvPrint [PStr "Initializing local git repo"]
     :: trace (run_all (init_git_commands cfg)) w
          (h ++ [EvPrint [PStr "Initializing local git repo"]]),
     result (run_all (init_git_commands cfg)) w
       (h ++ [EvPrint [PStr "Initializing local git repo"]])).
Proof.
  rewrite init_git_run_all. by rewrite bind_print_plain by reflexivity.
Qed.

Lemma init_git_clone_fails cfg w h c :
  spawn w (io h) (clone_command cfg).1 None = Exit c → c ≠ 0 →
  init_git cfg w h =
    ([EvPrint [PStr "Initializing local git repo"]; started (clone_command cfg)],
     Raised (Exception "command failed")).
Proof.
  intros Hs Hc. rewrite init_git_run. unfold trace, result.
  unfold init_git_commands. rewrite run_all_cons, io_print.
  cbn [fst snd clone_command] in *. rewrite Hs. cbn [failure].
  by rewrite bool_decide_eq_true_2.
Qed.

(** X3.  [init_git] prints, clones the github repository into the mirror
    path, adds the two fetch refspecs and runs the three commands of
    [git_pull_push], in this order, stopping at the first command that does
    not exit with 0; when the clone fails nothing is run in the mirror
    directory.  A command that was started and does not exit with 0,
    whichever of the six, makes [init_git] raise 'command failed' (the
    error of the spawn when there was no exit) with nothing started after
    it.  It returns exactly when all six exited with 0, each at its
    turn. *)
Theorem init_git_sequence cfg w h :
  let t := trace (init_git cfg) w h in
  t `prefix_of` init_git_events cfg ∧
  (result (init_git cfg) w h = Done tt → t = init_git_events cfg) ∧
  result (init_git cfg) w h ≠ Waiting ∧
  (∀ e, result (init_git cfg) w h = Raised e →
        e = OSError ∨ e = Exception "command failed") ∧
  (∀ c, spawn w (io h) (clone_command cfg).1 None = Exit c → c ≠ 0 →
        init_git cfg w h =
          ([EvPrint [PStr "Initializing local git repo"];
            started (clone_command cfg)],
           Raised (Exception "command failed"))) ∧
  (∀ i c e,
     init_git_commands cfg !! i = Some c →
     t !! S i = Some (started c) →
     failure (spawn w (io h ++ (started <$> take i (init_git_commands cfg)))
                c.1 c.2) = Some e →
     init_git cfg w h =
       (EvPrint [PStr "Initializing local git repo"]
        :: (started <$> take (S i) (init_git_commands cfg)), Raised e)) ∧
  (result (init_git cfg) w h = Done tt ↔
   ∀ i c, init_git_commands cfg !! i = Some c →
          spawn w (io h ++ (started <$> take i (init_git_commands cfg)))
            c.1 c.2 = Exit 0) ∧
  (always_exits_zero w → init_git cfg w h = (init_git_events cfg, Done tt)).
Proof.
  intros t. subst t. unfold trace, result.
  rewrite init_git_run. cbn [fst snd].
  destruct (run_all_spec (init_git_commands cfg) w
              (h ++ [EvPrint [PStr "Initializing local git repo"]]))
    as (Hp & _ & Hd & Hw & He & _).
  split_and!; try done.
  - by apply prefix_cons.
  - intros Hr. unfold init_git_events. f_equal. by apply Hd.
  - intros c Hs Hc. rewrite <- (init_git_clone_fails cfg w h c Hs Hc).
    by rewrite init_git_run.
  - intros i c e Hc Ht Hf.
    change (trace (run_all (init_git_commands cfg)) w
              (h ++ [EvPrint [PStr "Initializing local git repo"]]) !! i
            = Some (started c)) in Ht.
    pose proof (run_all_fails _ w _ i c e Hc Ht) as Hrun.
    rewrite io_print in Hrun. unfold trace, result. by rewrite (Hrun Hf).
  - rewrite run_all_done. by rewrite io_print.
  - intros Hz. unfold trace, result. by rewrite run_all_zero.
Qed.

(** ** The git worker when git succeeds, and when the bootstrap fails *)

Lemma init_git_zero cfg w h :
  always_exits_zero w → init_git cfg w h = (init_git_events cfg, Done tt).
Proof.
  intros Hz. rewrite init_git_run.
  unfold trace, result. by rewrite run_all_zero.
Qed.

Lemma git_bootstrap_zero (l : list (string * repo_cfg)) w h :
  always_exits_zero w →
  for_each l (λ '(n, cfg), init_git cfg) w h =
    (List.concat ((λ nc, init_git_events nc.2) <$> l), Done tt).
Proof.
  intros Hz. revert h. induction l as [|[n cfg] l IH]; intros h; [done|].
  cbn [for_each]. erewrite bind_done; [|by apply init_git_zero].
  unfold trace, result. by rewrite IH.
Qed.

Lemma git_loop_zero feed w h :
  always_exits_zero w →
  git_loop feed w h = (List.concat (mirror_events <$> feed), Waiting).
Proof.
  intros Hz. revert h. induction feed as [|[[cfg t] op] feed IH]; intros h;
    [done|].
  rewrite git_loop_cons. cbn zeta.
  rewrite trace_bind, result_bind. unfold trace, result.
  rewrite git_pull_push_run_all, run_all_zero by done. cbn [fst snd].
  by rewrite IH.
Qed.

Section GitWorker.

Variable L : pylib.
Variable config : config_t.

(** X4.  When every subprocess exits with 0, the git worker runs, for each
    configured repository in the order of the configuration, the six
    commands of [init_git], then for each queue item in queue order the
    three commands of [git_pull_push] of the item's repository, and is left
    waiting on the queue. *)
Theorem git_task_all_succeed feed w h :
  always_exits_zero w →
  git_task config feed w h =
    (List.concat ((λ nc, init_git_events nc.2) <$> repos config)
     ++ List.concat (mirror_events <$> feed),
     Waiting).
Proof.
  intros Hz. unfold git_task, git_bootstrap.
  erewrite bind_done; [|by apply git_bootstrap_zero].
  unfold trace, result. by rewrite git_loop_zero.
Qed.

(** X5.  When the bootstrap of a worker raises, the worker ends there:
    nothing is ever taken from its queue, whatever is queued.  In
    particular, when the clone of the first configured repository exits
    with a code other than 0, the git worker has run that one command, no
    other repository is cloned and no mirror task is served. *)
Theorem bootstrap_failure_ends_worker :
  (∀ feed w h e,
     result (git_bootstrap config) w h = Raised e →
     git_task config feed w h = (trace (git_bootstrap config) w h, Raised e)) ∧
  (∀ feed w h e,
     result (gitlab_bootstrap L config) w h = Raised e →
     gitlab_task L config feed w h =
       (trace (gitlab_bootstrap L config) w h, Raised e)) ∧
  (∀ n cfg rest feed w h c,
     repos config = (n, cfg) :: rest →
     spawn w (io h) (clone_command cfg).1 None = Exit c → c ≠ 0 →
     git_task config feed w h =
       ([EvPrint [PStr "Initializing local git repo"];
         started (clone_command cfg)],
        Raised (Exception "command failed"))).
Proof.
  split_and!.
  - intros feed w h e Hr. unfold git_task. by rewrite bind_run, Hr.
  - intros feed w h e Hr. unfold gitlab_task. by rewrite bind_run, Hr.
  - intros n cfg rest feed w h c Hrepos Hs Hc.
    pose proof (init_git_clone_fails cfg w h c Hs Hc) as Hinit.
    unfold git_task, git_bootstrap. rewrite Hrepos. cbn [for_each].
    unfold bind. cbn beta iota. by rewrite Hinit.
Qed.

End GitWorker.

(** ** Coroutines that do not wait, further *)

Lemma settles_run parts cwd : settles (run parts cwd).
Proof. unfold run. settles_solve. Qed.

Lemma settles_git_pull_push cfg : settles (git_pull_push cfg).
Proof.
  unfold git_pull_push, git_run. repeat settles_step; apply settles_run.
Qed.

Lemma settles_init_git cfg : settles (init_git cfg).
Proof.
  unfold init_git, git_run.
  repeat settles_step;
    try apply settles_run; try apply settles_git_pull_push; done.
Qed.

Lemma settles_commit_status_set L cfg commit test status url :
  settles (commit_status_set L cfg commit test status url).
Proof.
  unfold commit_status_set, github_commit_status_set, github_post.
  settles_solve.
Qed.

Lemma settles_gitlab_get L cfg ep method args :
  settles (gitlab_get L cfg ep method args).
Proof. unfold gitlab_get. settles_solve. Qed.

Lemma settles_init_statuses L cfg : settles (init_statuses L cfg).
Proof.
  unfold init_statuses.
  repeat settles_step;
    try apply settles_gitlab_get; try apply settles_commit_status_set; done.
Qed.

Lemma settles_gitlab_update_pipeline L cfg ev :
  settles (gitlab_update_pipeline L cfg ev).
Proof.
  unfold gitlab_update_pipeline.
  repeat settles_step; try apply settles_commit_status_set; done.
Qed.

(** ** Queue order *)

Lemma taken_app q t1 t2 : taken q (t1 ++ t2) = taken q t1 ++ taken q t2.
Proof. apply omap_app. Qed.

Lemma taken_not_queue q t : Forall not_queue t → taken q t = [].
Proof.
  induction 1 as [|ev t [Hg _] _ IH]; [done|].
  by destruct ev.
Qed.

Lemma only_git_pull_push P Q cfg :
  (∀ parts cwd, P (EvExec ("/usr/bin/git" :: parts) cwd)) →
  Q OSError → Q (Exception "command failed") →
  only P Q (git_pull_push cfg).
Proof.
  intros HP HO HC. unfold git_pull_push, git_run.
  repeat only_step; apply only_run; auto.
Qed.

Lemma only_init_git_gen P Q cfg :
  (∀ args, P (EvPrint args)) →
  (∀ parts cwd, P (EvExec ("/usr/bin/git" :: parts) cwd)) →
  Q OSError → Q (Exception "command failed") →
  only P Q (init_git cfg).
Proof.
  intros Hp HP HO HC. unfold init_git, git_run.
  repeat only_step; try apply only_run; try apply only_git_pull_push; auto.
Qed.

(** One step of a worker loop: an item is taken, a body that touches no
    queue and does not wait runs, and the loop goes on. *)
Lemma loop_step_fifo q (it : item) (feed : list item) (pre : list event)
    (body rest : M unit) w h :
  taken q pre = [it] →
  only not_queue (λ _, True) body → settles body →
  (∀ h', result rest w h' ≠ Done tt ∧
         taken q (trace rest w h') `prefix_of` feed ∧
         (result rest w h' = Waiting → taken q (trace rest w h') = feed)) →
  result (body ;; rest) w (h ++ pre) ≠ Done tt ∧
  taken q (pre ++ trace (body ;; rest) w (h ++ pre)) `prefix_of` it :: feed ∧
  (result (body ;; rest) w (h ++ pre) = Waiting →
   taken q (pre ++ trace (body ;; rest) w (h ++ pre)) = it :: feed).
Proof.
  intros Hpre Hbody Hset Hrest.
  destruct (Hbody w (h ++ pre)) as [Hnq _]. specialize (Hset w (h ++ pre)).
  rewrite trace_bind, result_bind, taken_app, Hpre.
  destruct (result body w (h ++ pre)) as [[]| |]; [|split_and!; try done..].
  - destruct (Hrest ((h ++ pre) ++ trace body w (h ++ pre))) as (Hd & Hp & Hw).
    rewrite taken_app, (taken_not_queue _ _ Hnq). cbn [app].
    split_and!; [done|by apply prefix_cons|].
    intros Hwait. f_equal. by apply Hw.
  - rewrite (taken_not_queue _ _ Hnq). apply prefix_cons, prefix_nil.
Qed.

Lemma git_loop_fifo feed w h :
  result (git_loop feed) w h ≠ Done tt ∧
  taken GitQueue (trace (git_loop feed) w h) `prefix_of` feed ∧
  (result (git_loop feed) w h = Waiting →
   taken GitQueue (trace (git_loop feed) w h) = feed).
Proof.
  revert h. induction feed as [|[[cfg t] op] feed IH]; intros h; [done|].
  unfold trace at 1 2, result at 1 2. rewrite git_loop_cons. cbn [fst snd].
  apply loop_step_fifo; try done.
  - apply only_git_pull_push; done.
  - apply settles_git_pull_push.
Qed.

Lemma gitlab_loop_fifo L feed w h :
  result (gitlab_loop L feed) w h ≠ Done tt ∧
  taken GitlabQueue (trace (gitlab_loop L feed) w h) `prefix_of` feed ∧
  (result (gitlab_loop L feed) w h = Waiting →
   taken GitlabQueue (trace (gitlab_loop L feed) w h) = feed).
Proof.
  revert h. induction feed as [|[[cfg t] ev] feed IH]; intros h; [done|].
  unfold trace at 1 2, result at 1 2. rewrite gitlab_loop_cons. cbn zeta.
  destruct (can_print w (PStr t)).
  - cbn [fst snd]. apply loop_step_fifo; try done.
    + case_bool_decide; [|by apply only_raise].
      eapply only_weaken, only_gitlab_update_pipeline; done.
    + case_bool_decide; [apply settles_gitlab_update_pipeline|done].
  - cbn [fst snd]. split_and!; [done| |done].
    apply prefix_cons, prefix_nil.
Qed.

Lemma task_fifo q (boot loop : M unit) feed w h :
  only not_queue (λ _, True) boot → settles boot →
  (∀ h', result loop w h' ≠ Done tt ∧
         taken q (trace loop w h') `prefix_of` feed ∧
         (result loop w h' = Waiting → taken q (trace loop w h') = feed)) →
  result (boot ;; loop) w h ≠ Done tt ∧
  taken q (trace (boot ;; loop) w h) `prefix_of` feed ∧
  (result (boot ;; loop) w h = Waiting →
   taken q (trace (boot ;; loop) w h) = feed).
Proof.
  intros Hboot Hset Hloop.
  destruct (Hboot w h) as [Hnq _]. specialize (Hset w h).
  rewrite trace_bind, result_bind.
  destruct (result boot w h) as [[]| |]; [|split_and!; try done..].
  - rewrite taken_app, (taken_not_queue _ _ Hnq). apply Hloop.
  - rewrite (taken_not_queue _ _ Hnq). apply prefix_nil.
Qed.

Section Workers.

Variable L : pylib.
Variable config : config_t.

(** X6.  A worker never returns: it ends raising or waiting on its queue.
    The items it has taken are an initial part of the queue, in queue order
    and without gaps or repeats, and a worker left waiting has taken every
    item. *)
Theorem workers_serve_in_order feed w h :
  (result (git_task config feed) w h ≠ Done tt ∧
   taken GitQueue (trace (git_task config feed) w h) `prefix_of` feed ∧
   (result (git_task config feed) w h = Waiting →
    taken GitQueue (trace (git_task config feed) w h) = feed)) ∧
  (result (gitlab_task L config feed) w h ≠ Done tt ∧
   taken GitlabQueue (trace (gitlab_task L config feed) w h) `prefix_of` feed ∧
   (result (gitlab_task L config feed) w h = Waiting →
    taken GitlabQueue (trace (gitlab_task L config feed) w h) = feed)).
Proof.
  split.
  - apply task_fifo.
    + eapply only_weaken, only_git_bootstrap; done.
    + apply settles_for_each. intros [n cfg]. apply settles_init_git.
    + intros h'. apply git_loop_fifo.
  - apply task_fifo.
    + eapply only_weaken, only_gitlab_bootstrap; done.
    + apply settles_for_each. intros [n cfg]. apply settles_init_statuses.
    + intros h'. apply gitlab_loop_fifo.
Qed.

(** X7.  Everything the git worker does is a print, a subprocess of
    /usr/bin/git or taking an item from the git queue: it makes no HTTP
    request and puts nothing on a queue.  The only exceptions it raises are
    'command failed' and the error of a spawn. *)
Theorem git_worker_effects feed : only git_event git_exn (git_task config feed).
Proof.
  unfold git_task. apply only_bind.
  - apply only_for_each. intros [n cfg].
    apply only_init_git_gen; unfold git_exn; cbn; eauto.
  - intros _. induction feed as [|[[cfg t] op] feed IH].
    + intros w h. split; [constructor|discriminate].
    + cbn [git_loop]. repeat only_step; try done.
      apply only_git_pull_push; unfold git_exn; cbn; eauto.
Qed.

End Workers.

(** ** The requests of the status relay *)

Section RelayOnly.

Variables (L : pylib) (cfg : repo_cfg) (P : event → Prop) (Q : exn → Prop).

Hypothesis P_print : ∀ args, P (EvPrint args).
Hypothesis P_get : ∀ ep args,
  P (EvHttp "get" (add_args (gitlab_api_url L cfg ep) true args)
       (gitlab_api_headers cfg) None).
Hypothesis P_post : ∀ commit data,
  P (EvHttp "post" (github_api_url cfg ("statuses/" +:+ commit))
       (github_api_headers cfg) (Some (json_dumps L data))).
Hypothesis Q_key : ∀ k, Q (KeyError k).
Hypothesis Q_type : Q TypeError.
Hypothesis Q_json : Q JSONDecodeError.
Hypothesis Q_unicode : Q UnicodeEncodeError.
Hypothesis Q_client : Q ClientError.
Hypothesis Q_github : Q (Exception "github API call failed").
Hypothesis Q_gitlab : Q (Exception "gitlab API call failed").

Lemma relay_gitlab_get ep args : only P Q (gitlab_get L cfg ep "get" args).
Proof.
  unfold gitlab_get. rewrite bool_decide_eq_true_2 by done.
  repeat only_step; auto. apply P_get.
Qed.

Lemma relay_commit_status_set commit test status url :
  only P Q (commit_status_set L cfg commit test status url).
Proof.
  unfold commit_status_set, github_commit_status_set, github_post.
  repeat only_step; auto. apply P_post.
Qed.

Lemma relay_init_statuses : only P Q (init_statuses L cfg).
Proof.
  unfold init_statuses.
  repeat only_step;
    try apply relay_gitlab_get; try apply relay_commit_status_set; auto.
Qed.

Lemma relay_gitlab_update_pipeline ev :
  only P Q (gitlab_update_pipeline L cfg ev).
Proof.
  unfold gitlab_update_pipeline.
  repeat only_step; try apply relay_commit_status_set; auto.
Qed.

End RelayOnly.

Lemma addressed_get L cfg ep args :
  addressed L cfg
    (EvHttp "get" (add_args (gitlab_api_url L cfg ep) true args)
       (gitlab_api_headers cfg) None).
Proof. left. split_and!; try done. by exists ep, args. Qed.

Lemma addressed_post L cfg commit data :
  addressed L cfg
    (EvHttp "post" (github_api_url cfg ("statuses/" +:+ commit))
       (github_api_headers cfg) (Some (json_dumps L data))).
Proof. right. split_and!; try done. by exists commit, data. Qed.

Section Relay.

Variable L : pylib.
Variable config : config_t.

(** X8.  The status relay of a repository never starts a subprocess and
    touches no queue; every request it makes is a GET of that repository's
    gitlab API carrying its gitlab token, or a POST of a commit status of
    that repository's github project carrying its github token.  It raises
    only key, type, JSON, client errors, the error of a print the standard
    output cannot encode and the two 'API call failed' exceptions, never
    'unsupported method'; the worker adds taking items from the gitlab
    queue and 'Unknown event type'. *)
Theorem relay_effects :
  (∀ cfg, only (addressed L cfg) relay_exn (init_statuses L cfg)) ∧
  (∀ cfg ev, only (addressed L cfg) relay_exn (gitlab_update_pipeline L cfg ev)) ∧
  (∀ feed,
     only (λ ev, (∃ cfg, addressed L cfg ev) ∨ ∃ it, ev = EvGet GitlabQueue it)
          (λ e, relay_exn e ∨ e = Exception "Unknown event type")
          (gitlab_task L config feed)).
Proof.
  assert (∀ cfg, only (addressed L cfg) relay_exn (init_statuses L cfg)) as Hinit.
  { intros cfg. apply relay_init_statuses;
      unfold relay_exn; eauto 10 using addressed_get, addressed_post; done. }
  assert (∀ cfg ev,
            only (addressed L cfg) relay_exn (gitlab_update_pipeline L cfg ev))
    as Hupd.
  { intros cfg ev. apply relay_gitlab_update_pipeline;
      unfold relay_exn; eauto 10 using addressed_get, addressed_post; done. }
  split_and!; [done..|].
  intros feed. unfold gitlab_task, gitlab_bootstrap. apply only_bind.
  - apply only_for_each. intros [n cfg].
    eapply only_weaken, Hinit; eauto.
  - intros _. induction feed as [|[[cfg t] ev] feed IH].
    + intros w h. split; [constructor|discriminate].
    + cbn [gitlab_loop]. repeat only_step.
      * right. by eexists.
      * left. by exists cfg.
      * left. unfold relay_exn. eauto 10.
      * eapply only_weaken, Hupd; eauto.
      * by right.
      * exact IH.
Qed.

End Relay.

(** ** How an API call ends *)

Section ApiCalls.

Variable L : pylib.

(** X9.  A commit status update first prints the URL; when the standard
    output cannot write it, the update raises UnicodeEncodeError without a
    request.  Otherwise the request is made, and the update succeeds
    exactly when github answers 200 or 201 with a text that parses as JSON.
    On any other status code the answer and the code are printed and
    'github API call failed' is raised (UnicodeEncodeError when the answer
    cannot be written); an accepted update whose answer does not parse
    still raises. *)
Theorem status_update_outcome cfg commit context status desc url w h :
  let target := github_api_url cfg ("statuses/" +:+ commit) in
  let said := EvPrint [PStr "Invoking github API:"; PStr target] in
  let req := update_request L cfg commit (status_data status url desc context) in
  let answer := fetch w (io h) "post" target (github_api_headers cfg)
                  (Some (json_dumps L (status_data status url desc context))) in
  let m := github_commit_status_set L cfg (PStr commit) context status desc url in
  (result m w h = Done tt ↔
   can_print w (PStr target) = true ∧
   ∃ code text v, answer = Resp code text ∧ (code = 200 ∨ code = 201) ∧
                  json_loads L text = Some v) ∧
  (can_print w (PStr target) = false →
   m w h = ([said], Raised UnicodeEncodeError)) ∧
  (∀ code text,
     can_print w (PStr target) = true →
     answer = Resp code text → code ≠ 200 → code ≠ 201 →
     m w h =
       if can_print w (PStr text) then
         ([said; req; EvPrint [PStr text]; EvPrint [PInt code]],
          Raised (Exception "github API call failed"))
       else ([said; req; EvPrint [PStr text]], Raised UnicodeEncodeError)) ∧
  (∀ code text,
     can_print w (PStr target) = true →
     answer = Resp code text → code = 200 ∨ code = 201 →
     json_loads L text = None →
     m w h = ([said; req], Raised JSONDecodeError)).
Proof.
  intros target said req answer m. subst answer m. unfold result.
  rewrite github_commit_status_set_run. cbn zeta. fold target.
  destruct (can_print w (PStr target)).
  2:{ split_and!; try done. split; [done|]. by intros [? _]. }
  destruct (fetch w _ _ _ _ _) as [code text|].
  - split_and!.
    + split.
      * destruct (decide (code = 200 ∨ code = 201)) as [Hc|Hc].
        -- assert (bool_decide (code ≠ 200) && bool_decide (code ≠ 201) = false)
             as -> by (by destruct Hc as [-> | ->]).
           cbn [snd]. destruct (json_loads L text) as [v|] eqn:Hv; [|done].
           intros _. split; [done|]. by exists code, text, v.
        -- rewrite !bool_decide_eq_true_2 by (intros ->; apply Hc; auto).
           by destruct (can_print w (PStr text)).
      * intros (_ & code' & text' & v & [= <- <-] & Hcode & Hv). rewrite Hv.
        by destruct Hcode as [-> | ->].
    + done.
    + intros code' text' _ [= <- <-] H200 H201.
      by rewrite !bool_decide_eq_true_2.
    + intros code' text' _ [= <- <-] Hcode Hv. rewrite Hv.
      by destruct Hcode as [-> | ->].
  - split_and!; [|done..]. split; [done|]. by intros (_ & ? & ? & ? & ? & _).
Qed.

(** X10.  [gitlab_get] first prints the URL and raises UnicodeEncodeError
    without a request when the standard output cannot write it.  With a
    method other than 'get' or 'post' it then raises 'unsupported method'
    without a request.  A GET returns the parsed answer exactly when the
    URL was printed and gitlab answers 200 with a text that parses; any
    other status code, 201 included, prints the answer and raises 'gitlab
    API call failed' (UnicodeEncodeError when the answer cannot be
    written). *)
Theorem gitlab_get_outcome cfg ep args w h :
  let url := add_args (gitlab_api_url L cfg ep) true args in
  let said := EvPrint [PStr "Invoking gitlab API:"; PStr url] in
  let answer := fetch w (io h) "get" url (gitlab_api_headers cfg) None in
  (∀ method,
     can_print w (PStr url) = false →
     gitlab_get L cfg ep method args w h =
       ([said], Raised UnicodeEncodeError)) ∧
  (∀ method,
     can_print w (PStr url) = true →
     method ≠ "get" → method ≠ "post" →
     gitlab_get L cfg ep method args w h =
       ([said], Raised (Exception "unsupported method"))) ∧
  (∀ v, result (gitlab_get L cfg ep "get" args) w h = Done v ↔
        can_print w (PStr url) = true ∧
        ∃ text, answer = Resp 200 text ∧ json_loads L text = Some v) ∧
  (∀ code text,
     can_print w (PStr url) = true →
     answer = Resp code text → code ≠ 200 →
     gitlab_get L cfg ep "get" args w h =
       ([said; EvHttp "get" url (gitlab_api_headers cfg) None;
         EvPrint [PStr text]],
        if can_print w (PStr text)
        then Raised (Exception "gitlab API call failed")
        else Raised UnicodeEncodeError)).
Proof.
  intros url said answer. subst said answer. split_and!.
  - intros method Hp. unfold gitlab_get.
    fold (gitlab_api_url L cfg ep). fold url.
    rewrite bind_print_value by reflexivity. by rewrite Hp.
  - intros method Hp Hget Hpost. unfold gitlab_get.
    fold (gitlab_api_url L cfg ep). fold url.
    rewrite bind_print_value by reflexivity. rewrite Hp.
    unfold trace, result.
    rewrite !bool_decide_eq_false_2 by done. done.
  - intros v. unfold result. rewrite gitlab_get_run. cbn zeta. fold url.
    destruct (can_print w (PStr url)); [|split; [done|by intros [? _]]].
    destruct (fetch w _ _ _ _ _) as [code text|];
      [|split; [done|by intros (_ & ? & ? & _)]].
    case_bool_decide as Hcode.
    + split; [by destruct (can_print w (PStr text))|].
      intros (_ & text' & [= -> <-] & _). done.
    + assert (code = 200) as ->
        by (destruct (decide (code = 200)); [done|by destruct Hcode]).
      cbn [snd]. split.
      * destruct (json_loads L text) as [v'|] eqn:Hv; [|done].
        intros [= ->]. split; [done|]. by exists text.
      * intros (_ & text' & [= <-] & ->). done.
  - intros code text Hp Hfetch Hcode. rewrite gitlab_get_run. cbn zeta.
    fold url. rewrite Hp, Hfetch. by rewrite bool_decide_eq_true_2.
Qed.

End ApiCalls.

(** ** The updates of pipeline events, in order *)

Section RelayOrder.

Variable L : pylib.

Lemma job_loop_accepted cfg cid js w :
  prints_all w → posts_accepted L w → Forall well_formed_job js →
  ∀ h,
    let body := λ j,
      jid <- lift (py_getitem j "id") ;;
      let url := PStr ("https://" +:+ gl_host (cfg_gitlab cfg) +:+ "/"
                       +:+ gl_repo (cfg_gitlab cfg) +:+ "/-/jobs/"
                       +:+ py_str L jid) in
      name <- lift (py_getitem j "name") ;;
      status <- lift (py_getitem j "status") ;;
      commit_status_set L cfg (PStr cid) name status url in
    result (for_each js body) w h = Done tt ∧
    updates (trace (for_each js body) w h) =
      List.concat (job_update L cfg cid <$> js).
Proof.
  intros Hw Hacc Hjs. induction Hjs as [|j js Hj Hjs IH]; intros h body; [done|].
  destruct Hj as (jid & name & status & Hid & Hname & Hstatus).
  assert (∃ tj, body j w h = (tj, Done tt) ∧
                updates tj = job_update L cfg cid j) as (tj & Hbody & Hupd).
  { eexists. split.
    - subst body. cbn beta.
      rewrite Hid; cbn [lift]; rewrite bind_ret.
      rewrite Hname; cbn [lift]; rewrite bind_ret.
      rewrite Hstatus; cbn [lift]; rewrite bind_ret.
      by apply commit_status_set_accepted.
    - unfold job_update. rewrite Hid, Hname, Hstatus.
      by destruct (gh_status_of status). }
  cbn [for_each]. unfold trace, result.
  rewrite (bind_done _ _ w h tj tt Hbody). cbn [fst snd].
  destruct (IH (h ++ tj)) as [IHr IHt].
  split; [exact IHr|].
  rewrite updates_app, Hupd. cbn [fmap list_fmap List.concat].
  f_equal. exact IHt.
Qed.

Lemma gitlab_update_pipeline_accepted cfg ev cid js w h :
  prints_all w → posts_accepted L w → well_formed_event ev cid js →
  result (gitlab_update_pipeline L cfg ev) w h = Done tt ∧
  updates (trace (gitlab_update_pipeline L cfg ev) w h) =
    List.concat (job_update L cfg cid <$> js).
Proof.
  intros Hw Hacc (c & builds & Hc & Hcid & Hb & Hit & Hjs).
  unfold gitlab_update_pipeline, trace, result.
  rewrite Hc; cbn [lift]; rewrite bind_ret.
  rewrite Hcid; cbn [lift]; rewrite bind_ret.
  rewrite Hb; cbn [lift]; rewrite bind_ret.
  rewrite Hit; cbn [lift]; rewrite bind_ret.
  apply (job_loop_accepted cfg cid js w Hw Hacc Hjs h).
Qed.


Lemma item_updates_well_formed cfg t ev cid js :
  well_formed_event ev cid js →
  item_updates L (cfg, t, ev) = List.concat (job_update L cfg cid <$> js).
Proof.
  intros (c & builds & Hc & Hcid & Hb & Hit & _).
  unfold item_updates. cbn [fst snd]. by rewrite Hc, Hcid, Hb, Hit.
Qed.

(** X12.  When the standard output writes everything, github accepts every
    status and the queue holds well-formed 'Pipeline Hook' events, the
    status worker takes every item and is left waiting, and the updates it
    has sent are those of the first item, then those of the second, and so
    on: events are relayed in arrival order, none is merged or skipped. *)
Theorem relay_in_arrival_order feed w h :
  prints_all w → posts_accepted L w →
  Forall (λ it : item, it.1.2 = "Pipeline Hook" ∧
                       ∃ cid js, well_formed_event it.2 cid js) feed →
  result (gitlab_loop L feed) w h = Waiting ∧
  updates (trace (gitlab_loop L feed) w h) =
    List.concat (item_updates L <$> feed) ∧
  taken GitlabQueue (trace (gitlab_loop L feed) w h) = feed.
Proof.
  intros Hw Hacc Hfeed.
  assert (result (gitlab_loop L feed) w h = Waiting ∧
          updates (trace (gitlab_loop L feed) w h) =
            List.concat (item_updates L <$> feed)) as [Hr Ht].
  { revert h. induction Hfeed as [|[[cfg t] ev] feed [Ht (cid & js & Hev)] _ IH];
      intros h; [done|].
    cbn [fst snd] in Ht, Hev. subst t.
    unfold trace, result. rewrite gitlab_loop_hook. cbn [fst snd].
    rewrite trace_bind, result_bind.
    destruct (gitlab_update_pipeline_accepted cfg ev cid js w
                (h ++ [EvGet GitlabQueue (cfg, "Pipeline Hook", ev);
                       EvPrint [PStr "GitLab Task: processing event";
                                PStr "Pipeline Hook"]]) Hw Hacc Hev) as [Hd Hu].
    rewrite Hd.
    destruct (IH ((h ++ [EvGet GitlabQueue (cfg, "Pipeline Hook", ev);
                         EvPrint [PStr "GitLab Task: processing event";
                                  PStr "Pipeline Hook"]])
                  ++ trace (gitlab_update_pipeline L cfg ev) w
                       (h ++ [EvGet GitlabQueue (cfg, "Pipeline Hook", ev);
                              EvPrint [PStr "GitLab Task: processing event";
                                       PStr "Pipeline Hook"]])))
      as [IHr IHt].
    split; [exact IHr|].
    rewrite !updates_app, Hu, IHt. cbn [fmap list_fmap List.concat].
    by rewrite (item_updates_well_formed cfg _ ev cid js Hev). }
  split_and!; try done.
  by apply gitlab_loop_fifo.
Qed.

End RelayOrder.

(** ** Endpoints and malformed payloads *)

Section Payloads.

Variable L : pylib.
Variable config : config_t.

(** X13.  The gitlab endpoint does not look into the payload: a 'Pipeline
    Hook' request whose body parses but has no 'commit' (an empty object,
    or a value that is not an object) is answered OK and queued.  When the
    status worker takes that item it raises the key or type error of the
    subscript and ends, before any request and whatever is queued behind. *)
Theorem malformed_hook_stops_relay request cfg x e feed w h w' h' :
  carries L config request "x-gitlab-event" cfg "Pipeline Hook" x →
  py_getitem x "commit" = inl e →
  gitlab L config request w h =
    ([EvPrint [PStr "Handling gitlab pipeline event..."];
      EvPut GitlabQueue (cfg, "Pipeline Hook", x)], Done "OK") ∧
  gitlab_loop L ((cfg, "Pipeline Hook", x) :: feed) w' h' =
    ([EvGet GitlabQueue (cfg, "Pipeline Hook", x);
      EvPrint [PStr "GitLab Task: processing event"; PStr "Pipeline Hook"]],
     Raised e) ∧
  (e = KeyError "commit" ∨ e = TypeError).
Proof.
  intros (Hrepo & Hev & text & Htext & Hx) Hcommit. split_and!.
  - by rewrite gitlab_run, Hrepo, Hev, Htext, Hx.
  - rewrite gitlab_loop_hook. cbn zeta.
    rewrite trace_bind, result_bind.
    assert (∀ h0, gitlab_update_pipeline L cfg x w' h0 = ([], Raised e)) as Hup.
    { intros h0. unfold gitlab_update_pipeline. by rewrite Hcommit. }
    unfold trace, result. by rewrite Hup.
  - exact (py_getitem_raises x "commit" e Hcommit).
Qed.

(** X14.  An endpoint starts no subprocess, makes no request and takes
    nothing from a queue; it is never left waiting; it puts at most one
    item, and an item it puts carries the configuration found under the
    repository name of the request and the parsed text of the body, the
    answer then being OK. *)
Theorem endpoint_effects ep request w h :
  let m := handle L config ep request in
  Forall (λ ev, is_io ev = false ∧ is_get ev = false) (trace m w h) ∧
  result m w h ≠ Waiting ∧
  (List.length (puts (trace m w h)) ≤ 1)%nat ∧
  (∀ q it, EvPut q it ∈ trace m w h →
     assoc (match_info_repo request) (repos config) = Some it.1.1 ∧
     (∃ text, request_text L (headers request) (body request) = inr text ∧
              json_loads L text = Some it.2) ∧
     result m w h = Done "OK").
Proof.
  intros m. subst m. unfold trace, result.
  destruct ep; cbn [handle]; rewrite ?github_run, ?gitlab_run;
    destruct (assoc _ _) as [cfg|];
    try (split_and!; [constructor|done|cbn; lia|by intros ?? ?%elem_of_nil]);
    destruct (header _ _) as [e|ev];
    try (split_and!; [constructor|done|cbn; lia|by intros ?? ?%elem_of_nil]);
    destruct (request_text L _ _) as [e|text];
    try (split_and!; [constructor|done|cbn; lia|by intros ?? ?%elem_of_nil]);
    destruct (json_loads L _) as [x|] eqn:Hx;
    try (split_and!; [constructor|done|cbn; lia|by intros ?? ?%elem_of_nil]);
    repeat case_bool_decide; cbn [fst snd];
    (split_and!;
       [by repeat constructor
       |first [done|by destruct (can_print w _)]|cbn; lia|]);
    intros q it Hin;
    apply elem_of_cons in Hin as [Hin|Hin]; try discriminate;
    try (by apply elem_of_nil in Hin);
    apply list_elem_of_singleton in Hin; injection Hin as -> ->;
    (split_and!; [done|by exists text|done]).
Qed.

End Payloads.

(** ** The updates of a pipeline event, in any world *)

Section RelayPrefix.

Variable L : pylib.

(** An update is sent as expected, or nothing is sent and the call
    raises. *)
Lemma commit_status_set_updates_cases cfg c t status url w h :
  let m := commit_status_set L cfg (PStr c) (PStr t) status url in
  let expected :=
    match gh_status_of status with
    | Some g => [update_request L cfg c
                   (status_data g url (description_of cfg t) ("gitlab/" +:+ t))]
    | None => []
    end in
  updates (trace m w h) = expected ∨
  (updates (trace m w h) = [] ∧ ∃ e, result m w h = Raised e).
Proof.
  intros m expected. subst m expected.
  rewrite <- updates_http, commit_status_set_http.
  destruct (gh_status_of status) as [g|] eqn:Hg; [|by left].
  destruct (can_print w _) eqn:Hp; [by left|right].
  split; [done|]. unfold result.
  rewrite (commit_status_set_known L cfg c t status url g w h Hg).
  rewrite github_commit_status_set_run. cbn zeta. rewrite Hp. by eexists.
Qed.

Lemma job_loop_prefix cfg cid js w :
  Forall well_formed_job js →
  ∀ h,
    let body := λ j,
      jid <- lift (py_getitem j "id") ;;
      let url := PStr ("https://" +:+ gl_host (cfg_gitlab cfg) +:+ "/"
                       +:+ gl_repo (cfg_gitlab cfg) +:+ "/-/jobs/"
                       +:+ py_str L jid) in
      name <- lift (py_getitem j "name") ;;
      status <- lift (py_getitem j "status") ;;
      commit_status_set L cfg (PStr cid) name status url in
    updates (trace (for_each js body) w h)
      `prefix_of` List.concat (job_update L cfg cid <$> js) ∧
    (result (for_each js body) w h = Done tt →
     updates (trace (for_each js body) w h) =
       List.concat (job_update L cfg cid <$> js)) ∧
    result (for_each js body) w h ≠ Waiting.
Proof.
  intros Hjs. induction Hjs as [|j js Hj Hjs IH]; intros h body.
  - split_and!; try done.
  - destruct Hj as (jid & name & status & Hid & Hname & Hstatus).
    assert (∀ h0, body j w h0 =
                  commit_status_set L cfg (PStr cid) (PStr name) status
                    (PStr (job_page L cfg jid)) w h0) as Hbody.
    { intros h0. subst body. cbn beta.
      rewrite Hid; cbn [lift]; rewrite bind_ret.
      rewrite Hname; cbn [lift]; rewrite bind_ret.
      rewrite Hstatus; cbn [lift]. by rewrite bind_ret. }
    assert (updates (trace (body j) w h) = job_update L cfg cid j ∨
            (updates (trace (body j) w h) = [] ∧
             ∃ e, result (body j) w h = Raised e)) as Hupd.
    { unfold trace, result. rewrite Hbody.
      unfold job_update. rewrite Hid, Hname, Hstatus.
      apply commit_status_set_updates_cases. }
    assert (result (body j) w h ≠ Waiting) as Hset.
    { unfold result. rewrite Hbody. apply settles_commit_status_set. }
    cbn [for_each]. rewrite updates_bind, result_bind.
    cbn [fmap list_fmap List.concat].
    destruct Hupd as [Hupd|[Hupd [e He]]].
    + rewrite Hupd.
      destruct (result (body j) w h) as [[]| |]; [|split_and!; try done..].
      * destruct (IH (h ++ trace (body j) w h)) as (IHp & IHd & IHw).
        split_and!; [by apply prefix_app|intros Hd; f_equal; by apply IHd|done].
      * by exists (List.concat (job_update L cfg cid <$> js)).
    + rewrite He, Hupd. split_and!; [apply prefix_nil|done..].
Qed.

(** X15.  In any world, the updates [gitlab_update_pipeline] sends for an
    event with a commit id and well-formed jobs are an initial part of the
    expected ones, job by job in order: it never sends an update out of
    order, and it sends all of them when it returns.  It never goes on
    after an update that failed: when a request has no answer, a refused
    answer or an answer that does not parse, [gitlab_update_pipeline]
    raises and makes no request after it. *)
Theorem pipeline_updates_prefix cfg ev cid js w h :
  well_formed_event ev cid js →
  updates (trace (gitlab_update_pipeline L cfg ev) w h)
    `prefix_of` List.concat (job_update L cfg cid <$> js) ∧
  (result (gitlab_update_pipeline L cfg ev) w h = Done tt →
   updates (trace (gitlab_update_pipeline L cfg ev) w h) =
     List.concat (job_update L cfg cid <$> js)) ∧
  result (gitlab_update_pipeline L cfg ev) w h ≠ Waiting ∧
  (∀ i req,
     trace (gitlab_update_pipeline L cfg ev) w h !! i = Some req →
     failed L w (h ++ take i (trace (gitlab_update_pipeline L cfg ev) w h)) req →
     (∃ e, result (gitlab_update_pipeline L cfg ev) w h = Raised e) ∧
     ∀ j later, (i < j)%nat →
       trace (gitlab_update_pipeline L cfg ev) w h !! j = Some later →
       is_io later = false ∧ is_get later = false).
Proof.
  intros Hev.
  assert (∀ i req,
     trace (gitlab_update_pipeline L cfg ev) w h !! i = Some req →
     failed L w (h ++ take i (trace (gitlab_update_pipeline L cfg ev) w h)) req →
     (∃ e, result (gitlab_update_pipeline L cfg ev) w h = Raised e) ∧
     ∀ j later, (i < j)%nat →
       trace (gitlab_update_pipeline L cfg ev) w h !! j = Some later →
       is_io later = false ∧ is_get later = false) as Hfast.
  { intros i req. apply (fail_fast_gitlab_update_pipeline L cfg ev w h i req). }
  destruct Hev as (c & builds & Hc & Hcid & Hb & Hit & Hjs).
  revert Hfast.
  unfold gitlab_update_pipeline, trace, result.
  rewrite Hc; cbn [lift]; rewrite bind_ret.
  rewrite Hcid; cbn [lift]; rewrite bind_ret.
  rewrite Hb; cbn [lift]; rewrite bind_ret.
  rewrite Hit; cbn [lift]; rewrite bind_ret.
  intros Hfast.
  destruct (job_loop_prefix cfg cid js w Hjs h) as (Hp & Hd & Hw).
  by split_and!.
Qed.

End RelayPrefix.

(** ** The backfill at its edges *)

Section BackfillEdges.

Variable L : pylib.

Lemma init_statuses_start cfg w h :
  let rest :=
    pls <- gitlab_get L cfg "pipelines" "get"
             [("pagination", "keyset"); ("order_by", "updated_at");
              ("sort", "desc"); ("per_page", "5")] ;;
    pls <- lift (py_iter pls) ;;
    for_each pls (λ pl,
      plid <- lift (py_getitem pl "id") ;;
      jobs <- gitlab_get L cfg ("pipelines/" +:+ py_str L plid +:+ "/jobs")
                "get" [("per_page", "100")] ;;
      jobs <- lift (py_iter jobs) ;;
      for_each jobs (λ j,
        c <- lift (py_getitem j "commit") ;;
        commit <- lift (py_getitem c "id") ;;
        name <- lift (py_getitem j "name") ;;
        status <- lift (py_getitem j "status") ;;
        web_url <- lift (py_getitem j "web_url") ;;
        commit_status_set L cfg commit name status web_url)) ;;
    print [PStr "Commit statuses initialized"] in
  init_statuses L cfg w h =
    (EvPrint [PStr "initializing commit statuses"]
     :: trace rest w (h ++ [EvPrint [PStr "initializing commit statuses"]]),
     result rest w (h ++ [EvPrint [PStr "initializing commit statuses"]])).
Proof.
  intros rest. subst rest. unfold init_statuses.
  by rewrite bind_print_plain by reflexivity.
Qed.

(** X16.  The backfill of a repository starts with the pipelines query,
    made once its URL is printed: when the standard output cannot write the
    URL the backfill raises UnicodeEncodeError without a request.  When
    gitlab answers the query with a code other than 200 the answer is
    printed and the backfill raises before any other request; when the
    answer lists no pipeline the backfill returns having made that one
    request; when the first pipeline listed has no 'id' the backfill raises
    the error of the subscript before asking for any job. *)
Theorem init_statuses_edges cfg w h :
  let query := EvHttp "get" (pipelines_url L cfg) (gitlab_api_headers cfg) None in
  let said := [EvPrint [PStr "initializing commit statuses"];
               EvPrint [PStr "Invoking gitlab API:"; PStr (pipelines_url L cfg)]] in
  let pre := said ++ [query] in
  let answer := fetch w (io h) "get" (pipelines_url L cfg)
                  (gitlab_api_headers cfg) None in
  (can_print w (PStr (pipelines_url L cfg)) = false →
   init_statuses L cfg w h = (said, Raised UnicodeEncodeError)) ∧
  (∀ code text,
     can_print w (PStr (pipelines_url L cfg)) = true →
     answer = Resp code text → code ≠ 200 →
     init_statuses L cfg w h =
       (pre ++ [EvPrint [PStr text]],
        if can_print w (PStr text)
        then Raised (Exception "gitlab API call failed")
        else Raised UnicodeEncodeError)) ∧
  (∀ text v,
     can_print w (PStr (pipelines_url L cfg)) = true →
     answer = Resp 200 text → json_loads L text = Some v →
     py_iter v = inr [] →
     init_statuses L cfg w h =
       (pre ++ [EvPrint [PStr "Commit statuses initialized"]], Done tt)) ∧
  (∀ text v pl pls e,
     can_print w (PStr (pipelines_url L cfg)) = true →
     answer = Resp 200 text → json_loads L text = Some v →
     py_iter v = inr (pl :: pls) → py_getitem pl "id" = inl e →
     init_statuses L cfg w h = (pre, Raised e)).
Proof.
  intros query said pre answer. subst query said pre answer.
  assert (io (h ++ [EvPrint [PStr "initializing commit statuses"]]) = io h)
    as Hio by apply io_print.
  rewrite init_statuses_start. cbn zeta.
  split_and!.
  - intros Hp.
    rewrite trace_bind, result_bind. unfold trace, result.
    rewrite gitlab_get_run. cbn zeta. fold (pipelines_url L cfg).
    by rewrite Hp.
  - intros code text Hp Hfetch Hcode.
    rewrite trace_bind, result_bind. unfold trace, result.
    rewrite gitlab_get_run. cbn zeta. fold (pipelines_url L cfg).
    rewrite Hp, Hio, Hfetch. rewrite bool_decide_eq_true_2 by done.
    by destruct (can_print w (PStr text)).
  - intros text v Hp Hfetch Hv Hit.
    rewrite trace_bind, result_bind. unfold trace, result.
    rewrite gitlab_get_run. cbn zeta. fold (pipelines_url L cfg).
    rewrite Hp, Hio, Hfetch.
    rewrite bool_decide_eq_false_2 by (intros Hne; by apply Hne).
    cbn [fst snd].
    rewrite Hv, Hit. cbn [lift]. rewrite bind_ret. cbn [for_each].
    rewrite bind_ret. by rewrite print_plain by reflexivity.
  - intros text v pl pls e Hp Hfetch Hv Hit Hid.
    rewrite trace_bind, result_bind. unfold trace, result.
    rewrite gitlab_get_run. cbn zeta. fold (pipelines_url L cfg).
    rewrite Hp, Hio, Hfetch.
    rewrite bool_decide_eq_false_2 by (intros Hne; by apply Hne).
    cbn [fst snd].
    rewrite Hv, Hit. cbn [lift]. rewrite bind_ret. cbn [for_each].
    by rewrite Hid.
Qed.

End BackfillEdges.

(** ** The further theorems at the sample inputs *)

Lemma good_always_exits_zero : always_exits_zero Sample.good.
Proof. by intros h argv cwd. Qed.

Lemma pipeline_event_well_formed :
  well_formed_event Sample.pipeline_event "c0ffee" Scenario.jobs.
Proof.
  eexists _, _. split_and!; try reflexivity.
  repeat constructor; eexists _, _, _; split_and!; reflexivity.
Qed.

Lemma git_pull_push_sequence_witness :
  git_pull_push Sample.cfg_a Sample.good [] =
    (started <$> pull_push_commands Sample.cfg_a, Done tt) ∧
  git_pull_push Sample.cfg_a Scenario.push_refused [] =
    (started <$> pull_push_commands Sample.cfg_a,
     Raised (Exception "command failed")).
Proof.
  split.
  - destruct (git_pull_push_sequence Sample.cfg_a Sample.good [])
      as (_ & _ & _ & _ & _ & _ & _ & _ & Hzero).
    apply Hzero, good_always_exits_zero.
  - destruct (git_pull_push_sequence Sample.cfg_a Scenario.push_refused [])
      as (_ & _ & _ & _ & _ & _ & Hfails & _ & _).
    apply (Hfails 2%nat
             (git Sample.cfg_a ["push"; "--mirror"; gitlab_url Sample.cfg_a]));
      reflexivity.
Defined.

Lemma init_git_sequence_witness :
  init_git Sample.cfg_a Sample.good [] =
    (init_git_events Sample.cfg_a, Done tt) ∧
  init_git Sample.cfg_a Scenario.no_git [] =
    ([EvPrint [PStr "Initializing local git repo"];
      started (clone_command Sample.cfg_a)],
     Raised (Exception "command failed")) ∧
  init_git Sample.cfg_a Scenario.push_refused [] =
    (init_git_events Sample.cfg_a, Raised (Exception "command failed")).
Proof.
  split_and!.
  - destruct (init_git_sequence Sample.cfg_a Sample.good [])
      as (_ & _ & _ & _ & _ & _ & _ & Hzero).
    apply Hzero, good_always_exits_zero.
  - destruct (init_git_sequence Sample.cfg_a Scenario.no_git [])
      as (_ & _ & _ & _ & Hclone & _).
    apply (Hclone 128); [reflexivity|done].
  - destruct (init_git_sequence Sample.cfg_a Scenario.push_refused [])
      as (_ & _ & _ & _ & _ & Hfails & _ & _).
    apply (Hfails 5%nat
             (git Sample.cfg_a ["push"; "--mirror"; gitlab_url Sample.cfg_a]));
      reflexivity.
Defined.

Lemma git_task_all_succeed_witness :
  git_task Sample.config [Sample.push_b; Sample.push_a] Sample.good [] =
    (init_git_events Sample.cfg_a ++ init_git_events Sample.cfg_b
     ++ mirror_events Sample.push_b ++ mirror_events Sample.push_a,
     Waiting).
Proof.
  rewrite (git_task_all_succeed Sample.config _ Sample.good []
             good_always_exits_zero).
  cbn [repos Sample.config fmap list_fmap List.concat snd].
  by rewrite !app_nil_r, <- !(assoc_L (++)).
Defined.

Lemma bootstrap_failure_ends_worker_witness :
  git_task Sample.config [Sample.push_a; Sample.push_b] Scenario.no_git [] =
    ([EvPrint [PStr "Initializing local git repo"];
      started (clone_command Sample.cfg_a)],
     Raised (Exception "command failed")).
Proof.
  destruct (bootstrap_failure_ends_worker Sample.lib Sample.config)
    as (_ & _ & Hclone).
  apply (Hclone "a" Sample.cfg_a [("b", Sample.cfg_b)] _ _ _ 128);
    [reflexivity|reflexivity|done].
Defined.

Lemma workers_serve_in_order_witness :
  taken GitQueue
    (trace (git_task Sample.config [Sample.push_a; Sample.push_b])
       Sample.good []) = [Sample.push_a; Sample.push_b] ∧
  taken GitlabQueue
    (trace (gitlab_task Sample.lib Sample.config [Sample.hook_a; Sample.hook_a])
       Sample.good []) = [Sample.hook_a; Sample.hook_a].
Proof.
  split.
  - destruct (workers_serve_in_order Sample.lib Sample.config
                [Sample.push_a; Sample.push_b] Sample.good [])
      as [(_ & _ & Hall) _].
    apply Hall. vm_compute. reflexivity.
  - destruct (workers_serve_in_order Sample.lib Sample.config
                [Sample.hook_a; Sample.hook_a] Sample.good [])
      as [_ (_ & _ & Hall)].
    apply Hall. vm_compute. reflexivity.
Defined.

Lemma git_worker_effects_witness : git_exn (Exception "command failed").
Proof.
  destruct (git_worker_effects Sample.config [Sample.push_a]
              Sample.a_broken []) as [_ Hexn].
  apply Hexn. vm_compute. reflexivity.
Defined.

Lemma relay_effects_witness :
  relay_exn (KeyError "commit") ∧ relay_exn UnicodeEncodeError.
Proof.
  destruct (relay_effects Sample.lib Sample.config) as (_ & Hupd & _).
  split.
  - destruct (Hupd Sample.cfg_a (PDict []) Sample.good []) as [_ Hexn].
    apply Hexn. reflexivity.
  - destruct (Hupd Sample.cfg_a Scenario.surrogate_event Scenario.utf8_stdout [])
      as [_ Hexn].
    apply Hexn. reflexivity.
Defined.

Lemma status_update_outcome_witness :
  result (github_commit_status_set Sample.lib Sample.cfg_a (PStr "c0ffee")
            "gitlab/build" "success" "Gitlab build" PNone) Sample.good [] =
    Done tt ∧
  result (github_commit_status_set Sample.lib Sample.cfg_a (PStr "c0ffee")
            "gitlab/build" "success" "Gitlab build" PNone)
    Scenario.rejecting [] = Raised (Exception "github API call failed").
Proof.
  split.
  - destruct (status_update_outcome Sample.lib Sample.cfg_a "c0ffee"
                "gitlab/build" "success" "Gitlab build" PNone Sample.good [])
      as (Hiff & _).
    apply Hiff. split; [reflexivity|]. exists 201, "{}", (PDict []).
    split_and!; [reflexivity|by right|reflexivity].
  - destruct (status_update_outcome Sample.lib Sample.cfg_a "c0ffee"
                "gitlab/build" "success" "Gitlab build" PNone
                Scenario.rejecting [])
      as (_ & _ & Hrej & _).
    unfold result.
    by rewrite (Hrej 422 "Unprocessable" eq_refl eq_refl).
Defined.

Lemma gitlab_get_outcome_witness :
  gitlab_get Sample.lib Sample.cfg_a "pipelines" "put" [] Sample.good [] =
    ([EvPrint [PStr "Invoking gitlab API:";
               PStr (gitlab_api_url Sample.lib Sample.cfg_a "pipelines")]],
     Raised (Exception "unsupported method")).
Proof.
  destruct (gitlab_get_outcome Sample.lib Sample.cfg_a "pipelines" []
              Sample.good []) as (_ & Hmethod & _).
  by apply Hmethod.
Defined.


Lemma relay_in_arrival_order_witness :
  result (gitlab_loop Sample.lib [Sample.hook_a; Sample.hook_a])
    Sample.good [] = Waiting ∧
  updates (trace (gitlab_loop Sample.lib [Sample.hook_a; Sample.hook_a])
             Sample.good []) =
    item_updates Sample.lib Sample.hook_a ++ item_updates Sample.lib Sample.hook_a.
Proof.
  destruct (relay_in_arrival_order Sample.lib
              [Sample.hook_a; Sample.hook_a] Sample.good []
              good_prints_all good_posts_accepted) as (Hwait & Hupd & _).
  - repeat constructor; eexists _, _; apply pipeline_event_well_formed.
  - split; [exact Hwait|]. rewrite Hupd.
    cbn [fmap list_fmap List.concat]. by rewrite app_nil_r.
Defined.

Lemma malformed_hook_stops_relay_witness :
  gitlab Sample.lib Sample.config Scenario.empty_hook Sample.good [] =
    ([EvPrint [PStr "Handling gitlab pipeline event..."];
      EvPut GitlabQueue (Sample.cfg_a, "Pipeline Hook", PDict [])],
     Done "OK") ∧
  gitlab_loop Sample.lib
    [(Sample.cfg_a, "Pipeline Hook", PDict []); Sample.hook_a] Sample.good [] =
    ([EvGet GitlabQueue (Sample.cfg_a, "Pipeline Hook", PDict []);
      EvPrint [PStr "GitLab Task: processing event"; PStr "Pipeline Hook"]],
     Raised (KeyError "commit")).
Proof.
  destruct (malformed_hook_stops_relay Sample.lib Sample.config
              Scenario.empty_hook Sample.cfg_a (PDict []) (KeyError "commit")
              [Sample.hook_a] Sample.good [] Sample.good [])
    as (Hput & Hloop & _).
  - split_and!; [reflexivity..|]. by exists "{}".
  - reflexivity.
  - by split.
Defined.

Lemma endpoint_effects_witness :
  result (handle Sample.lib Sample.config GithubHook
            (Sample.web "a" [("X-GitHub-Event", "pull_request")] "{}"))
    Sample.good [] = Done "OK".
Proof.
  destruct (endpoint_effects Sample.lib Sample.config GithubHook
              (Sample.web "a" [("X-GitHub-Event", "pull_request")] "{}")
              Sample.good []) as (_ & _ & _ & Hput).
  apply (Hput GitQueue (Sample.cfg_a, "push", PDict [])).
  apply list_elem_of_further, list_elem_of_here.
Defined.

Lemma pipeline_updates_prefix_witness :
  updates (trace (gitlab_update_pipeline Sample.lib Sample.cfg_a
                    Sample.pipeline_event) Scenario.rejecting [])
    `prefix_of` List.concat (job_update Sample.lib Sample.cfg_a "c0ffee"
                               <$> Scenario.jobs) ∧
  (∃ e, result (gitlab_update_pipeline Sample.lib Sample.cfg_a
                  Sample.pipeline_event) Scenario.rejecting [] = Raised e) ∧
  List.length
    (updates (trace (gitlab_update_pipeline Sample.lib Sample.cfg_a
                       Sample.pipeline_event) Scenario.rejecting [])) = 1%nat.
Proof.
  destruct (pipeline_updates_prefix Sample.lib Sample.cfg_a
              Sample.pipeline_event "c0ffee" Scenario.jobs Scenario.rejecting []
              pipeline_event_well_formed) as (Hprefix & _ & _ & Hfast).
  split_and!; [exact Hprefix| |reflexivity].
  apply (Hfast 1%nat
           (update_request Sample.lib Sample.cfg_a "c0ffee"
              (status_data "success"
                 (PStr "https://gitlab.example/a/-/jobs/1") "Gitlab build"
                 "gitlab/build"))).
  - reflexivity.
  - left. by vm_compute.
Defined.

Lemma init_statuses_edges_witness :
  init_statuses Sample.lib Sample.cfg_a Scenario.no_pipelines [] =
    ([EvPrint [PStr "initializing commit statuses"];
      EvPrint [PStr "Invoking gitlab API:";
               PStr (pipelines_url Sample.lib Sample.cfg_a)];
      EvHttp "get" (pipelines_url Sample.lib Sample.cfg_a)
        (gitlab_api_headers Sample.cfg_a) None;
      EvPrint [PStr "{}"]],
     Raised (Exception "gitlab API call failed")).
Proof.
  destruct (init_statuses_edges Sample.lib Sample.cfg_a
              Scenario.no_pipelines []) as (_ & Hcode & _).
  etrans; [apply (Hcode 404 "{}"); [reflexivity|reflexivity|done]|reflexivity].
Defined.
